(** * LinktreeToLivalinkCrawler: the extraction-and-persistence pipeline

    A shallow embedding of the crawler's Go program: the [Result] record,
    [crawlLinktreeProfile], [saveResultToFile], [downloadProfileImage] and
    [main], together with the parts of Go's runtime and standard library
    the program's observable behaviour rests on (maps that may be nil,
    [unicode/utf8], [encoding/json]).  The network, the HTML selector
    engine, the file system and [path/filepath] are an environment the
    program is run against. *)

From Stdlib Require Import String Ascii List NArith ZArith Lia Bool.
From stdpp Require Import base gmap strings list sorting pretty.

Local Open Scope N_scope.

(** ** Bytes and strings

    A Go [string] is an immutable sequence of bytes and is modelled as
    [string]; a [[]byte] is a [list ascii].  [bytes_of] is the conversion
    [[]byte(s)] and [string_of] the conversion [string(b)]. *)

Abbreviation bytes := (list ascii).

Definition bytes_of (s : string) : bytes := list_ascii_of_string s.
Definition string_of (b : bytes) : string := string_of_list_ascii b.

Definition byte_val (c : ascii) : N := N_of_ascii c.
Definition byte_of (n : N) : ascii := ascii_of_N n.

(** Characters that cannot be written inside a literal. *)
Definition dquote : ascii := "034"%char.
Definition bslash : ascii := "092"%char.
Definition newline : ascii := "010"%char.

(** ** unicode/utf8 *)

Module utf8.

Definition RuneError : N := 0xFFFD.
Definition RuneSelf : N := 0x80.
Definition MaxRune : N := 0x10FFFF.
Definition UTFMax : nat := 4.

Definition surrogateMin : N := 0xD800.
Definition surrogateMax : N := 0xDFFF.

Definition tx : N := 0x80.
Definition t2 : N := 0xC0.
Definition t3 : N := 0xE0.
Definition t4 : N := 0xF0.

Definition maskx : N := 0x3F.
Definition mask2 : N := 0x1F.
Definition mask3 : N := 0x0F.
Definition mask4 : N := 0x07.

Definition rune1Max : N := 0x7F.
Definition rune2Max : N := 0x7FF.
Definition rune3Max : N := 0xFFFF.

Definition locb : N := 0x80.
Definition hicb : N := 0xBF.

(** Information about the first byte of an encoding: the low three bits
    are the size, the high four bits index [acceptRanges]. *)
Definition xx : N := 0xF1.
Definition as_ : N := 0xF0.
Definition s1 : N := 0x02.
Definition s2 : N := 0x13.
Definition s3 : N := 0x03.
Definition s4 : N := 0x23.
Definition s5 : N := 0x34.
Definition s6 : N := 0x04.
Definition s7 : N := 0x44.

(** The table [first[256]]. *)
Definition first (b : N) : N :=
  if b <? 0x80 then as_
  else if b <? 0xC2 then xx
  else if b <? 0xE0 then s1
  else if b =? 0xE0 then s2
  else if b <? 0xED then s3
  else if b =? 0xED then s4
  else if b <? 0xF0 then s3
  else if b =? 0xF0 then s5
  else if b <? 0xF4 then s6
  else if b =? 0xF4 then s7
  else xx.

(** The table [acceptRanges[16]], as pairs (lo, hi). *)
Definition acceptRanges (i : N) : N * N :=
  match i with
  | 0 => (locb, hicb)
  | 1 => (0xA0, hicb)
  | 2 => (locb, 0x9F)
  | 3 => (0x90, hicb)
  | 4 => (locb, 0x8F)
  | _ => (0, 0)
  end.

(** [DecodeRune] / [DecodeRuneInString]: the first rune of [s] and its
    width in bytes; (RuneError, 1) for an invalid encoding. *)
Definition DecodeRune (s : bytes) : N * nat :=
  match s with
  | [] => (RuneError, 0%nat)
  | c0 :: t0 =>
    let b0 := byte_val c0 in
    let x := first b0 in
    if as_ <=? x then
      (* mask is all ones exactly when x = xx, whose low bit is set *)
      (if N.testbit x 0 then RuneError else b0, 1%nat)
    else
      let sz := N.to_nat (N.land x 7) in
      let accept := acceptRanges (N.shiftr x 4) in
      if (length s <? sz)%nat then (RuneError, 1%nat)
      else match t0 with
      | [] => (RuneError, 1%nat)
      | c1 :: t1 =>
        let b1 := byte_val c1 in
        if (b1 <? accept.1) || (accept.2 <? b1) then (RuneError, 1%nat)
        else if (sz <=? 2)%nat then
          (N.lor (N.shiftl (N.land b0 mask2) 6) (N.land b1 maskx), 2%nat)
        else match t1 with
        | [] => (RuneError, 1%nat)
        | c2 :: t2 =>
          let b2 := byte_val c2 in
          if (b2 <? locb) || (hicb <? b2) then (RuneError, 1%nat)
          else if (sz <=? 3)%nat then
            (N.lor (N.lor (N.shiftl (N.land b0 mask3) 12)
                          (N.shiftl (N.land b1 maskx) 6))
                   (N.land b2 maskx), 3%nat)
          else match t2 with
          | [] => (RuneError, 1%nat)
          | c3 :: _ =>
            let b3 := byte_val c3 in
            if (b3 <? locb) || (hicb <? b3) then (RuneError, 1%nat)
            else
              (N.lor (N.lor (N.lor (N.shiftl (N.land b0 mask4) 18)
                                   (N.shiftl (N.land b1 maskx) 12))
                            (N.shiftl (N.land b2 maskx) 6))
                     (N.land b3 maskx), 4%nat)
          end
        end
      end
  end.

(** [EncodeRune] / [AppendRune]: the UTF-8 encoding of a rune; runes out
    of range and surrogates are written as the encoding of RuneError.
    [byte_of] keeps the low eight bits, as the conversion [byte(r)]. *)
Definition EncodeRune (r : N) : bytes :=
  if r <=? rune1Max then [byte_of r]
  else if r <=? rune2Max then
    [byte_of (N.lor t2 (N.land (N.shiftr r 6) 0xFF));
     byte_of (N.lor tx (N.land (N.land r 0xFF) maskx))]
  else if (r <? surrogateMin) || ((surrogateMax <? r) && (r <=? rune3Max)) then
    [byte_of (N.lor t3 (N.land (N.shiftr r 12) 0xFF));
     byte_of (N.lor tx (N.land (N.land (N.shiftr r 6) 0xFF) maskx));
     byte_of (N.lor tx (N.land (N.land r 0xFF) maskx))]
  else if (rune3Max <? r) && (r <=? MaxRune) then
    [byte_of (N.lor t4 (N.land (N.shiftr r 18) 0xFF));
     byte_of (N.lor tx (N.land (N.land (N.shiftr r 12) 0xFF) maskx));
     byte_of (N.lor tx (N.land (N.land (N.shiftr r 6) 0xFF) maskx));
     byte_of (N.lor tx (N.land (N.land r 0xFF) maskx))]
  else
    [byte_of 0xEF; byte_of 0xBF; byte_of 0xBD].

(** [ValidString]: no position of [s] decodes to (RuneError, 1).  [skip]
    counts the bytes of the current rune still to step over, the model
    of the index advance [i += size]. *)
Fixpoint Valid_from (skip : nat) (s : bytes) : bool :=
  match s with
  | [] => true
  | _ :: rest =>
    match skip with
    | S k => Valid_from k rest
    | O =>
      let '(r, size) := DecodeRune s in
      if (r =? RuneError) && (size =? 1)%nat then false
      else Valid_from (size - 1) rest
    end
  end.

Definition ValidString (s : string) : bool := Valid_from 0 (bytes_of s).

End utf8.

(** ** Go values

    A Go [map[string]string] is either nil or an allocated table; writing
    to a nil map panics.  An [error] is identified with its message. *)

Abbreviation gomap := (option (gmap string string)).

Definition error := string.

Inductive outcome (A : Type) : Type :=
  | Returns (a : A)
  | Panics (msg : string).
Arguments Returns {A} a.
Arguments Panics {A} msg.

Definition make : gomap := Some ∅.

Definition mapassign (m : gomap) (k v : string) : outcome gomap :=
  match m with
  | Some g => Returns (Some (<[k:=v]> g))
  | None => Panics "assignment to entry in nil map"
  end.

Definition maplen (m : gomap) : nat :=
  match m with
  | Some g => size g
  | None => 0%nat
  end.

Definition mapaccess (m : gomap) (k : string) : option string :=
  match m with
  | Some g => g !! k
  | None => None
  end.

(** ** The crawled record *)

(** Result stores the crawled information from the Linktree page. *)
Record Result := mkResult {
  Links : gomap;
  IconLinks : gomap;
  Title : string;
  ProfileName : string;
  ProfileImg : string
}.

(** The zero value [Result{}]: nil maps and empty strings. *)
Definition Result_zero : Result :=
  mkResult None None EmptyString EmptyString EmptyString.

Definition set_Links (m : gomap) (r : Result) : Result :=
  mkResult m (IconLinks r) (Title r) (ProfileName r) (ProfileImg r).
Definition set_IconLinks (m : gomap) (r : Result) : Result :=
  mkResult (Links r) m (Title r) (ProfileName r) (ProfileImg r).
Definition set_Title (s : string) (r : Result) : Result :=
  mkResult (Links r) (IconLinks r) s (ProfileName r) (ProfileImg r).
Definition set_ProfileName (s : string) (r : Result) : Result :=
  mkResult (Links r) (IconLinks r) (Title r) s (ProfileImg r).
Definition set_ProfileImg (s : string) (r : Result) : Result :=
  mkResult (Links r) (IconLinks r) (Title r) (ProfileName r) s.

(** ** encoding/json: the encoder *)

Module json.

Definition hex : bytes := bytes_of "0123456789abcdef".
Definition hexdigit (n : N) : ascii := nth (N.to_nat n) hex "0"%char.

(** [htmlSafeSet]: the ASCII bytes written without escaping when HTML
    escaping is on, as it is for [Marshal]: 0x20..0x7f apart from the
    double quote (34), & (38), < (60), > (62) and the backslash (92). *)
Definition htmlSafeSet (b : N) : bool :=
  (0x20 <=? b) && (b <? 0x80) &&
  negb ((b =? 34) || (b =? 38) || (b =? 60) || (b =? 62) || (b =? 92)).

(** The escape written for an ASCII byte outside [htmlSafeSet].  The short
    forms for backspace and form feed are those of Go 1.22 and later;
    earlier releases write \u0008 and \u000c, which the decoder reads as
    the same bytes. *)
Definition escape (c : ascii) : bytes :=
  let b := byte_val c in
  if (b =? 92) || (b =? 34) then [bslash; c]
  else if b =? 8 then [bslash; "b"%char]
  else if b =? 12 then [bslash; "f"%char]
  else if b =? 10 then [bslash; "n"%char]
  else if b =? 13 then [bslash; "r"%char]
  else if b =? 9 then [bslash; "t"%char]
  else [bslash; "u"%char; "0"%char; "0"%char;
        hexdigit (N.shiftr b 4); hexdigit (N.land b 0xF)].

(** The loop of [appendString] from index [i] on; [skip] is the number of
    bytes of the rune at hand that the index has still to step over. *)
Fixpoint appendString_from (skip : nat) (src : bytes) : bytes :=
  match src with
  | [] => []
  | c :: rest =>
    match skip with
    | S k => appendString_from k rest
    | O =>
      let b := byte_val c in
      if b <? utf8.RuneSelf then
        (if htmlSafeSet b then [c] else escape c) ++ appendString_from 0 rest
      else
        let '(r, size) := utf8.DecodeRune (firstn utf8.UTFMax src) in
        if (r =? utf8.RuneError) && (size =? 1)%nat then
          bytes_of "\ufffd" ++ appendString_from 0 rest
        else if (r =? 0x2028) || (r =? 0x2029) then
          bytes_of "\u202" ++ hexdigit (N.land r 0xF)
            :: appendString_from (size - 1) rest
        else
          firstn size src ++ appendString_from (size - 1) rest
    end
  end.

(** [appendString(dst, src, escapeHTML = true)]: the JSON string literal
    for [src], coerced to valid UTF-8. *)
Definition appendString (src : string) : bytes :=
  dquote :: appendString_from 0 (bytes_of src) ++ [dquote].

(** Map keys are written in the order of [strings.Compare]. *)
Definition key_le (x y : string * string) : Prop := String.leb x.1 y.1 = true.

#[global] Instance key_le_dec x y : Decision (key_le x y).
Proof. unfold key_le. apply _. Defined.

Definition sortedEntries (g : gmap string string) : list (string * string) :=
  merge_sort key_le (map_to_list g).

Fixpoint encodeEntries (i : nat) (kvs : list (string * string)) : bytes :=
  match kvs with
  | [] => []
  | kv :: rest =>
    (if (0 <? i)%nat then [","%char] else []) ++
    appendString kv.1 ++ ":"%char :: appendString kv.2 ++
    encodeEntries (S i) rest
  end.

(** [mapEncoder.encode]: a nil map is written as null. *)
Definition encodeMap (m : gomap) : bytes :=
  match m with
  | None => bytes_of "null"
  | Some g => "{"%char :: encodeEntries 0 (sortedEntries g) ++ ["}"%char]
  end.

(** The fields of [Result] as the encoder sees them through reflection:
    the name from the [json] tag and the value, in declaration order. *)
Inductive fieldValue :=
  | MapField (m : gomap)
  | StringField (s : string).

Definition fields (v : Result) : list (string * fieldValue) :=
  [ ("links", MapField (Links v));
    ("icon_links", MapField (IconLinks v));
    ("title", StringField (Title v));
    ("profile_name", StringField (ProfileName v));
    ("profile_img", StringField (ProfileImg v)) ].

Definition encodeValue (fv : fieldValue) : bytes :=
  match fv with
  | MapField m => encodeMap m
  | StringField s => appendString s
  end.

(** [structEncoder.encode]. *)
Fixpoint encodeFields (i : nat) (fs : list (string * fieldValue)) : bytes :=
  match fs with
  | [] => []
  | f :: rest =>
    (if (0 <? i)%nat then [","%char] else []) ++
    dquote :: bytes_of f.1 ++ dquote :: ":"%char :: encodeValue f.2 ++
    encodeFields (S i) rest
  end.

(** [Marshal(v)] for a [Result]; it cannot fail on this type. *)
Definition Marshal (v : Result) : bytes :=
  "{"%char :: encodeFields 0 (fields v) ++ ["}"%char].

(** *** Indent

    [appendIndent] walks the compact encoding with the scanner and adds
    the layout.  It is only run on the output of [Marshal], so of the
    scanner the model keeps how it classifies a byte (inside or outside a
    string literal) and leaves out its syntax checking. *)

Inductive scanState := stateValue | stateInString | stateInStringEsc.

Inductive scanCode :=
  | scanContinue | scanBeginLiteral | scanBeginObject | scanObjectKey
  | scanObjectValue | scanEndObject | scanBeginArray | scanEndArray
  | scanSkipSpace.

Definition isSpace (c : ascii) : bool :=
  let b := byte_val c in
  (b =? 32) || (b =? 9) || (b =? 13) || (b =? 10).

Definition eqc (c d : ascii) : bool := Ascii.eqb c d.

Definition step (st : scanState) (c : ascii) : scanState * scanCode :=
  match st with
  | stateInString =>
    if eqc c dquote then (stateValue, scanContinue)
    else if eqc c bslash then (stateInStringEsc, scanContinue)
    else (stateInString, scanContinue)
  | stateInStringEsc => (stateInString, scanContinue)
  | stateValue =>
    if isSpace c then (stateValue, scanSkipSpace)
    else if eqc c dquote then (stateInString, scanBeginLiteral)
    else if eqc c "{" then (stateValue, scanBeginObject)
    else if eqc c "}" then (stateValue, scanEndObject)
    else if eqc c "[" then (stateValue, scanBeginArray)
    else if eqc c "]" then (stateValue, scanEndArray)
    else if eqc c ":" then (stateValue, scanObjectKey)
    else if eqc c "," then (stateValue, scanObjectValue)
    else (stateValue, scanContinue)
  end.

Definition isEnd (v : scanCode) : bool :=
  match v with
  | scanEndObject | scanEndArray => true
  | _ => false
  end.

Fixpoint repeat_bytes (n : nat) (s : bytes) : bytes :=
  match n with
  | O => []
  | S k => s ++ repeat_bytes k s
  end.

Definition appendNewline (prefix indent : bytes) (depth : nat) : bytes :=
  newline :: prefix ++ repeat_bytes depth indent.

Section Indent.
Variables prefix indent : bytes.

Fixpoint indent_loop (st : scanState) (needIndent : bool) (depth : nat)
         (src : bytes) : bytes :=
  match src with
  | [] => []
  | c :: rest =>
    let '(st', v) := step st c in
    match v with
    | scanSkipSpace => indent_loop st' needIndent depth rest
    | _ =>
      let bump := needIndent && negb (isEnd v) in
      let depth := if bump then S depth else depth in
      let needIndent := if bump then false else needIndent in
      (if bump then appendNewline prefix indent depth else []) ++
      match v with
      | scanContinue => c :: indent_loop st' needIndent depth rest
      | _ =>
        if eqc c "{" || eqc c "[" then
          c :: indent_loop st' true depth rest
        else if eqc c "," then
          c :: appendNewline prefix indent depth ++
          indent_loop st' needIndent depth rest
        else if eqc c ":" then
          c :: " "%char :: indent_loop st' needIndent depth rest
        else if eqc c "}" || eqc c "]" then
          if needIndent then c :: indent_loop st' false depth rest
          else appendNewline prefix indent (depth - 1) ++
               c :: indent_loop st' needIndent (depth - 1) rest
        else
          c :: indent_loop st' needIndent depth rest
      end
    end
  end.

Definition Indent (src : bytes) : bytes :=
  indent_loop stateValue false 0 src.
End Indent.

(** [MarshalIndent(v, prefix, indent)]: the encoding and the error, which
    is always nil for a [Result]. *)
Definition MarshalIndent (v : Result) (prefix indent : string)
  : bytes * option error :=
  (Indent (bytes_of prefix) (bytes_of indent) (Marshal v), None).

(** *** The decoder

    [Unmarshal(data, &v)] for a [Result].  Nothing in the program calls
    it; it is the inverse the encoder is measured against.  The model is
    directed by the type of the target as Go's decoder is: an object whose
    keys select fields by their [json] tag, maps from objects or null,
    strings from string literals or null.  It answers [None] where
    [Unmarshal] reports an error, and also on input outside this
    fragment: numbers, arrays and booleans, and keys that are not one of
    the five tags as written (Go skips unknown keys and also matches a tag
    without regard to case).  The encoder writes none of these for a
    [Result]. *)

Definition replacementChar : N := 0xFFFD.
Definition surr1 : N := 0xd800.
Definition surr2 : N := 0xdc00.
Definition surr3 : N := 0xe000.
Definition surrSelf : N := 0x10000.

(** [utf16.IsSurrogate]. *)
Definition utf16_IsSurrogate (r : N) : bool := (surr1 <=? r) && (r <? surr3).

(** [utf16.DecodeRune(r1, r2)]; [r2] is [None] where [getu4] gave -1. *)
Definition utf16_DecodeRune (r1 : N) (r2 : option N) : N :=
  match r2 with
  | Some r2 =>
    if (surr1 <=? r1) && (r1 <? surr2) && (surr2 <=? r2) && (r2 <? surr3)
    then N.lor (N.shiftl (r1 - surr1) 10) (r2 - surr2) + surrSelf
    else replacementChar
  | None => replacementChar
  end.

Definition hexval (c : ascii) : option N :=
  let b := byte_val c in
  if (48 <=? b) && (b <=? 57) then Some (b - 48)
  else if (97 <=? b) && (b <=? 102) then Some (b - 97 + 10)
  else if (65 <=? b) && (b <=? 70) then Some (b - 65 + 10)
  else None.

(** [getu4]: the rune of a leading \uXXXX escape. *)
Definition getu4 (s : bytes) : option N :=
  match s with
  | c0 :: c1 :: h0 :: h1 :: h2 :: h3 :: _ =>
    if eqc c0 bslash && eqc c1 "u" then
      match hexval h0, hexval h1, hexval h2, hexval h3 with
      | Some a, Some b, Some c, Some d => Some (((a * 16 + b) * 16 + c) * 16 + d)
      | _, _, _, _ => None
      end
    else None
  | _ => None
  end.

(** The byte a two-character escape stands for. *)
Definition simpleEscape (c : ascii) : option ascii :=
  if eqc c dquote || eqc c bslash || eqc c "/" then Some c
  else if eqc c "b" then Some (byte_of 8)
  else if eqc c "f" then Some (byte_of 12)
  else if eqc c "n" then Some (byte_of 10)
  else if eqc c "r" then Some (byte_of 13)
  else if eqc c "t" then Some (byte_of 9)
  else None.

Definition emitted (out : bytes) (r : option (bytes * bytes)) : option (bytes * bytes) :=
  match r with
  | Some (decoded, rest) => Some (out ++ decoded, rest)
  | None => None
  end.

(** The string literal whose opening quote has been read: its value
    ([unquoteBytes]) and the input after its closing quote.  [skip] is as
    in [appendString_from]. *)
Fixpoint unquote_from (skip : nat) (s : bytes) : option (bytes * bytes) :=
  match s with
  | [] => None
  | c :: rest =>
    match skip with
    | S k => unquote_from k rest
    | O =>
      if eqc c dquote then Some ([], rest)
      else if eqc c bslash then
        match rest with
        | [] => None
        | e :: _ =>
          if eqc e "u" then
            match getu4 s with
            | None => None
            | Some rr =>
              if utf16_IsSurrogate rr then
                let dec := utf16_DecodeRune rr (getu4 (skipn 6 s)) in
                if negb (dec =? replacementChar) then
                  emitted (utf8.EncodeRune dec) (unquote_from 11 rest)
                else
                  emitted (utf8.EncodeRune replacementChar) (unquote_from 5 rest)
              else emitted (utf8.EncodeRune rr) (unquote_from 5 rest)
            end
          else
            match simpleEscape e with
            | Some b => emitted [b] (unquote_from 1 rest)
            | None => None
            end
        end
      else if byte_val c <? 32 then None
      else if byte_val c <? utf8.RuneSelf then emitted [c] (unquote_from 0 rest)
      else
        let '(rr, size) := utf8.DecodeRune s in
        emitted (utf8.EncodeRune rr) (unquote_from (size - 1) rest)
    end
  end.

Fixpoint skipSpace (s : bytes) : bytes :=
  match s with
  | [] => []
  | c :: rest => if isSpace c then skipSpace rest else s
  end.

(** The literal null at the head of the input. *)
Definition literal_null (s : bytes) : option bytes :=
  match s with
  | c0 :: c1 :: c2 :: c3 :: rest =>
    if eqc c0 "n" && eqc c1 "u" && eqc c2 "l" && eqc c3 "l" then Some rest
    else None
  | _ => None
  end.

(** A value stored into a string: a string literal sets it, null leaves
    it as it is. *)
Definition decodeString (old : string) (s : bytes) : option (string * bytes) :=
  match s with
  | [] => None
  | c :: rest =>
    if eqc c dquote then
      match unquote_from 0 rest with
      | Some (decoded, rest') => Some (string_of decoded, rest')
      | None => None
      end
    else
      match literal_null s with
      | Some rest' => Some (old, rest')
      | None => None
      end
  end.

(** The members of an object stored into a map, from the opening quote
    of a key to the closing brace; a later key overwrites an earlier
    one.  [fuel] bounds the number of members. *)
Fixpoint decodeMapMembers (fuel : nat) (g : gmap string string) (s : bytes)
  : option (gmap string string * bytes) :=
  match fuel with
  | O => None
  | S fuel =>
    match s with
    | [] => None
    | c :: rest =>
      if eqc c dquote then
        match unquote_from 0 rest with
        | None => None
        | Some (key, s1) =>
          match skipSpace s1 with
          | [] => None
          | c1 :: s2 =>
            if eqc c1 ":" then
              match decodeString EmptyString (skipSpace s2) with
              | None => None
              | Some (elem, s3) =>
                let g := <[string_of key := elem]> g in
                match skipSpace s3 with
                | [] => None
                | c2 :: s4 =>
                  if eqc c2 "}" then Some (g, s4)
                  else if eqc c2 "," then decodeMapMembers fuel g (skipSpace s4)
                  else None
                end
              end
            else None
          end
        end
      else None
    end
  end.

(** A value stored into a map: null makes it nil, an object fills the
    map, which is allocated when it was nil. *)
Definition decodeMap (fuel : nat) (old : gomap) (s : bytes) : option (gomap * bytes) :=
  match s with
  | [] => None
  | c :: rest =>
    if eqc c "{" then
      let g := default ∅ old in
      match skipSpace rest with
      | [] => None
      | c1 :: s1 =>
        if eqc c1 "}" then Some (Some g, s1)
        else
          match decodeMapMembers fuel g (c1 :: s1) with
          | Some (g, s2) => Some (Some g, s2)
          | None => None
          end
      end
    else
      match literal_null s with
      | Some rest' => Some (None, rest')
      | None => None
      end
  end.

(** The value of the member named [key], stored into its field. *)
Definition decodeField (fuel : nat) (key : string) (v : Result) (s : bytes)
  : option (Result * bytes) :=
  if String.eqb key "links" then
    match decodeMap fuel (Links v) s with
    | Some (m, rest) => Some (set_Links m v, rest)
    | None => None
    end
  else if String.eqb key "icon_links" then
    match decodeMap fuel (IconLinks v) s with
    | Some (m, rest) => Some (set_IconLinks m v, rest)
    | None => None
    end
  else if String.eqb key "title" then
    match decodeString (Title v) s with
    | Some (x, rest) => Some (set_Title x v, rest)
    | None => None
    end
  else if String.eqb key "profile_name" then
    match decodeString (ProfileName v) s with
    | Some (x, rest) => Some (set_ProfileName x v, rest)
    | None => None
    end
  else if String.eqb key "profile_img" then
    match decodeString (ProfileImg v) s with
    | Some (x, rest) => Some (set_ProfileImg x v, rest)
    | None => None
    end
  else None.

(** The members of the object stored into the struct. *)
Fixpoint decodeStructMembers (fuel : nat) (v : Result) (s : bytes)
  : option (Result * bytes) :=
  match fuel with
  | O => None
  | S fuel =>
    match s with
    | [] => None
    | c :: rest =>
      if eqc c dquote then
        match unquote_from 0 rest with
        | None => None
        | Some (key, s1) =>
          match skipSpace s1 with
          | [] => None
          | c1 :: s2 =>
            if eqc c1 ":" then
              match decodeField fuel (string_of key) v (skipSpace s2) with
              | None => None
              | Some (v, s3) =>
                match skipSpace s3 with
                | [] => None
                | c2 :: s4 =>
                  if eqc c2 "}" then Some (v, s4)
                  else if eqc c2 "," then decodeStructMembers fuel v (skipSpace s4)
                  else None
                end
              end
            else None
          end
        end
      else None
    end
  end.

(** After the top-level value only white space may follow. *)
Definition atEnd (v : Result) (s : bytes) : option Result :=
  match skipSpace s with
  | [] => Some v
  | _ :: _ => None
  end.

Definition Unmarshal (data : bytes) (v : Result) : option Result :=
  let fuel := length data in
  match skipSpace data with
  | [] => None
  | c :: rest =>
    if eqc c "{" then
      match skipSpace rest with
      | [] => None
      | c1 :: s1 =>
        if eqc c1 "}" then atEnd v s1
        else
          match decodeStructMembers fuel v (c1 :: s1) with
          | Some (v, s2) => atEnd v s2
          | None => None
          end
      end
    else
      match literal_null (c :: rest) with
      | Some rest' => atEnd v rest'
      | None => None
      end
  end.

(** Decoding into a fresh variable: [var r Result; Unmarshal(data, &r)]. *)
Definition deserialize (data : bytes) : option Result :=
  Unmarshal data Result_zero.

(** Encoding as [saveResultToFile] asks for it. *)
Definition serialize (v : Result) : bytes :=
  (MarshalIndent v EmptyString "  ").1.

End json.

(** ** The environment the program runs against

    The HTML parser and selector engine are a capability: an element
    exposes its text, its attributes and the results of the selector
    queries made below it; a document answers a selector with the matching
    elements in document order. *)

Record HTMLElement := mkElement {
  Text : string;
  attributes : list (string * string);
  ChildText : string -> string;
  ChildAttr : string -> string -> string
}.

(** [e.Attr(k)]: the value of the first attribute named [k], or the empty
    string. *)
Fixpoint attr_lookup (attrs : list (string * string)) (k : string) : string :=
  match attrs with
  | [] => EmptyString
  | a :: rest => if String.eqb a.1 k then a.2 else attr_lookup rest k
  end.

Definition Attr (e : HTMLElement) (k : string) : string :=
  attr_lookup (attributes e) k.

Definition Document := string -> list HTMLElement.

(** What [collector.Visit] meets: a refusal before any request is made, a
    request that fails, or a fetched and parsed page. *)
Inductive VisitResult :=
  | VisitRejected (err : error)
  | VisitFailed (err : error)
  | VisitFetched (doc : Document).

(** An HTTP response: the status code, the bytes the body delivers and the
    error, if any, that ends the body instead of EOF. *)
Record Response := mkResponse {
  StatusCode : Z;
  Body : bytes;
  BodyErr : option error
}.

Record Env := mkEnv {
  colly_fetch : string -> VisitResult;
  (** [u.String()] of the URL that [url.Parse] makes of a link: the link
      with its path and query escaped anew ([Visit] refuses a link that
      does not parse before any callback runs) *)
  url_String : string -> string;
  http_Get : string -> error + Response;
  filepath_Join : string -> string -> string;
  (** creating or truncating the file at this path fails *)
  os_open_error : string -> option error;
  (** writing to the file at this path fails once [n] bytes are written *)
  os_write_limit : string -> option (nat * error)
}.

(** The world: the files and the sequence of effects performed so far. *)
Inductive event :=
  | EvStdout (text : string)
  | EvStderr (text : string)
  | EvRequest (url : string)
  | EvHttpGet (url : string)
  | EvOpen (path : string)
  | EvWrite (path : string) (data : bytes).

Record World := mkWorld {
  fs : gmap string bytes;
  trace : list event
}.

(** ** The monad of the program: a world transformer that may panic *)

Definition IO (A : Type) : Type := World -> outcome A * World.

Definition ret {A} (a : A) : IO A := fun w => (Returns a, w).

Definition bind {A B} (m : IO A) (k : A -> IO B) : IO B :=
  fun w =>
    match m w with
    | (Returns a, w') => k a w'
    | (Panics msg, w') => (Panics msg, w')
    end.

Notation "'let*' x ':=' m 'in' k" := (bind m (fun x => k))
  (at level 10, x name, m at level 100, k at level 200).
Notation "'let*' ' pat ':=' m 'in' k" :=
  (bind m (fun x => match x with pat => k end))
  (at level 10, pat pattern, m at level 100, k at level 200).

Definition lift {A} (o : outcome A) : IO A := fun w => (o, w).

Definition emit (e : event) : IO unit :=
  fun w => (Returns tt, mkWorld (fs w) (trace w ++ [e])).

Definition nl : string := String newline EmptyString.

(** [fmt.Println] of operands already joined by spaces. *)
Definition Println (s : string) : IO unit := emit (EvStdout (s +:+ nl)).

(** [fmt.Fprintf(os.Stderr, ...)] of the formatted text. *)
Definition Fprintf_Stderr (s : string) : IO unit := emit (EvStderr s).

Definition nonempty (s : string) : bool := negb (String.eqb s EmptyString).

(** ** colly *)

(** A request as its callbacks see it: [URL_String r] is [r.URL.String()],
    the parsed URL of the request printed again. *)
Record Request := mkRequest {
  URL_String : string
}.

Record Collector (S : Type) := mkCollector {
  htmlCallbacks : list (string * (HTMLElement -> S -> outcome S));
  requestCallbacks : list (Request -> IO unit)
}.
Arguments mkCollector {S} _ _.
Arguments htmlCallbacks {S} _.
Arguments requestCallbacks {S} _.

Definition NewCollector {S} : Collector S := mkCollector [] [].

Definition OnHTML {S} (c : Collector S) (goquerySelector : string)
           (f : HTMLElement -> S -> outcome S) : Collector S :=
  mkCollector (htmlCallbacks c ++ [(goquerySelector, f)]) (requestCallbacks c).

Definition OnRequest {S} (c : Collector S) (f : Request -> IO unit) : Collector S :=
  mkCollector (htmlCallbacks c) (requestCallbacks c ++ [f]).

(** One callback over the matches of its selector, in document order. *)
Fixpoint each {S} (f : HTMLElement -> S -> outcome S)
         (matches : list HTMLElement) (s : S) : outcome S :=
  match matches with
  | [] => Returns s
  | e :: rest =>
    match f e s with
    | Returns s' => each f rest s'
    | Panics msg => Panics msg
    end
  end.

(** [handleOnHTML]: the callbacks in the order they were registered. *)
Fixpoint handleOnHTML {S} (cbs : list (string * (HTMLElement -> S -> outcome S)))
         (doc : Document) (s : S) : outcome S :=
  match cbs with
  | [] => Returns s
  | cb :: rest =>
    match each cb.2 (doc cb.1) s with
    | Returns s' => handleOnHTML rest doc s'
    | Panics msg => Panics msg
    end
  end.

Fixpoint handleOnRequest (cbs : list (Request -> IO unit)) (r : Request) : IO unit :=
  match cbs with
  | [] => ret tt
  | f :: rest => let* _ := f r in handleOnRequest rest r
  end.

Section Program.
Variable env : Env.

(** [collector.Visit(URL)]; [s] is the state the callbacks close over.
    The request callbacks receive the request, whose URL is the parsed
    one. *)
Definition Visit {S} (c : Collector S) (URL : string) (s : S)
  : IO (S * option error) :=
  let request := mkRequest (url_String env URL) in
  match colly_fetch env URL with
  | VisitRejected err => ret (s, Some err)
  | VisitFailed err =>
    let* _ := handleOnRequest (requestCallbacks c) request in
    let* _ := emit (EvRequest URL) in
    ret (s, Some err)
  | VisitFetched doc =>
    let* _ := handleOnRequest (requestCallbacks c) request in
    let* _ := emit (EvRequest URL) in
    let* s' := lift (handleOnHTML (htmlCallbacks c) doc s) in
    ret (s', None)
  end.

(** ** os, io, net/http *)

(** Open [name] for writing, creating or truncating it. *)
Definition os_Create (name : string) : IO (option error) :=
  fun w =>
    let w := mkWorld (fs w) (trace w ++ [EvOpen name]) in
    match os_open_error env name with
    | Some err => (Returns (Some err), w)
    | None => (Returns None, mkWorld (<[name := []]> (fs w)) (trace w))
    end.

(** Append [data] to the open file [name]. *)
Definition file_Write (name : string) (data : bytes) : IO (option error) :=
  fun w =>
    let old := default [] (fs w !! name) in
    match os_write_limit env name with
    | Some (n, err) =>
      if (n <? length data)%nat then
        (Returns (Some err),
         mkWorld (<[name := old ++ firstn n data]> (fs w))
                 (trace w ++ [EvWrite name (firstn n data)]))
      else
        (Returns None,
         mkWorld (<[name := old ++ data]> (fs w))
                 (trace w ++ [EvWrite name data]))
    | None =>
      (Returns None,
       mkWorld (<[name := old ++ data]> (fs w))
               (trace w ++ [EvWrite name data]))
    end.

Definition os_WriteFile (name : string) (data : bytes) : IO (option error) :=
  let* err := os_Create name in
  match err with
  | Some err => ret (Some err)
  | None => file_Write name data
  end.

(** [io.Copy(file, response.Body)]. *)
Definition io_Copy (name : string) (response : Response) : IO (option error) :=
  let* err := file_Write name (Body response) in
  match err with
  | Some err => ret (Some err)
  | None => ret (BodyErr response)
  end.

Definition http_get (url : string) : IO (error + Response) :=
  let* _ := emit (EvHttpGet url) in
  ret (http_Get env url).

(** ** The program *)

Definition onTitle (e : HTMLElement) (result : Result) : outcome Result :=
  Returns (set_Title (Text e) result).

Definition onLinkButton (e : HTMLElement) (result : Result) : outcome Result :=
  let linkText := ChildText e "div > p" in
  let href := Attr e "href" in
  if nonempty linkText && nonempty href then
    match mapassign (Links result) linkText href with
    | Returns m => Returns (set_Links m result)
    | Panics msg => Panics msg
    end
  else Returns result.

Definition onSocialIcon (e : HTMLElement) (result : Result) : outcome Result :=
  let iconName := ChildAttr e "title" "title" in
  let href := Attr e "href" in
  if nonempty iconName && nonempty href then
    match mapassign (IconLinks result) iconName href with
    | Returns m => Returns (set_IconLinks m result)
    | Panics msg => Panics msg
    end
  else Returns result.

Definition onProfileTitle (e : HTMLElement) (result : Result) : outcome Result :=
  Returns (set_ProfileName (Text e) result).

Definition onProfileImage (e : HTMLElement) (result : Result) : outcome Result :=
  let imgSrc := Attr e "src" in
  if nonempty imgSrc then Returns (set_ProfileImg imgSrc result)
  else Returns result.

Definition sel_title : string := "head > title".
Definition sel_LinkButton : string := "a[data-testid='LinkButton']".
Definition sel_SocialIcon : string := "a[data-testid='SocialIcon']".
Definition sel_profile_title : string := "div[id='profile-title']".
Definition sel_ProfileImage : string :=
  "img[data-testid=" +:+ String dquote "ProfileImage" +:+ String dquote "]".

(** The record and the collector as they stand when [Visit] is called. *)
Definition initial_result : Result :=
  set_IconLinks make (set_Links make Result_zero).

Definition collector : Collector Result :=
  let c := NewCollector in
  let c := OnHTML c sel_title onTitle in
  let c := OnHTML c sel_LinkButton onLinkButton in
  let c := OnHTML c sel_SocialIcon onSocialIcon in
  let c := OnHTML c sel_profile_title onProfileTitle in
  let c := OnHTML c sel_ProfileImage onProfileImage in
  OnRequest c (fun r => Println ("Visiting: " +:+ URL_String r)).

(** crawlLinktreeProfile crawls the specified Linktree profile and
    returns the extracted result. *)
Definition crawlLinktreeProfile (link : string) : IO (Result * option error) :=
  let* '(result, err) := Visit collector link initial_result in
  match err with
  | Some err =>
    ret (Result_zero, Some ("failed to visit " +:+ link +:+ ": " +:+ err))
  | None =>
    if String.eqb (Title result) EmptyString
       || String.eqb (ProfileName result) EmptyString
    then ret (Result_zero,
              Some "failed to extract required profile information")
    else ret (result, None)
  end.

(** saveResultToFile saves the crawled result to a JSON file. *)
Definition saveResultToFile (result : Result) (fileName : string)
  : IO (option error) :=
  let outputPath := filepath_Join env "." fileName in
  let '(jsonData, err) := json.MarshalIndent result EmptyString "  " in
  match err with
  | Some err => ret (Some ("error marshalling result to JSON: " +:+ err))
  | None =>
    let* err := os_WriteFile outputPath jsonData in
    match err with
    | Some err => ret (Some ("error writing result to file: " +:+ err))
    | None =>
      let* _ := Println ("Data successfully saved to " +:+ outputPath) in
      ret None
    end
  end.

(** downloadProfileImage downloads the profile image from the provided
    URL and saves it locally. *)
Definition downloadProfileImage (imgURL fileName : string) : IO (option error) :=
  let* got := http_get imgURL in
  match got with
  | inl err =>
    ret (Some ("failed to download image from " +:+ imgURL +:+ ": " +:+ err))
  | inr response =>
    if negb (StatusCode response =? 200)%Z then
      ret (Some ("failed to download image, status code: "
                 +:+ pretty (StatusCode response)))
    else
      let* err := os_Create fileName in
      match err with
      | Some err =>
        ret (Some ("failed to create file " +:+ fileName +:+ ": " +:+ err))
      | None =>
        let* err := io_Copy fileName response in
        match err with
        | Some err => ret (Some ("failed to save image to file: " +:+ err))
        | None =>
          let* _ := Println ("Profile image successfully saved as " +:+ fileName) in
          ret None
        end
      end
  end.

(** [main], run with [os.Args = args]. *)
Definition main (args : list string) : IO unit :=
  if (length args <? 2)%nat then
    Println "Usage: go run main.go [profile_name]"
  else
    let profileName := nth 1 args EmptyString in
    let link := "https://linktr.ee/" +:+ profileName in
    let* '(result, err) := crawlLinktreeProfile link in
    match err with
    | Some err => Fprintf_Stderr ("Error during crawling: " +:+ err +:+ nl)
    | None =>
      let* err := saveResultToFile result (ProfileName result +:+ ".json") in
      match err with
      | Some err => Fprintf_Stderr ("Failed to save result: " +:+ err +:+ nl)
      | None =>
        if nonempty (ProfileImg result) then
          let* err := downloadProfileImage (ProfileImg result) (profileName +:+ ".jpg") in
          match err with
          | Some err =>
            Fprintf_Stderr ("Failed to download profile image: " +:+ err +:+ nl)
          | None => ret tt
          end
        else ret tt
      end
    end.

End Program.

Import utf8 json.

#[global] Instance Result_eq_dec : EqDecision Result.
Proof. solve_decision. Defined.

(** ** What the extraction computes, stated on the document

    [extract] is the run of the registered callbacks over a fetched page,
    from the record as [crawlLinktreeProfile] initialises it.  The
    functions after it describe its result field by field. *)

Definition extract (doc : Document) : outcome Result :=
  handleOnHTML (htmlCallbacks collector) doc initial_result.

(** A record whose two maps are allocated. *)
Definition initialized (r : Result) : Prop :=
  is_Some (Links r) ∧ is_Some (IconLinks r).

Definition linkLabel (e : HTMLElement) : string := ChildText e "div > p".
Definition iconLabel (e : HTMLElement) : string := ChildAttr e "title" "title".
Definition href (e : HTMLElement) : string := Attr e "href".

(** A node that the link rule, or the icon rule, writes an entry for. *)
Definition writes (label : HTMLElement -> string) (e : HTMLElement) : bool :=
  nonempty (label e) && nonempty (href e).

Definition entries_after (label : HTMLElement -> string)
           (matches : list HTMLElement) (g : gmap string string)
  : gmap string string :=
  fold_left (fun g e => if writes label e then <[label e := href e]> g else g)
            matches g.

(** The href of the last of [matches] that writes under the label [k], or
    [old] when none does. *)
Definition last_write (label : HTMLElement -> string) (k : string)
           (matches : list HTMLElement) (old : string) : string :=
  fold_left (fun s e => if String.eqb (label e) k && writes label e
                        then href e else s)
            matches old.

(** The text of the last match, or [old] when there is none. *)
Definition last_text (matches : list HTMLElement) (old : string) : string :=
  fold_left (fun _ e => Text e) matches old.

(** The [src] of the last match that has a non-empty one, or [old]. *)
Definition last_src (matches : list HTMLElement) (old : string) : string :=
  fold_left (fun s e => if nonempty (Attr e "src") then Attr e "src" else s)
            matches old.

Definition validation_error : error :=
  "failed to extract required profile information".

(** The paths opened for writing and the URLs fetched with [http.Get], in
    the order of a trace. *)
Fixpoint opened (t : list event) : list string :=
  match t with
  | [] => []
  | EvOpen p :: rest => p :: opened rest
  | _ :: rest => opened rest
  end.

Fixpoint downloads (t : list event) : list string :=
  match t with
  | [] => []
  | EvHttpGet u :: rest => u :: downloads rest
  | _ :: rest => downloads rest
  end.

Fixpoint reported (t : list event) : list string :=
  match t with
  | [] => []
  | EvStderr s :: rest => s :: reported rest
  | _ :: rest => reported rest
  end.

(** The pages requested by the collector, in the order of a trace. *)
Fixpoint requested (t : list event) : list string :=
  match t with
  | [] => []
  | EvRequest u :: rest => u :: requested rest
  | _ :: rest => requested rest
  end.

(** The lines written to standard output. *)
Fixpoint printed (t : list event) : list string :=
  match t with
  | [] => []
  | EvStdout s :: rest => s :: printed rest
  | _ :: rest => printed rest
  end.

Definition profile_link (ident : string) : string :=
  "https://linktr.ee/" +:+ ident.

(** The world once the request for [link] has been announced, by its URL
    as parsed and printed again, and made. *)
Definition visited (env : Env) (link : string) (w : World) : World :=
  mkWorld (fs w)
          (trace w ++ [EvStdout (("Visiting: " +:+ url_String env link) +:+ nl);
                       EvRequest link]).

Definition visit_error (link : string) (err : error) : error :=
  "failed to visit " +:+ link +:+ ": " +:+ err.

(** The outcome of validating an extracted record. *)
Definition validated (r : Result) : Result * option error :=
  if String.eqb (Title r) EmptyString || String.eqb (ProfileName r) EmptyString
  then (Result_zero, Some validation_error)
  else (r, None).

(** ** Well-formed UTF-8 and the layout of the encoder's output *)

Definition all_bytes : list ascii := map ascii_of_nat (seq 0 256).

Definition lead (c0 : ascii) : bool := negb (as_ <=? first (byte_val c0)).
Definition size_of (c0 : ascii) : nat := N.to_nat (N.land (first (byte_val c0)) 7).
Definition accepts (c0 c1 : ascii) : bool :=
  let accept := acceptRanges (N.shiftr (first (byte_val c0)) 4) in
  negb ((byte_val c1 <? accept.1) || (accept.2 <? byte_val c1)).
Definition cont (c : ascii) : bool :=
  negb ((byte_val c <? locb) || (hicb <? byte_val c)).
Definition high (c : ascii) : bool := 0x80 <=? byte_val c.

Definition rune2 (c0 c1 : ascii) : N :=
  N.lor (N.shiftl (N.land (byte_val c0) mask2) 6) (N.land (byte_val c1) maskx).
Definition rune3 (c0 c1 c2 : ascii) : N :=
  N.lor (N.lor (N.shiftl (N.land (byte_val c0) mask3) 12)
               (N.shiftl (N.land (byte_val c1) maskx) 6))
        (N.land (byte_val c2) maskx).
Definition rune4 (c0 c1 c2 c3 : ascii) : N :=
  N.lor (N.lor (N.lor (N.shiftl (N.land (byte_val c0) mask4) 18)
                      (N.shiftl (N.land (byte_val c1) maskx) 12))
               (N.shiftl (N.land (byte_val c2) maskx) 6))
        (N.land (byte_val c3) maskx).

Fixpoint eqbs (a b : bytes) : bool :=
  match a, b with
  | [], [] => true
  | x :: a', y :: b' => Ascii.eqb x y && eqbs a' b'
  | _, _ => false
  end.

Definition ok2 (c0 c1 : ascii) : bool :=
  eqbs (EncodeRune (rune2 c0 c1)) [c0; c1] && high c0 && high c1.
Definition ok3 (c0 c1 c2 : ascii) : bool :=
  eqbs (EncodeRune (rune3 c0 c1 c2)) [c0; c1; c2] && high c0 && high c1 && high c2.
Definition ok4 (c0 c1 c2 c3 : ascii) : bool :=
  eqbs (EncodeRune (rune4 c0 c1 c2 c3)) [c0; c1; c2; c3]
  && high c0 && high c1 && high c2 && high c3.

(** A multi-byte encoding and the rune it stands for. *)
Inductive rune_chunk : bytes -> N -> Prop :=
  | chunk2 c0 c1 :
      lead c0 = true -> (size_of c0 <=? 2)%nat = true -> accepts c0 c1 = true ->
      rune_chunk [c0; c1] (rune2 c0 c1)
  | chunk3 c0 c1 c2 :
      lead c0 = true -> (size_of c0 <=? 2)%nat = false ->
      (size_of c0 <=? 3)%nat = true -> accepts c0 c1 = true -> cont c2 = true ->
      rune_chunk [c0; c1; c2] (rune3 c0 c1 c2)
  | chunk4 c0 c1 c2 c3 :
      lead c0 = true -> (size_of c0 <=? 3)%nat = false ->
      accepts c0 c1 = true -> cont c2 = true -> cont c3 = true ->
      rune_chunk [c0; c1; c2; c3] (rune4 c0 c1 c2 c3).

(** Well-formed UTF-8: ASCII bytes and multi-byte encodings. *)
Inductive valid_bytes : bytes -> Prop :=
  | valid_nil : valid_bytes []
  | valid_ascii c t :
      (byte_val c <? 0x80) = true -> valid_bytes t -> valid_bytes (c :: t)
  | valid_chunk chunk r t :
      rune_chunk chunk r -> valid_bytes t -> valid_bytes (chunk ++ t).

(** A byte that neither ends a string literal nor starts an escape. *)
Definition plain (c : ascii) : bool := negb (eqc c dquote) && negb (eqc c bslash).

(** What [appendString] writes for a multi-byte rune. *)
Definition encoded_chunk (chunk : bytes) (r : N) : bytes :=
  if (r =? 0x2028) || (r =? 0x2029)
  then bytes_of "\u202" ++ [hexdigit (N.land r 0xF)]
  else chunk.

Section Layout.
Variables prefix indent : bytes.

Definition layoutEntry (kv : string * string) : bytes :=
  appendString kv.1 ++ ":"%char :: " "%char :: appendString kv.2.

Fixpoint layoutEntries (d : nat) (kvs : list (string * string)) : bytes :=
  match kvs with
  | [] => []
  | kv :: rest =>
    layoutEntry kv ++
    match rest with
    | [] => []
    | _ :: _ => ","%char :: appendNewline prefix indent d ++ layoutEntries d rest
    end
  end.

Definition layoutMap (d : nat) (m : gomap) : bytes :=
  match m with
  | None => bytes_of "null"
  | Some g =>
    match sortedEntries g with
    | [] => bytes_of "{}"
    | kvs =>
      "{"%char :: appendNewline prefix indent (S d) ++ layoutEntries (S d) kvs
      ++ appendNewline prefix indent d ++ ["}"%char]
    end
  end.

Definition layoutValue (d : nat) (fv : fieldValue) : bytes :=
  match fv with
  | MapField m => layoutMap d m
  | StringField s => appendString s
  end.

Definition layoutMember (d : nat) (f : string * fieldValue) : bytes :=
  dquote :: bytes_of f.1 ++ dquote :: ":"%char :: " "%char :: layoutValue d f.2.

Fixpoint layoutMembers (d : nat) (fs : list (string * fieldValue)) : bytes :=
  match fs with
  | [] => []
  | f :: rest =>
    layoutMember d f ++
    match rest with
    | [] => []
    | _ :: _ => ","%char :: appendNewline prefix indent d ++ layoutMembers d rest
    end
  end.

(** The pretty-printed object with the given members, in their order. *)
Definition layoutObject (fs : list (string * fieldValue)) : bytes :=
  match fs with
  | [] => bytes_of "{}"
  | _ :: _ =>
    "{"%char :: appendNewline prefix indent 1 ++ layoutMembers 1 fs
    ++ appendNewline prefix indent 0 ++ ["}"%char]
  end.
End Layout.


(** Bytes that the indenter copies when it is inside a string literal. *)
Definition passes (prefix indent : bytes) (b : bytes) : Prop :=
  forall d X, indent_loop prefix indent stateInString false d (b ++ X)
              = b ++ indent_loop prefix indent stateInString false d X.

Definition plain_names (fs : list (string * fieldValue)) : Prop :=
  Forall (fun f => Forall (fun c => plain c = true) (bytes_of f.1)) fs.

Definition indent2 : bytes := bytes_of "  ".


Definition valid_entry (kv : string * string) : bool :=
  ValidString kv.1 && ValidString kv.2.

Definition valid_map (m : gomap) : bool :=
  match m with
  | None => true
  | Some g => forallb valid_entry (map_to_list g)
  end.

(** Every string of the record is well-formed UTF-8. *)
Definition valid_record (r : Result) : bool :=
  ValidString (Title r) && ValidString (ProfileName r)
  && ValidString (ProfileImg r) && valid_map (Links r) && valid_map (IconLinks r).

Definition store (g : gmap string string) (kv : string * string)
  : gmap string string := <[kv.1 := kv.2]> g.


(** One write of a whole file. *)
Definition put (m : gmap string bytes) (f : string * bytes) : gmap string bytes :=
  <[f.1 := f.2]> m.

(** ** What a record becomes on the way through the encoder

    [appendString] writes a byte that does not decode as the escape of
    U+FFFD.  [coerce_from] is the loop of [appendString_from] with the
    bytes kept as they are and the encoding of U+FFFD in place of such a
    byte. *)
Fixpoint coerce_from (skip : nat) (src : bytes) : bytes :=
  match src with
  | [] => []
  | c :: rest =>
    match skip with
    | S k => coerce_from k rest
    | O =>
      if byte_val c <? RuneSelf then c :: coerce_from 0 rest
      else
        let '(r, size) := DecodeRune (firstn UTFMax src) in
        if (r =? RuneError) && (size =? 1)%nat
        then EncodeRune RuneError ++ coerce_from 0 rest
        else firstn size src ++ coerce_from (size - 1) rest
    end
  end.

Definition coerce (s : string) : string := string_of (coerce_from 0 (bytes_of s)).

Definition coerce_entry (kv : string * string) : string * string :=
  (coerce kv.1, coerce kv.2).

(** The entries are stored in the order of the encoder; of two keys that
    become the same, the later wins. *)
Definition coerce_map (m : gomap) : gomap :=
  match m with
  | None => None
  | Some g => Some (fold_left store (map coerce_entry (sortedEntries g)) ∅)
  end.

Definition coerce_record (r : Result) : Result :=
  mkResult (coerce_map (Links r)) (coerce_map (IconLinks r))
           (coerce (Title r)) (coerce (ProfileName r)) (coerce (ProfileImg r)).

(** A byte that may stand in a file embedded in HTML: not <, > or &, and
    no control character apart from the line feed of the layout. *)
Definition html_safe (c : ascii) : bool :=
  negb (eqc c "<") && negb (eqc c ">") && negb (eqc c "&")
  && ((0x20 <=? byte_val c) || eqc c newline).

(** Every byte is written as it is by [appendString]. *)
Definition verbatim (s : string) : bool :=
  forallb (fun c => htmlSafeSet (byte_val c)) (bytes_of s).

(** * A page and an environment to run the program on *)

Definition node (text : string) (attrs : list (string * string))
           (label icon : string) : HTMLElement :=
  mkElement text attrs (fun _ => label) (fun _ _ => icon).

(** Scenario B of the specification: a title, a profile title, one link
    button and a profile image. *)
Definition page_jane : Document := fun sel =>
  if String.eqb sel sel_title then
    [node "Jane | Linktree" [] EmptyString EmptyString]
  else if String.eqb sel sel_LinkButton then
    [node "My Site" [("href", "https://example.com")] "My Site" EmptyString]
  else if String.eqb sel sel_profile_title then
    [node "Jane Doe" [] EmptyString EmptyString]
  else if String.eqb sel sel_ProfileImage then
    [node EmptyString [("src", "https://cdn.example/img.jpg")] EmptyString EmptyString]
  else [].

(** Scenario C: the same page without the profile-title node. *)
Definition page_untitled : Document := fun sel =>
  if String.eqb sel sel_profile_title then [] else page_jane sel.

(** A page whose link buttons reuse a label and leave fields empty. *)
Definition page_links : Document := fun sel =>
  if String.eqb sel sel_LinkButton then
    [node EmptyString [("href", "https://a.example")] "Shop" EmptyString;
     node EmptyString [("href", "https://b.example")] EmptyString EmptyString;
     node EmptyString [("href", "https://c.example")] "Shop" EmptyString;
     node EmptyString [] "Shop" EmptyString]
  else page_jane sel.

(** Scenario A without its link button: no link and no icon matches. *)
Definition page_plain : Document := fun sel =>
  if String.eqb sel sel_title then
    [node "Jane | Linktree" [] EmptyString EmptyString]
  else if String.eqb sel sel_profile_title then
    [node "Jane Doe" [] EmptyString EmptyString]
  else [].

(** The record extracted from [page_jane]. *)
Definition record_jane : Result :=
  mkResult (Some {["My Site" := "https://example.com"]}) (Some ∅)
           "Jane | Linktree" "Jane Doe" "https://cdn.example/img.jpg".

(** A record whose profile image URL is the single byte 0xff, which is
    not UTF-8. *)
Definition record_raw_byte : Result :=
  mkResult (Some ∅) (Some ∅) "Jane | Linktree" "Jane Doe"
           (String (byte_of 0xFF) EmptyString).

(** JSON text written with apostrophes standing for double quotes. *)
Definition json_text (s : string) : bytes :=
  map (fun c => if eqc c "'" then dquote else c) (bytes_of s).

(** The members of the encoding under the names the specification gives
    them. *)
Definition claimed_fields (v : Result) : list (string * fieldValue) :=
  [ ("links", MapField (Links v));
    ("iconLinks", MapField (IconLinks v));
    ("title", StringField (Title v));
    ("profileName", StringField (ProfileName v));
    ("profileImageURL", StringField (ProfileImg v)) ].

(** The links of the environments below hold nothing that [url.Parse]
    would escape, and are printed as they are.

    The profile image answers 404; files can be written. *)
Definition env_404 (doc : Document) : Env :=
  mkEnv (fun _ => VisitFetched doc)
        (fun link => link)
        (fun _ => inr (mkResponse 404 [] None))
        (fun _ fileName => fileName)
        (fun _ => None)
        (fun _ => None).

(** The profile image is served. *)
Definition env_ok (doc : Document) : Env :=
  mkEnv (fun _ => VisitFetched doc)
        (fun link => link)
        (fun _ => inr (mkResponse 200 (bytes_of "JFIF") None))
        (fun _ fileName => fileName)
        (fun _ => None)
        (fun _ => None).

Definition world0 : World := mkWorld ∅ [].

(** A page with two social icons of the same title. *)
Definition page_icons : Document := fun sel =>
  if String.eqb sel sel_SocialIcon then
    [node EmptyString [("href", "https://x.example/old")] EmptyString "X";
     node EmptyString [("href", "https://x.example/new")] EmptyString "X"]
  else page_jane sel.

(** The collector refuses the URL; the request fails. *)
Definition env_rejected : Env :=
  mkEnv (fun _ => VisitRejected "Forbidden domain")
        (fun link => link)
        (fun _ => inl "no network")
        (fun _ fileName => fileName)
        (fun _ => None)
        (fun _ => None).

(** Nothing can be opened for writing. *)
Definition env_readonly (doc : Document) : Env :=
  mkEnv (fun _ => VisitFetched doc)
        (fun link => link)
        (fun _ => inr (mkResponse 200 (bytes_of "JFIF") None))
        (fun _ fileName => fileName)
        (fun _ => Some "permission denied")
        (fun _ => None).

(** The disk is full once four bytes of a file are written. *)
Definition env_full (doc : Document) : Env :=
  mkEnv (fun _ => VisitFetched doc)
        (fun link => link)
        (fun _ => inr (mkResponse 200 (bytes_of "JFIF-data") None))
        (fun _ fileName => fileName)
        (fun _ => None)
        (fun _ => Some (4%nat, "no space left on device")).

(** The request fails; the link of "jane doe" is printed with its space
    escaped, as [url.Parse] and [String] make it. *)
Definition env_offline : Env :=
  mkEnv (fun _ => VisitFailed "no network")
        (fun link => if String.eqb link "https://linktr.ee/jane doe"
                     then "https://linktr.ee/jane%20doe" else link)
        (fun _ => inl "no network")
        (fun _ fileName => fileName)
        (fun _ => None)
        (fun _ => None).

(** Three link buttons with the same label. *)
Definition page_shops : Document := fun sel =>
  if String.eqb sel sel_LinkButton then
    [node EmptyString [("href", "https://a.example")] "Shop" EmptyString;
     node EmptyString [("href", "https://b.example")] "Shop" EmptyString;
     node EmptyString [("href", "https://c.example")] "Shop" EmptyString]
  else page_jane sel.

(** A page whose last title node is empty and whose last image node has
    an empty [src]. *)
Definition page_blank_last : Document := fun sel =>
  if String.eqb sel sel_title then
    [node "Jane | Linktree" [] EmptyString EmptyString;
     node EmptyString [] EmptyString EmptyString]
  else if String.eqb sel sel_ProfileImage then
    [node EmptyString [("src", "https://cdn.example/img.jpg")] EmptyString EmptyString;
     node EmptyString [("src", EmptyString)] EmptyString EmptyString]
  else page_jane sel.

(** A world in which the image file of jane exists already. *)
Definition world_old : World :=
  mkWorld {["jane.jpg" := bytes_of "old image"]} [].

(** * unicode/utf8: decoding and encoding agree *)

Lemma all_bytes_complete (c : ascii) : In c all_bytes.
Proof.
  unfold all_bytes. rewrite <- (ascii_nat_embedding c).
  apply in_map, in_seq. pose proof (nat_ascii_bounded c). lia.
Qed.

Lemma forall_bytes (P : ascii -> bool) :
  forallb P all_bytes = true -> forall c, P c = true.
Proof.
  intros H c. eapply forallb_forall in H; [exact H|apply all_bytes_complete].
Qed.

Lemma eqbs_eq a b : eqbs a b = true -> a = b.
Proof.
  revert b. induction a as [|x a IH]; intros [|y b]; simpl; try done.
  intros [Hxy Hab]%andb_true_iff. apply Ascii.eqb_eq in Hxy. f_equal; auto.
Qed.

Lemma check2 :
  forallb (fun c0 =>
    if lead c0 && (size_of c0 <=? 2)%nat then
      forallb (fun c1 => if accepts c0 c1 then ok2 c0 c1 else true) all_bytes
    else true) all_bytes = true.
Proof. vm_cast_no_check (eq_refl true). Qed.

Lemma check3 :
  forallb (fun c0 =>
    if lead c0 && negb (size_of c0 <=? 2)%nat && (size_of c0 <=? 3)%nat then
      forallb (fun c1 =>
        if accepts c0 c1 then
          forallb (fun c2 => if cont c2 then ok3 c0 c1 c2 else true) all_bytes
        else true) all_bytes
    else true) all_bytes = true.
Proof. vm_cast_no_check (eq_refl true). Qed.

Lemma check4 :
  forallb (fun c0 =>
    if lead c0 && negb (size_of c0 <=? 3)%nat then
      forallb (fun c1 =>
        if accepts c0 c1 then
          forallb (fun c2 =>
            if cont c2 then
              forallb (fun c3 => if cont c3 then ok4 c0 c1 c2 c3 else true)
                      all_bytes
            else true) all_bytes
        else true) all_bytes
    else true) all_bytes = true.
Proof. vm_cast_no_check (eq_refl true). Qed.

Lemma check_size :
  forallb (fun c0 => (size_of c0 <=? 4)%nat
                     && (if lead c0 then high c0 && (2 <=? size_of c0)%nat else true))
          all_bytes = true.
Proof. vm_cast_no_check (eq_refl true). Qed.

Lemma size_of_le4 c : (size_of c <= 4)%nat.
Proof.
  pose proof (forall_bytes _ check_size c) as H. cbv beta in H.
  apply andb_true_iff in H as [H _]. by apply Nat.leb_le in H.
Qed.

Lemma lead_high c : lead c = true -> high c = true.
Proof.
  intros Hl. pose proof (forall_bytes _ check_size c) as H. cbv beta in H.
  rewrite Hl in H. apply andb_true_iff in H as [_ H].
  by apply andb_true_iff in H as [H _].
Qed.

Lemma high_not_ascii c : high c = true -> (byte_val c <? 0x80) = false.
Proof. unfold high. intros H. apply N.leb_le in H. apply N.ltb_ge. lia. Qed.

Lemma chunk_ok chunk r :
  rune_chunk chunk r ->
  EncodeRune r = chunk /\ Forall (fun c => high c = true) chunk.
Proof.
  intros [c0 c1 Hl Hs Ha|c0 c1 c2 Hl Hs2 Hs3 Ha Hc2|c0 c1 c2 c3 Hl Hs Ha Hc2 Hc3].
  - pose proof (forall_bytes _ check2 c0) as H. cbv beta in H.
    rewrite Hl, Hs in H. cbn [andb negb] in H.
    pose proof (forall_bytes _ H c1) as H1. cbv beta in H1. rewrite Ha in H1.
    unfold ok2 in H1. repeat (apply andb_true_iff in H1 as [H1 ?]).
    apply eqbs_eq in H1. split; [done|]. by repeat constructor.
  - pose proof (forall_bytes _ check3 c0) as H. cbv beta in H.
    rewrite Hl, Hs2, Hs3 in H. cbn [andb negb] in H.
    pose proof (forall_bytes _ H c1) as H1. cbv beta in H1. rewrite Ha in H1.
    pose proof (forall_bytes _ H1 c2) as H2. cbv beta in H2. rewrite Hc2 in H2.
    unfold ok3 in H2. repeat (apply andb_true_iff in H2 as [H2 ?]).
    apply eqbs_eq in H2. split; [done|]. by repeat constructor.
  - pose proof (forall_bytes _ check4 c0) as H. cbv beta in H.
    rewrite Hl, Hs in H. cbn [andb negb] in H.
    pose proof (forall_bytes _ H c1) as H1. cbv beta in H1. rewrite Ha in H1.
    pose proof (forall_bytes _ H1 c2) as H2. cbv beta in H2. rewrite Hc2 in H2.
    pose proof (forall_bytes _ H2 c3) as H3. cbv beta in H3. rewrite Hc3 in H3.
    unfold ok4 in H3. repeat (apply andb_true_iff in H3 as [H3 ?]).
    apply eqbs_eq in H3. split; [done|]. by repeat constructor.
Qed.

Lemma chunk_length chunk r :
  rune_chunk chunk r -> (2 <= length chunk <= 4)%nat.
Proof. intros []; simpl; lia. Qed.

Lemma lead_test c : lead c = true -> (as_ <=? first (byte_val c)) = false.
Proof. unfold lead. by intros ->%negb_true_iff. Qed.

Lemma accepts_test c0 c1 :
  accepts c0 c1 = true ->
  (byte_val c1 <? (acceptRanges (N.shiftr (first (byte_val c0)) 4)).1)
  || ((acceptRanges (N.shiftr (first (byte_val c0)) 4)).2 <? byte_val c1) = false.
Proof. unfold accepts. by intros ->%negb_true_iff. Qed.

Lemma cont_test c :
  cont c = true -> (byte_val c <? locb) || (hicb <? byte_val c) = false.
Proof. unfold cont. by intros ->%negb_true_iff. Qed.

(** Decoding a chunk gives its rune and its length, whatever follows. *)
Lemma chunk_decode chunk r t :
  rune_chunk chunk r -> DecodeRune (chunk ++ t) = (r, length chunk).
Proof.
  intros [c0 c1 Hl Hs Ha|c0 c1 c2 Hl Hs2 Hs3 Ha Hc2|c0 c1 c2 c3 Hl Hs Ha Hc2 Hc3];
    unfold DecodeRune; cbn [app length]; fold (size_of c0);
    rewrite (lead_test _ Hl).
  - replace (S (S (length t)) <? size_of c0)%nat with false
      by (symmetry; apply Nat.ltb_ge; apply Nat.leb_le in Hs; lia).
    by rewrite (accepts_test _ _ Ha), Hs.
  - replace (S (S (S (length t))) <? size_of c0)%nat with false
      by (symmetry; apply Nat.ltb_ge; apply Nat.leb_le in Hs3; lia).
    by rewrite (accepts_test _ _ Ha), Hs2, (cont_test _ Hc2), Hs3.
  - replace (S (S (S (S (length t)))) <? size_of c0)%nat with false
      by (symmetry; apply Nat.ltb_ge; pose proof (size_of_le4 c0); lia).
    assert ((size_of c0 <=? 2)%nat = false) as ->.
    { apply Nat.leb_gt. apply Nat.leb_gt in Hs. lia. }
    by rewrite (accepts_test _ _ Ha), (cont_test _ Hc2), Hs, (cont_test _ Hc3).
Qed.

(** What [DecodeRune] answers on a non-empty input. *)
Lemma DecodeRune_cases c0 t0 :
  ((byte_val c0 <? 0x80) = true /\ DecodeRune (c0 :: t0) = (byte_val c0, 1%nat))
  \/ ((byte_val c0 <? 0x80) = false /\ DecodeRune (c0 :: t0) = (RuneError, 1%nat))
  \/ (exists chunk r t, c0 :: t0 = chunk ++ t /\ rune_chunk chunk r
                        /\ DecodeRune (c0 :: t0) = (r, length chunk)).
Proof.
  destruct (byte_val c0 <? 0x80) eqn:Hascii.
  { left. split; [done|]. unfold DecodeRune, first. by rewrite Hascii. }
  right.
  destruct (lead c0) eqn:Hl.
  2:{ left. split; [done|]. unfold DecodeRune.
      unfold lead in Hl. apply negb_false_iff in Hl. rewrite Hl.
      revert Hl. unfold first. rewrite Hascii.
      repeat match goal with
             | |- context [if ?b then _ else _] => destruct b; try done
             end. }
  destruct t0 as [|c1 t1].
  { left. split; [done|]. unfold DecodeRune. rewrite (lead_test _ Hl).
    by destruct (_ <? _)%nat. }
  destruct (accepts c0 c1) eqn:Ha.
  2:{ left. split; [done|]. unfold DecodeRune. rewrite (lead_test _ Hl).
      destruct (_ <? _)%nat; [done|].
      unfold accepts in Ha. apply negb_false_iff in Ha. by rewrite Ha. }
  destruct (size_of c0 <=? 2)%nat eqn:Hs2.
  { right. exists [c0; c1], (rune2 c0 c1), t1. split; [done|].
    assert (Hc : rune_chunk [c0; c1] (rune2 c0 c1)) by by constructor.
    split; [done|]. apply (chunk_decode _ _ t1 Hc). }
  destruct t1 as [|c2 t2].
  { left. split; [done|]. unfold DecodeRune. rewrite (lead_test _ Hl).
    destruct (_ <? _)%nat; [done|]. fold (size_of c0).
    by rewrite (accepts_test _ _ Ha), Hs2. }
  destruct (cont c2) eqn:Hc2.
  2:{ left. split; [done|]. unfold DecodeRune. rewrite (lead_test _ Hl).
      destruct (_ <? _)%nat; [done|]. fold (size_of c0).
      rewrite (accepts_test _ _ Ha), Hs2.
      unfold cont in Hc2. apply negb_false_iff in Hc2. by rewrite Hc2. }
  destruct (size_of c0 <=? 3)%nat eqn:Hs3.
  { right. exists [c0; c1; c2], (rune3 c0 c1 c2), t2. split; [done|].
    assert (Hc : rune_chunk [c0; c1; c2] (rune3 c0 c1 c2)) by by constructor.
    split; [done|]. apply (chunk_decode _ _ t2 Hc). }
  destruct t2 as [|c3 t3].
  { left. split; [done|]. unfold DecodeRune. rewrite (lead_test _ Hl).
    destruct (_ <? _)%nat; [done|]. fold (size_of c0).
    by rewrite (accepts_test _ _ Ha), Hs2, (cont_test _ Hc2), Hs3. }
  destruct (cont c3) eqn:Hc3.
  2:{ left. split; [done|]. unfold DecodeRune. rewrite (lead_test _ Hl).
      destruct (_ <? _)%nat; [done|]. fold (size_of c0).
      rewrite (accepts_test _ _ Ha), Hs2, (cont_test _ Hc2), Hs3.
      unfold cont in Hc3. apply negb_false_iff in Hc3. by rewrite Hc3. }
  right. exists [c0; c1; c2; c3], (rune4 c0 c1 c2 c3), t3. split; [done|].
  assert (Hc : rune_chunk [c0; c1; c2; c3] (rune4 c0 c1 c2 c3)) by by constructor.
  split; [done|]. apply (chunk_decode _ _ t3 Hc).
Qed.

Lemma Valid_from_skip p t : Valid_from (length p) (p ++ t) = Valid_from 0 t.
Proof. induction p as [|c p IH]; [done|]. simpl. exact IH. Qed.

Lemma Valid_from_valid s : Valid_from 0 s = true -> valid_bytes s.
Proof.
  remember (length s) as n eqn:Hn. revert s Hn.
  induction n as [n IH] using lt_wf_ind. intros s Hn Hv.
  destruct s as [|c0 t0]; [constructor|].
  cbn [Valid_from] in Hv.
  destruct (DecodeRune_cases c0 t0)
    as [[Ha Hd]|[[Ha Hd]|(chunk & r & t & Hs & Hc & Hd)]]; rewrite Hd in Hv.
  - apply valid_ascii; [done|].
    destruct ((byte_val c0 =? RuneError) && (1 =? 1)%nat); [done|].
    apply (IH (length t0)); simpl in *; [lia|done|done].
  - by rewrite N.eqb_refl in Hv.
  - rewrite Hs. apply valid_chunk with r; [done|].
    pose proof (chunk_length _ _ Hc) as Hlen.
    destruct ((r =? RuneError) && (length chunk =? 1)%nat) eqn:He.
    { apply andb_true_iff in He as [_ He]. apply Nat.eqb_eq in He. lia. }
    destruct chunk as [|c chunk']; [simpl in Hlen; lia|].
    simpl in Hs. inversion Hs; subst c t0.
    simpl in Hv. rewrite Nat.sub_0_r, Valid_from_skip in Hv.
    apply (IH (length t)); [|done|done].
    rewrite Hn. simpl. rewrite length_app. lia.
Qed.

(** * encoding/json: the layout of the encoder's output *)

Section IndentFacts.
Variables prefix indent : bytes.

Abbreviation loop := (indent_loop prefix indent).
Abbreviation nli := (appendNewline prefix indent).

Abbreviation passes := (passes prefix indent).

Lemma passes_nil : passes [].
Proof. by intros d X. Qed.

Lemma passes_app a b : passes a -> passes b -> passes (a ++ b).
Proof.
  intros Ha Hb d X. by rewrite <- !app_assoc, Ha, Hb.
Qed.

Lemma passes_plain c : plain c = true -> passes [c].
Proof.
  intros [Hq Hb]%andb_true_iff d X.
  apply negb_true_iff in Hq. apply negb_true_iff in Hb.
  cbn [app indent_loop step]. by rewrite Hq, Hb.
Qed.

Lemma passes_escape c : passes [bslash; c].
Proof. intros d X. reflexivity. Qed.

Lemma passes_Forall l : Forall (fun c => plain c = true) l -> passes l.
Proof.
  induction 1 as [|c l Hc Hl IH]; [apply passes_nil|].
  change (c :: l) with ([c] ++ l). apply passes_app; [by apply passes_plain|done].
Qed.

Lemma passes_forallb l : forallb plain l = true -> passes l.
Proof.
  intros H. apply passes_Forall, Forall_forall. intros c Hc.
  eapply forallb_forall in H; [exact H|]. by apply list_elem_of_In.
Qed.

Lemma hexdigit_plain n : plain (hexdigit n) = true.
Proof.
  unfold hexdigit.
  destruct (nth_in_or_default (N.to_nat n) hex "0"%char) as [Hin| ->]; [|done].
  revert Hin. generalize (nth (N.to_nat n) hex "0"%char). intros c Hin.
  assert (Hall : forallb plain hex = true) by reflexivity.
  eapply forallb_forall in Hall; eauto.
Qed.

Lemma passes_escape_of c : passes (escape c).
Proof.
  unfold escape.
  repeat match goal with
         | |- context [if ?b then _ else _] => destruct b; [apply passes_escape|]
         end.
  change (passes ([bslash; "u"%char]
                    ++ ["0"%char; "0"%char; hexdigit (N.shiftr (byte_val c) 4);
                        hexdigit (N.land (byte_val c) 15)])).
  apply passes_app; [apply passes_escape|].
  apply passes_Forall. repeat constructor; apply hexdigit_plain.
Qed.

Lemma high_plain c : high c = true -> plain c = true.
Proof.
  intros H. unfold plain, eqc.
  destruct (Ascii.eqb_spec c dquote) as [->|]; [done|].
  destruct (Ascii.eqb_spec c bslash) as [->|]; done.
Qed.

Lemma safe_plain c : htmlSafeSet (byte_val c) = true -> plain c = true.
Proof.
  intros H. unfold plain, eqc.
  destruct (Ascii.eqb_spec c dquote) as [->|]; [done|].
  destruct (Ascii.eqb_spec c bslash) as [->|]; done.
Qed.

End IndentFacts.

(** One step of [appendString_from] on a multi-byte encoding. *)
Lemma take_chunk (src chunk t : bytes) :
  firstn UTFMax src = chunk ++ t -> firstn (length chunk) src = chunk.
Proof.
  intros H.
  assert (Hlen : (length chunk <= UTFMax)%nat).
  { apply (f_equal length) in H. rewrite length_app in H.
    pose proof (firstn_le_length UTFMax src). lia. }
  rewrite <- (Nat.min_l _ _ Hlen), <- firstn_firstn, H.
  apply take_app_length.
Qed.

Lemma appendString_from_skip p t :
  appendString_from (length p) (p ++ t) = appendString_from 0 t.
Proof. induction p as [|c p IH]; [done|]. simpl. exact IH. Qed.

Lemma appendString_from_passes prefix indent skip src :
  passes prefix indent (appendString_from skip src).
Proof.
  revert skip. induction src as [|c rest IH]; intros skip; [apply passes_nil|].
  destruct skip as [|k]; [|apply IH]. cbn [appendString_from].
  destruct (byte_val c <? RuneSelf) eqn:Hascii.
  { apply passes_app; [|apply IH].
    destruct (htmlSafeSet (byte_val c)) eqn:Hsafe.
    - apply passes_plain. by apply safe_plain.
    - apply passes_escape_of. }
  change (firstn UTFMax (c :: rest)) with (c :: firstn 3 rest).
  destruct (DecodeRune_cases c (firstn 3 rest))
    as [[Ha Hd]|[[Ha Hd]|(chunk & r & t & Hs & Hc & Hd)]]; rewrite Hd.
  - unfold RuneSelf in Hascii. congruence.
  - rewrite N.eqb_refl. cbn [andb Nat.eqb].
    apply passes_app; [|apply IH].
    change (bytes_of "\ufffd") with ([bslash; "u"%char] ++ bytes_of "fffd").
    apply passes_app; [apply passes_escape|]. apply passes_forallb. reflexivity.
  - pose proof (chunk_length _ _ Hc) as Hlen.
    assert ((length chunk =? 1)%nat = false) as -> by (apply Nat.eqb_neq; lia).
    rewrite andb_false_r.
    destruct ((r =? 8232) || (r =? 8233)).
    + change (bytes_of "\u202" ++ hexdigit (N.land r 15) :: appendString_from (length chunk - 1) rest)
        with ((bytes_of "\u202" ++ [hexdigit (N.land r 15)]) ++ appendString_from (length chunk - 1) rest).
      apply passes_app; [|apply IH].
      change (bytes_of "\u202") with ([bslash; "u"%char] ++ bytes_of "202").
      rewrite <- app_assoc.
      apply passes_app; [apply passes_escape|].
      apply passes_app; [by apply passes_forallb|].
      apply passes_plain, hexdigit_plain.
    + apply passes_app; [|apply IH].
      change (c :: firstn 3 rest) with (firstn UTFMax (c :: rest)) in Hs.
      rewrite (take_chunk _ _ _ Hs).
      apply passes_Forall. destruct (chunk_ok _ _ Hc) as [_ Hh].
      eapply Forall_impl; [exact Hh|]. intros x. apply high_plain.
Qed.

Ltac norm_app := repeat first [rewrite <- app_assoc | progress cbn [app]].

Section IndentSteps.
Variables prefix indent : bytes.

Abbreviation loop := (indent_loop prefix indent).
Abbreviation nli := (appendNewline prefix indent).

Lemma indent_quoted (ni : bool) d s X :
  loop stateValue ni d (appendString s ++ X)
  = (if ni then nli (S d) else []) ++ appendString s
    ++ loop stateValue false (if ni then S d else d) X.
Proof.
  unfold appendString. cbn [app]. rewrite <- app_assoc.
  cbn [indent_loop step].
  change (isSpace dquote) with false. change (eqc dquote dquote) with true.
  cbn iota. cbn [isEnd negb andb].
  change (eqc dquote "{") with false. change (eqc dquote "[") with false.
  change (eqc dquote ",") with false. change (eqc dquote ":") with false.
  change (eqc dquote "}") with false. change (eqc dquote "]") with false.
  cbn [orb]. rewrite andb_true_r.
  destruct ni; cbn iota.
  - rewrite (appendString_from_passes prefix indent 0 (bytes_of s)).
    rewrite <- !app_assoc. reflexivity.
  - rewrite (appendString_from_passes prefix indent 0 (bytes_of s)).
    rewrite <- !app_assoc. reflexivity.
Qed.

Lemma indent_key (ni : bool) d name X :
  Forall (fun c => plain c = true) name ->
  loop stateValue ni d (dquote :: name ++ dquote :: X)
  = (if ni then nli (S d) else []) ++ dquote :: name ++ dquote
    :: loop stateValue false (if ni then S d else d) X.
Proof.
  intros Hname.
  cbn [indent_loop step].
  change (isSpace dquote) with false. change (eqc dquote dquote) with true.
  cbn iota. cbn [isEnd negb andb].
  change (eqc dquote "{") with false. change (eqc dquote "[") with false.
  change (eqc dquote ",") with false. change (eqc dquote ":") with false.
  change (eqc dquote "}") with false. change (eqc dquote "]") with false.
  cbn [orb]. rewrite andb_true_r.
  destruct ni; cbn iota; rewrite (passes_Forall prefix indent name Hname);
    reflexivity.
Qed.

Lemma indent_open d X :
  loop stateValue false d ("{"%char :: X) = "{"%char :: loop stateValue true d X.
Proof. reflexivity. Qed.

Lemma indent_close_empty d X :
  loop stateValue true d ("}"%char :: X) = "}"%char :: loop stateValue false d X.
Proof. reflexivity. Qed.

Lemma indent_close d X :
  loop stateValue false d ("}"%char :: X)
  = nli (d - 1) ++ "}"%char :: loop stateValue false (d - 1) X.
Proof. reflexivity. Qed.

Lemma indent_comma d X :
  loop stateValue false d (","%char :: X)
  = ","%char :: nli d ++ loop stateValue false d X.
Proof. reflexivity. Qed.

Lemma indent_colon d X :
  loop stateValue false d (":"%char :: X)
  = ":"%char :: " "%char :: loop stateValue false d X.
Proof. reflexivity. Qed.

Lemma indent_null d X :
  loop stateValue false d (bytes_of "null" ++ X)
  = bytes_of "null" ++ loop stateValue false d X.
Proof. reflexivity. Qed.

Lemma indent_entries kvs : forall i d X,
  (0 < i)%nat ->
  loop stateValue false (S d) (encodeEntries i kvs ++ "}"%char :: X)
  = match kvs with
    | [] => []
    | _ :: _ => ","%char :: nli (S d) ++ layoutEntries prefix indent (S d) kvs
    end ++ nli d ++ "}"%char :: loop stateValue false d X.
Proof.
  induction kvs as [|kv rest IH]; intros i d X Hi.
  - cbn [encodeEntries app]. rewrite indent_close. by replace (S d - 1)%nat with d by lia.
  - cbn [encodeEntries].
    assert ((0 <? i)%nat = true) as -> by (apply Nat.ltb_lt; lia).
    cbn [app]. rewrite indent_comma. rewrite <- !app_assoc.
    rewrite indent_quoted. cbn [app]. rewrite indent_colon.
    rewrite <- app_assoc. rewrite indent_quoted. cbn [app].
    rewrite (IH (S i) d X) by lia.
    cbn [layoutEntries]. unfold layoutEntry.
    destruct rest; norm_app; reflexivity.
Qed.

Lemma indent_map d m X :
  loop stateValue false d (encodeMap m ++ X)
  = layoutMap prefix indent d m ++ loop stateValue false d X.
Proof.
  destruct m as [g|]; [|apply indent_null].
  unfold encodeMap, layoutMap. cbn [app]. rewrite indent_open.
  destruct (sortedEntries g) as [|kv rest].
  - cbn [encodeEntries app]. by rewrite indent_close_empty.
  - cbn [encodeEntries]. cbn [Nat.ltb Nat.leb app].
    rewrite <- !app_assoc. rewrite indent_quoted. cbn [app].
    rewrite indent_colon. rewrite <- app_assoc. rewrite indent_quoted.
    cbn [app]. rewrite (indent_entries rest 1 d X) by lia.
    cbn [layoutEntries]. unfold layoutEntry.
    destruct rest; norm_app; reflexivity.
Qed.

Lemma indent_value d fv X :
  loop stateValue false d (encodeValue fv ++ X)
  = layoutValue prefix indent d fv ++ loop stateValue false d X.
Proof.
  destruct fv as [m|s]; [apply indent_map|].
  cbn [encodeValue layoutValue]. by rewrite indent_quoted.
Qed.

Lemma indent_fields fs : forall i d X,
  plain_names fs -> (0 < i)%nat ->
  loop stateValue false (S d) (encodeFields i fs ++ "}"%char :: X)
  = match fs with
    | [] => []
    | _ :: _ => ","%char :: nli (S d) ++ layoutMembers prefix indent (S d) fs
    end ++ nli d ++ "}"%char :: loop stateValue false d X.
Proof.
  induction fs as [|f rest IH]; intros i d X Hn Hi.
  - cbn [encodeFields app]. rewrite indent_close. by replace (S d - 1)%nat with d by lia.
  - inversion Hn as [|? ? Hf Hrest]; subst. cbn [encodeFields].
    assert ((0 <? i)%nat = true) as -> by (apply Nat.ltb_lt; lia).
    norm_app. rewrite indent_comma.
    rewrite (indent_key false (S d) (bytes_of f.1)) by done. cbn [app].
    rewrite indent_colon. rewrite indent_value.
    rewrite (IH (S i) d X) by (done || lia).
    cbn [layoutMembers]. unfold layoutMember.
    destruct rest; norm_app; reflexivity.
Qed.

Lemma indent_object fs :
  plain_names fs ->
  Indent prefix indent ("{"%char :: encodeFields 0 fs ++ ["}"%char])
  = layoutObject prefix indent fs.
Proof.
  intros Hn. unfold Indent, layoutObject. rewrite indent_open.
  destruct fs as [|f rest].
  - reflexivity.
  - inversion Hn as [|? ? Hf Hrest]; subst. cbn [encodeFields].
    cbn [Nat.ltb Nat.leb]. norm_app.
    rewrite (indent_key true 0 (bytes_of f.1)) by done.
    rewrite indent_colon. rewrite indent_value.
    change ["}"%char] with ("}"%char :: @nil ascii).
    rewrite (indent_fields rest 1 0 []) by (done || lia).
    cbn [layoutMembers]. unfold layoutMember. cbn [indent_loop].
    destruct rest; norm_app; reflexivity.
Qed.

End IndentSteps.

(** Indenting the compact encoding of a record lays out the object of its
    fields. *)
Lemma Indent_Marshal (prefix indent : bytes) (v : Result) :
  Indent prefix indent (Marshal v) = layoutObject prefix indent (fields v).
Proof.
  apply (indent_object prefix indent (fields v)).
  unfold plain_names, fields. repeat constructor.
Qed.

(** * encoding/json: the decoder reads back what the encoder writes *)

Lemma unquote_from_skip p t :
  unquote_from (length p) (p ++ t) = unquote_from 0 t.
Proof. induction p as [|c p IH]; [done|]. simpl. exact IH. Qed.

Lemma high_tests c :
  high c = true ->
  eqc c dquote = false /\ eqc c bslash = false
  /\ (byte_val c <? 32) = false /\ (byte_val c <? RuneSelf) = false.
Proof.
  intros H. pose proof (high_plain c H) as Hp.
  apply andb_true_iff in Hp as [Hq Hb].
  apply negb_true_iff in Hq. apply negb_true_iff in Hb.
  unfold high in H. apply N.leb_le in H.
  repeat split; try done; apply N.ltb_ge; unfold RuneSelf; lia.
Qed.

Lemma safe_tests c :
  htmlSafeSet (byte_val c) = true ->
  eqc c dquote = false /\ eqc c bslash = false
  /\ (byte_val c <? 32) = false /\ (byte_val c <? RuneSelf) = true.
Proof.
  intros H. pose proof (safe_plain c H) as Hp.
  apply andb_true_iff in Hp as [Hq Hb].
  apply negb_true_iff in Hq. apply negb_true_iff in Hb.
  unfold htmlSafeSet in H.
  apply andb_true_iff in H as [H _]. apply andb_true_iff in H as [H1 H2].
  apply N.leb_le in H1. repeat split; try done.
  apply N.ltb_ge. lia.
Qed.

Lemma unquote_safe c X :
  htmlSafeSet (byte_val c) = true ->
  unquote_from 0 (c :: X) = emitted [c] (unquote_from 0 X).
Proof.
  intros H. destruct (safe_tests c H) as (Hq & Hb & Hc & Ha).
  cbn [unquote_from]. by rewrite Hq, Hb, Hc, Ha.
Qed.

Lemma unquote_escape c X :
  (byte_val c <? RuneSelf) = true -> htmlSafeSet (byte_val c) = false ->
  unquote_from 0 (escape c ++ X) = emitted [c] (unquote_from 0 X).
Proof.
  destruct c as [[] [] [] [] [] [] [] []]; intros Ha Hs;
    try discriminate Ha; try discriminate Hs; reflexivity.
Qed.

Lemma unquote_chunk chunk r X :
  rune_chunk chunk r ->
  unquote_from 0 (encoded_chunk chunk r ++ X) = emitted chunk (unquote_from 0 X).
Proof.
  intros Hc. destruct (chunk_ok _ _ Hc) as [He Hh].
  unfold encoded_chunk.
  destruct (r =? 8232) eqn:H1; [|destruct (r =? 8233) eqn:H2]; cbn [orb].
  - apply N.eqb_eq in H1. subst r. rewrite <- He. reflexivity.
  - apply N.eqb_eq in H2. subst r. rewrite <- He. reflexivity.
  - pose proof (chunk_length _ _ Hc) as Hlen.
    destruct chunk as [|c0 chunk']; [simpl in Hlen; lia|].
    inversion Hh as [|? ? Hc0 _]; subst.
    destruct (high_tests c0 Hc0) as (Hq & Hb & Hlow & Ha).
    cbn [app unquote_from]. rewrite Hq, Hb, Hlow, Ha.
    change (c0 :: chunk' ++ X) with ((c0 :: chunk') ++ X).
    rewrite (chunk_decode _ _ X Hc), He. cbn [length].
    replace (S (length chunk') - 1)%nat with (length chunk') by lia.
    by rewrite unquote_from_skip.
Qed.

Lemma appendString_chunk chunk r t :
  rune_chunk chunk r ->
  appendString_from 0 (chunk ++ t)
  = encoded_chunk chunk r ++ appendString_from 0 t.
Proof.
  intros Hc. destruct (chunk_ok _ _ Hc) as [He Hh].
  pose proof (chunk_length _ _ Hc) as Hlen.
  assert (Hd : DecodeRune (firstn UTFMax (chunk ++ t)) = (r, length chunk)).
  { rewrite firstn_app. rewrite firstn_all2 by (unfold UTFMax; lia).
    by apply chunk_decode. }
  destruct chunk as [|c0 chunk']; [simpl in Hlen; lia|].
  inversion Hh as [|? ? Hc0 _]; subst.
  destruct (high_tests c0 Hc0) as (_ & _ & _ & Ha).
  cbn [app appendString_from]. rewrite Ha.
  change (c0 :: chunk' ++ t) with ((c0 :: chunk') ++ t). rewrite Hd.
  assert ((length (c0 :: chunk') =? 1)%nat = false) as ->
      by (apply Nat.eqb_neq; lia).
  rewrite andb_false_r. unfold encoded_chunk.
  cbn [length]. replace (S (length chunk') - 1)%nat with (length chunk') by lia.
  rewrite appendString_from_skip.
  destruct ((r =? 8232) || (r =? 8233)).
  - by rewrite <- app_assoc.
  - change (S (length chunk')) with (length (c0 :: chunk')).
    by rewrite take_app_length.
Qed.

(** The literal written for well-formed UTF-8 reads back as the same
    bytes. *)
Lemma unquote_valid bs :
  valid_bytes bs ->
  forall X, unquote_from 0 (appendString_from 0 bs ++ dquote :: X) = Some (bs, X).
Proof.
  induction 1 as [|c t Ha Ht IH|chunk r t Hc Ht IH]; intros X.
  - reflexivity.
  - cbn [appendString_from]. unfold RuneSelf. rewrite Ha. rewrite <- app_assoc.
    destruct (htmlSafeSet (byte_val c)) eqn:Hs.
    + cbn [app]. rewrite unquote_safe by done. by rewrite IH.
    + rewrite unquote_escape by done. by rewrite IH.
  - rewrite (appendString_chunk _ _ _ Hc), <- app_assoc.
    rewrite (unquote_chunk _ _ _ Hc). by rewrite IH.
Qed.

Lemma string_of_bytes_of s : string_of (bytes_of s) = s.
Proof. apply string_of_list_ascii_of_string. Qed.

Lemma decodeString_quoted s old X :
  ValidString s = true ->
  decodeString old (appendString s ++ X) = Some (s, X).
Proof.
  intros Hv. apply Valid_from_valid in Hv.
  unfold appendString, decodeString. cbn [app].
  change (eqc dquote dquote) with true. cbn iota.
  rewrite <- app_assoc. cbn [app].
  by rewrite (unquote_valid _ Hv), string_of_bytes_of.
Qed.

Lemma unquote_key s X :
  ValidString s = true ->
  exists Y, appendString s ++ X = dquote :: Y
            /\ unquote_from 0 Y = Some (bytes_of s, X).
Proof.
  intros Hv. apply Valid_from_valid in Hv.
  unfold appendString. cbn [app]. eexists. split; [reflexivity|].
  rewrite <- app_assoc. cbn [app]. by apply unquote_valid.
Qed.

(** ** White space *)

Lemma skipSpace_newline d X :
  skipSpace (appendNewline [] indent2 d ++ X) = skipSpace X.
Proof.
  unfold appendNewline. cbn [app skipSpace].
  change (isSpace newline) with true. cbn iota.
  induction d as [|d IH]; [reflexivity|].
  cbn [repeat_bytes]. unfold indent2 at 1. cbn [bytes_of list_ascii_of_string app skipSpace].
  change (isSpace " ") with true. cbn iota. exact IH.
Qed.

Lemma skipSpace_quoted s X :
  skipSpace (appendString s ++ X) = appendString s ++ X.
Proof. reflexivity. Qed.

(** ** Maps *)

Lemma skipSpace_keep c X : isSpace c = false -> skipSpace (c :: X) = c :: X.
Proof. intros H. cbn [skipSpace]. by rewrite H. Qed.

Lemma skipSpace_drop c X : isSpace c = true -> skipSpace (c :: X) = skipSpace X.
Proof. intros H. cbn [skipSpace]. by rewrite H. Qed.

Lemma decode_entry fuel g kv Z :
  valid_entry kv = true ->
  decodeMapMembers (S fuel) g (layoutEntry kv ++ Z)
  = match skipSpace Z with
    | [] => None
    | c2 :: s4 =>
      if eqc c2 "}" then Some (store g kv, s4)
      else if eqc c2 "," then decodeMapMembers fuel (store g kv) (skipSpace s4)
      else None
    end.
Proof.
  intros [Hk Hv]%andb_true_iff. unfold layoutEntry. rewrite <- app_assoc.
  destruct (unquote_key kv.1 (":"%char :: " "%char :: appendString kv.2 ++ Z) Hk)
    as (Y & HY & Hu).
  cbn [app]. rewrite HY. cbn [decodeMapMembers].
  change (eqc dquote dquote) with true. cbn iota. rewrite Hu.
  rewrite (skipSpace_keep ":"%char) by reflexivity.
  change (eqc ":" ":") with true. cbn iota.
  rewrite (skipSpace_drop " "%char) by reflexivity.
  rewrite skipSpace_quoted, (decodeString_quoted _ _ _ Hv), string_of_bytes_of.
  reflexivity.
Qed.

Lemma layoutEntries_head d kv rest Z :
  skipSpace (layoutEntries [] indent2 d (kv :: rest) ++ Z)
  = layoutEntries [] indent2 d (kv :: rest) ++ Z.
Proof. reflexivity. Qed.

Lemma decodeMapMembers_layout kvs : forall fuel g d d' X,
  kvs <> [] -> (length kvs <= fuel)%nat -> forallb valid_entry kvs = true ->
  decodeMapMembers fuel g
    (layoutEntries [] indent2 d kvs ++ appendNewline [] indent2 d' ++ "}"%char :: X)
  = Some (fold_left store kvs g, X).
Proof.
  induction kvs as [|kv rest IH]; intros fuel g d d' X Hne Hlen Hv; [done|].
  destruct fuel as [|fuel]; [simpl in Hlen; lia|].
  cbn [forallb] in Hv. apply andb_true_iff in Hv as [Hkv Hrest].
  cbn [layoutEntries]. rewrite <- app_assoc. rewrite (decode_entry _ _ _ _ Hkv).
  destruct rest as [|kv' rest'].
  - cbn [app]. rewrite skipSpace_newline.
    rewrite (skipSpace_keep "}"%char) by reflexivity. reflexivity.
  - cbn [app]. rewrite (skipSpace_keep ","%char) by reflexivity.
    change (eqc "," "}") with false. change (eqc "," ",") with true. cbn iota.
    rewrite <- app_assoc. rewrite skipSpace_newline, layoutEntries_head.
    rewrite IH; [reflexivity|done|simpl in *; lia|done].
Qed.

Lemma sortedEntries_perm (g : gmap string string) :
  sortedEntries g ≡ₚ map_to_list g.
Proof. apply merge_sort_Permutation. Qed.

Lemma fold_store_map (g : gmap string string) :
  fold_left store (sortedEntries g) ∅ = g.
Proof.
  pose proof (fold_left_rev_right
                (fun (p : string * string) (m : gmap string string) => <[p.1:=p.2]> m)
                (sortedEntries g) ∅) as H.
  unfold store. rewrite <- H.
  change (foldr (fun (p : string * string) (m : gmap string string) => <[p.1:=p.2]> m)
            ∅ (rev (sortedEntries g)))
    with (list_to_map (rev (sortedEntries g)) : gmap string string).
  assert (Hperm : rev (sortedEntries g) ≡ₚ map_to_list g).
  { rewrite <- Permutation_rev. apply sortedEntries_perm. }
  assert (Hnodup : NoDup (rev (sortedEntries g)).*1).
  { rewrite Hperm. apply NoDup_fst_map_to_list. }
  rewrite (list_to_map_proper (M:=gmap string) _ _ Hnodup Hperm).
  apply list_to_map_to_list.
Qed.

Lemma sortedEntries_valid (g : gmap string string) :
  forallb valid_entry (map_to_list g) = true ->
  forallb valid_entry (sortedEntries g) = true.
Proof.
  intros H. apply Is_true_true, forallb_True.
  rewrite sortedEntries_perm. by apply forallb_True, Is_true_true.
Qed.

(** What decoding the layout of a map into a nil map gives. *)
Lemma decodeMap_layout fuel d m Z :
  valid_map m = true ->
  (maplen m <= fuel)%nat ->
  decodeMap fuel None (layoutMap [] indent2 d m ++ Z) = Some (m, Z).
Proof.
  intros Hv Hlen. destruct m as [g|]; [|reflexivity].
  cbn [valid_map] in Hv. apply sortedEntries_valid in Hv.
  assert (Hsize : length (sortedEntries g) = size g).
  { rewrite sortedEntries_perm. apply length_map_to_list. }
  cbn [maplen] in Hlen. rewrite <- Hsize in Hlen.
  pose proof (fold_store_map g) as Hfold.
  unfold layoutMap. destruct (sortedEntries g) as [|kv rest] eqn:Hs.
  - cbn in Hfold. subst g. reflexivity.
  - cbn [app decodeMap]. change (eqc "{" "{") with true. cbn iota.
    rewrite <- !app_assoc. rewrite skipSpace_newline, layoutEntries_head.
    cbn [layoutEntries]. unfold layoutEntry at 1. unfold appendString at 1.
    cbn [app]. change (eqc dquote "}") with false. cbn iota.
    change (dquote :: (appendString_from 0 (bytes_of kv.1) ++ [dquote]) ++
            ":"%char :: " "%char :: appendString kv.2)
      with (layoutEntry kv).
    pose proof (decodeMapMembers_layout (kv :: rest) fuel ∅ (S d) d Z) as Hd.
    cbn [layoutEntries] in Hd. cbn [app] in Hd.
    unfold layoutEntry at 1 in Hd. unfold appendString at 1 in Hd.
    cbn [app] in Hd. rewrite <- !app_assoc in Hd. cbn [app] in Hd.
    cbn [default]. rewrite <- !app_assoc. cbn [app].
    rewrite Hd by done. by rewrite Hfold.
Qed.

(** ** The struct *)

Lemma unquote_safe_list l Y :
  forallb (fun c => htmlSafeSet (byte_val c)) l = true ->
  unquote_from 0 (l ++ dquote :: Y) = Some (l, Y).
Proof.
  induction l as [|c l IH]; intros H; [reflexivity|].
  cbn [forallb] in H. apply andb_true_iff in H as [Hc Hl].
  cbn [app]. rewrite unquote_safe by done. by rewrite IH.
Qed.

Lemma skipSpace_value d fv Z :
  skipSpace (layoutValue [] indent2 d fv ++ Z) = layoutValue [] indent2 d fv ++ Z.
Proof.
  destruct fv as [[g|]|s]; cbn [layoutValue layoutMap]; try reflexivity.
  destruct (sortedEntries g); reflexivity.
Qed.

Lemma decode_member fuel v name fv Z v' :
  forallb (fun c => htmlSafeSet (byte_val c)) (bytes_of name) = true ->
  decodeField fuel name v (layoutValue [] indent2 1 fv ++ Z) = Some (v', Z) ->
  decodeStructMembers (S fuel) v (layoutMember [] indent2 1 (name, fv) ++ Z)
  = match skipSpace Z with
    | [] => None
    | c2 :: s4 =>
      if eqc c2 "}" then Some (v', s4)
      else if eqc c2 "," then decodeStructMembers fuel v' (skipSpace s4)
      else None
    end.
Proof.
  intros Hname Hfield. unfold layoutMember. cbn [fst snd app decodeStructMembers].
  change (eqc dquote dquote) with true. cbn iota.
  rewrite <- app_assoc. cbn [app].
  rewrite (unquote_safe_list _ _ Hname).
  rewrite (skipSpace_keep ":"%char) by reflexivity.
  change (eqc ":" ":") with true. cbn iota.
  rewrite (skipSpace_drop " "%char) by reflexivity.
  rewrite skipSpace_value, string_of_bytes_of, Hfield. reflexivity.
Qed.

Lemma layoutEntries_length d kvs :
  (length kvs <= length (layoutEntries [] indent2 d kvs))%nat.
Proof.
  induction kvs as [|kv rest IH]; [done|].
  cbn [layoutEntries]. unfold layoutEntry. rewrite !length_app. cbn [length].
  destruct rest; [simpl; lia|]. cbn [length] in *. rewrite length_app. lia.
Qed.

Lemma layoutMap_length d m :
  (maplen m <= length (layoutMap [] indent2 d m))%nat.
Proof.
  destruct m as [g|]; [|simpl; lia]. cbn [maplen layoutMap].
  assert (Hsize : length (sortedEntries g) = size g).
  { rewrite sortedEntries_perm. apply length_map_to_list. }
  rewrite <- Hsize. pose proof (layoutEntries_length (S d) (sortedEntries g)).
  destruct (sortedEntries g); [simpl; lia|].
  cbn [length]. rewrite !length_app. cbn [length] in *. lia.
Qed.

Lemma skipSpace_member f X :
  skipSpace (layoutMember [] indent2 1 f ++ X) = layoutMember [] indent2 1 f ++ X.
Proof. reflexivity. Qed.

Lemma member_head f X : exists Y, layoutMember [] indent2 1 f ++ X = dquote :: Y.
Proof. eexists. reflexivity. Qed.

Lemma decodeField_links fuel v m Z :
  Links v = None -> valid_map m = true -> (maplen m <= fuel)%nat ->
  decodeField fuel "links" v (layoutValue [] indent2 1 (MapField m) ++ Z)
  = Some (set_Links m v, Z).
Proof.
  intros Hnil Hv Hlen. unfold decodeField. cbn [String.eqb Ascii.eqb Bool.eqb].
  cbn [layoutValue]. rewrite Hnil. by rewrite decodeMap_layout.
Qed.

Lemma decodeField_icon_links fuel v m Z :
  IconLinks v = None -> valid_map m = true -> (maplen m <= fuel)%nat ->
  decodeField fuel "icon_links" v (layoutValue [] indent2 1 (MapField m) ++ Z)
  = Some (set_IconLinks m v, Z).
Proof.
  intros Hnil Hv Hlen. unfold decodeField. cbn [String.eqb Ascii.eqb Bool.eqb].
  cbn [layoutValue]. rewrite Hnil. by rewrite decodeMap_layout.
Qed.

Lemma decodeField_title fuel v s Z :
  ValidString s = true ->
  decodeField fuel "title" v (layoutValue [] indent2 1 (StringField s) ++ Z)
  = Some (set_Title s v, Z).
Proof.
  intros Hv. unfold decodeField. cbn [String.eqb Ascii.eqb Bool.eqb].
  cbn [layoutValue]. by rewrite decodeString_quoted.
Qed.

Lemma decodeField_profile_name fuel v s Z :
  ValidString s = true ->
  decodeField fuel "profile_name" v (layoutValue [] indent2 1 (StringField s) ++ Z)
  = Some (set_ProfileName s v, Z).
Proof.
  intros Hv. unfold decodeField. cbn [String.eqb Ascii.eqb Bool.eqb].
  cbn [layoutValue]. by rewrite decodeString_quoted.
Qed.

Lemma decodeField_profile_img fuel v s Z :
  ValidString s = true ->
  decodeField fuel "profile_img" v (layoutValue [] indent2 1 (StringField s) ++ Z)
  = Some (set_ProfileImg s v, Z).
Proof.
  intros Hv. unfold decodeField. cbn [String.eqb Ascii.eqb Bool.eqb].
  cbn [layoutValue]. by rewrite decodeString_quoted.
Qed.

Ltac next_member :=
  rewrite (skipSpace_keep ","%char) by reflexivity;
  change (eqc "," "}") with false; change (eqc "," ",") with true; cbn iota;
  rewrite skipSpace_newline, skipSpace_member.


(** * Properties of the extraction *)

Section Extraction.

Lemma nonempty_true s : nonempty s = true ↔ s ≠ EmptyString.
Proof.
  unfold nonempty. destruct (String.eqb_spec s EmptyString); simpl; split;
    congruence.
Qed.

Lemma nonempty_false s : nonempty s = false ↔ s = EmptyString.
Proof.
  unfold nonempty. destruct (String.eqb_spec s EmptyString); simpl; split;
    congruence.
Qed.

Lemma each_onTitle ms r :
  each onTitle ms r = Returns (set_Title (last_text ms (Title r)) r).
Proof.
  revert r. induction ms as [|e ms IH]; intros r; simpl.
  - by destruct r.
  - rewrite IH. by destruct r.
Qed.

Lemma each_onProfileTitle ms r :
  each onProfileTitle ms r
  = Returns (set_ProfileName (last_text ms (ProfileName r)) r).
Proof.
  revert r. induction ms as [|e ms IH]; intros r; simpl.
  - by destruct r.
  - rewrite IH. by destruct r.
Qed.

Lemma each_onProfileImage ms r :
  each onProfileImage ms r
  = Returns (set_ProfileImg (last_src ms (ProfileImg r)) r).
Proof.
  revert r. induction ms as [|e ms IH]; intros r; simpl.
  - by destruct r.
  - unfold onProfileImage at 1.
    destruct (nonempty (Attr e "src")); rewrite IH; by destruct r.
Qed.

Lemma each_onLinkButton ms r g :
  Links r = Some g →
  each onLinkButton ms r
  = Returns (set_Links (Some (entries_after linkLabel ms g)) r).
Proof.
  revert r g. induction ms as [|e ms IH]; intros r g Hg; simpl.
  - destruct r; simpl in *; by subst.
  - unfold onLinkButton at 1. unfold writes, linkLabel, href.
    destruct (nonempty (ChildText e "div > p") && nonempty (Attr e "href")).
    + rewrite Hg. simpl. erewrite IH; [|reflexivity]. by destruct r.
    + by apply IH.
Qed.

Lemma each_onSocialIcon ms r g :
  IconLinks r = Some g →
  each onSocialIcon ms r
  = Returns (set_IconLinks (Some (entries_after iconLabel ms g)) r).
Proof.
  revert r g. induction ms as [|e ms IH]; intros r g Hg; simpl.
  - destruct r; simpl in *; by subst.
  - unfold onSocialIcon at 1. unfold writes, iconLabel, href.
    destruct (nonempty (ChildAttr e "title" "title") && nonempty (Attr e "href")).
    + rewrite Hg. simpl. erewrite IH; [|reflexivity]. by destruct r.
    + by apply IH.
Qed.

(** The record the callbacks leave behind, field by field. *)
Lemma extract_spec doc :
  extract doc = Returns
    (mkResult (Some (entries_after linkLabel (doc sel_LinkButton) ∅))
              (Some (entries_after iconLabel (doc sel_SocialIcon) ∅))
              (last_text (doc sel_title) EmptyString)
              (last_text (doc sel_profile_title) EmptyString)
              (last_src (doc sel_ProfileImage) EmptyString)).
Proof.
  unfold extract. simpl.
  rewrite each_onTitle.
  erewrite each_onLinkButton; [|reflexivity].
  erewrite each_onSocialIcon; [|reflexivity].
  rewrite each_onProfileTitle, each_onProfileImage.
  reflexivity.
Qed.

Lemma entries_after_app label l1 l2 g :
  entries_after label (l1 ++ l2) g
  = entries_after label l2 (entries_after label l1 g).
Proof. unfold entries_after. apply fold_left_app. Qed.

(** Matches that do not write under [k] leave the entry of [k] alone. *)
Lemma entries_after_other label l k g :
  Forall (fun e => ¬ (label e = k ∧ writes label e = true)) l →
  entries_after label l g !! k = g !! k.
Proof.
  revert g. induction l as [|e l IH]; intros g Hl; [done|].
  inversion Hl as [|? ? He Hl']; subst. simpl.
  unfold entries_after in *. simpl. rewrite IH by done.
  destruct (writes label e) eqn:Hw; [|done].
  rewrite lookup_insert_ne; [done|]. intros Heq. by apply He.
Qed.

(** After a write under [k], the entry of [k] is the href of the last
    match that writes under [k]. *)
Lemma entries_after_last label l k g v :
  g !! k = Some v →
  entries_after label l g !! k = Some (last_write label k l v).
Proof.
  revert g v. induction l as [|e l IH]; intros g v Hg; [done|].
  unfold entries_after, last_write in *. simpl.
  destruct (writes label e) eqn:Hw.
  - destruct (String.eqb_spec (label e) k) as [->|Hne]; simpl.
    + apply IH. apply lookup_insert_eq.
    + apply IH. by rewrite lookup_insert_ne.
  - rewrite andb_false_r. by apply IH.
Qed.

Lemma last_write_none label l k v :
  Forall (fun e => ¬ (label e = k ∧ writes label e = true)) l →
  last_write label k l v = v.
Proof.
  revert v. induction l as [|e l IH]; intros v Hl; [done|].
  inversion Hl as [|? ? He Hl']; subst. unfold last_write in *. simpl.
  destruct (String.eqb_spec (label e) k) as [Heq|Hne]; simpl; [|by apply IH].
  destruct (writes label e) eqn:Hw; [|by apply IH].
  exfalso. by apply He.
Qed.

End Extraction.

(** * Properties of [crawlLinktreeProfile] *)

Section Crawl.
Variable env : Env.

Lemma crawl_unfold link w :
  crawlLinktreeProfile env link w =
  match colly_fetch env link with
  | VisitRejected err => (Returns (Result_zero, Some (visit_error link err)), w)
  | VisitFailed err =>
    (Returns (Result_zero, Some (visit_error link err)), visited env link w)
  | VisitFetched doc =>
    match extract doc with
    | Returns r => (Returns (validated r), visited env link w)
    | Panics msg => (Panics msg, visited env link w)
    end
  end.
Proof.
  unfold crawlLinktreeProfile, Visit, bind at 1.
  destruct (colly_fetch env link) as [err|err|doc].
  - reflexivity.
  - unfold visited. cbn. rewrite <- app_assoc. reflexivity.
  - unfold bind, lift, ret, emit. cbn -[handleOnHTML String.append collector].
    fold (extract doc).
    change (handleOnRequest (requestCallbacks collector)
                            (mkRequest (url_String env link)) w)
      with (Returns tt,
            mkWorld (fs w)
                    (trace w ++ [EvStdout (("Visiting: " +:+ url_String env link)
                                           +:+ nl)])).
    cbn -[String.append extract]. unfold visited. rewrite <- app_assoc.
    destruct (extract doc) as [r|msg]; [|reflexivity].
    unfold validated.
    match goal with |- context [if ?b then _ else _] => destruct b end;
      reflexivity.
Qed.

Lemma validated_ok r :
  Title r ≠ EmptyString → ProfileName r ≠ EmptyString → validated r = (r, None).
Proof.
  intros Ht Hp. unfold validated.
  destruct (String.eqb_spec (Title r) EmptyString); [done|].
  destruct (String.eqb_spec (ProfileName r) EmptyString); done.
Qed.

Lemma validated_fail r :
  Title r = EmptyString ∨ ProfileName r = EmptyString →
  validated r = (Result_zero, Some validation_error).
Proof.
  intros H. unfold validated.
  destruct (String.eqb_spec (Title r) EmptyString); [done|].
  destruct (String.eqb_spec (ProfileName r) EmptyString); [done|].
  by destruct H.
Qed.

(** The crawl touches no file and fetches no image. *)
Lemma crawl_effects link w :
  let w' := (crawlLinktreeProfile env link w).2 in
  fs w' = fs w ∧ opened (trace w') = opened (trace w)
  ∧ downloads (trace w') = downloads (trace w)
  ∧ reported (trace w') = reported (trace w).
Proof.
  assert (Ho : ∀ s t, opened (t ++ [EvStdout s; EvRequest link]) = opened t).
  { induction t as [|[] t IH]; simpl; congruence. }
  assert (Hd : ∀ s t, downloads (t ++ [EvStdout s; EvRequest link]) = downloads t).
  { induction t as [|[] t IH]; simpl; congruence. }
  assert (Hr : ∀ s t, reported (t ++ [EvStdout s; EvRequest link]) = reported t).
  { induction t as [|[] t IH]; simpl; congruence. }
  rewrite crawl_unfold.
  destruct (colly_fetch env link) as [err|err|doc]; [done| |].
  - unfold visited; simpl. by rewrite Ho, Hd, Hr.
  - rewrite extract_spec. unfold visited; simpl. by rewrite Ho, Hd, Hr.
Qed.

End Crawl.

(** * Effects of the file and network steps *)

Section Effects.
Variable env : Env.

Lemma opened_app t1 t2 : opened (t1 ++ t2) = opened t1 ++ opened t2.
Proof. induction t1 as [|[] t1 IH]; simpl; congruence. Qed.

Lemma downloads_app t1 t2 : downloads (t1 ++ t2) = downloads t1 ++ downloads t2.
Proof. induction t1 as [|[] t1 IH]; simpl; congruence. Qed.

Lemma reported_app t1 t2 : reported (t1 ++ t2) = reported t1 ++ reported t2.
Proof. induction t1 as [|[] t1 IH]; simpl; congruence. Qed.

Ltac run_io :=
  unfold saveResultToFile, downloadProfileImage, os_WriteFile, io_Copy,
    os_Create, file_Write, http_get, Println, Fprintf_Stderr, bind, ret, emit,
    json.serialize, json.MarshalIndent;
  cbn -[String.append json.Indent json.Marshal pretty].

Create Rewrite HintDb traces.
Hint Rewrite opened_app downloads_app reported_app @app_nil_r : traces.

Ltac traces :=
  autorewrite with traces; cbn -[String.append json.Indent json.Marshal pretty];
  autorewrite with traces.

Ltac others := intros p Hp; by rewrite !lookup_insert_ne by done.

(** What [saveResultToFile] does: it opens the joined path, and when it
    returns no error the file holds the encoding of the record. *)
Lemma save_effects r fileName w :
  let path := filepath_Join env "." fileName in
  ∃ err w',
    saveResultToFile env r fileName w = (Returns err, w')
    ∧ opened (trace w') = opened (trace w) ++ [path]
    ∧ downloads (trace w') = downloads (trace w)
    ∧ reported (trace w') = reported (trace w)
    ∧ (∀ p, p ≠ path → fs w' !! p = fs w !! p)
    ∧ (err = None → fs w' !! path = Some (json.serialize r)).
Proof.
  intros path. run_io. fold path.
  destruct (os_open_error env path) as [e|] eqn:Ho;
    cbn -[String.append json.Indent json.Marshal].
  - eexists _, _. split; [reflexivity|]. traces. repeat split; done.
  - rewrite lookup_insert_eq. cbn -[String.append json.Indent json.Marshal].
    destruct (os_write_limit env path) as [[n e]|] eqn:Hl.
    + match goal with |- context [if ?b then _ else _] => destruct b end;
        cbn -[String.append json.Indent json.Marshal];
        eexists _, _; (split; [reflexivity|]); traces;
        repeat split; try done; try others.
      intros _. by rewrite lookup_insert_eq.
    + eexists _, _; (split; [reflexivity|]); traces.
      repeat split; try done; try others.
      intros _. by rewrite lookup_insert_eq.
Qed.

(** What [downloadProfileImage] does: one [http.Get] of the URL, nothing
    on stderr, no file touched but [fileName]; when it returns no error
    the file holds the body of a 200 response. *)
Lemma download_effects imgURL fileName w :
  ∃ err w',
    downloadProfileImage env imgURL fileName w = (Returns err, w')
    ∧ downloads (trace w') = downloads (trace w) ++ [imgURL]
    ∧ reported (trace w') = reported (trace w)
    ∧ (∀ p, p ≠ fileName → fs w' !! p = fs w !! p)
    ∧ (opened (trace w') = opened (trace w)
       ∨ opened (trace w') = opened (trace w) ++ [fileName])
    ∧ (err = None →
       opened (trace w') = opened (trace w) ++ [fileName]
       ∧ ∃ response, http_Get env imgURL = inr response
                     ∧ StatusCode response = 200%Z
                     ∧ fs w' !! fileName = Some (Body response)).
Proof.
  run_io.
  destruct (http_Get env imgURL) as [e|response] eqn:Hget;
    cbn -[String.append pretty].
  { eexists _, _; (split; [reflexivity|]); traces. repeat split; auto; done. }
  destruct (StatusCode response =? 200)%Z eqn:Hst; cbn -[String.append pretty].
  2:{ eexists _, _; (split; [reflexivity|]); traces. repeat split; auto; done. }
  apply Z.eqb_eq in Hst.
  destruct (os_open_error env fileName) as [e|] eqn:Ho; cbn -[String.append pretty].
  { eexists _, _; (split; [reflexivity|]); traces. repeat split; auto; done. }
  rewrite lookup_insert_eq. cbn -[String.append pretty].
  destruct (os_write_limit env fileName) as [[n e]|] eqn:Hl.
  - match goal with |- context [if ?b then _ else _] => destruct b end;
      cbn -[String.append pretty].
    + eexists _, _; (split; [reflexivity|]); traces.
      repeat split; auto; try done; try others.
    + destruct (BodyErr response) as [e'|] eqn:Hb;
        eexists _, _; (split; [reflexivity|]); traces;
        repeat split; auto; try done; try others.
      exists response. by rewrite lookup_insert_eq.
  - destruct (BodyErr response) as [e'|] eqn:Hb;
      cbn -[String.append pretty];
      eexists _, _; (split; [reflexivity|]); traces;
      repeat split; auto; try done; try others.
    exists response. by rewrite lookup_insert_eq.
Qed.

(** [main] with an identifier on the command line, step by step. *)
Lemma main_unfold prog ident more w :
  main env (prog :: ident :: more) w =
  match crawlLinktreeProfile env (profile_link ident) w with
  | (Returns (r, Some err), w1) =>
    Fprintf_Stderr ("Error during crawling: " +:+ err +:+ nl) w1
  | (Returns (r, None), w1) =>
    match saveResultToFile env r (ProfileName r +:+ ".json") w1 with
    | (Returns (Some err), w2) =>
      Fprintf_Stderr ("Failed to save result: " +:+ err +:+ nl) w2
    | (Returns None, w2) =>
      if nonempty (ProfileImg r) then
        match downloadProfileImage env (ProfileImg r) (ident +:+ ".jpg") w2 with
        | (Returns (Some err), w3) =>
          Fprintf_Stderr ("Failed to download profile image: " +:+ err +:+ nl) w3
        | (Returns None, w3) => (Returns tt, w3)
        | (Panics msg, w3) => (Panics msg, w3)
        end
      else (Returns tt, w2)
    | (Panics msg, w2) => (Panics msg, w2)
    end
  | (Panics msg, w1) => (Panics msg, w1)
  end.
Proof.
  unfold main. cbn -[String.append crawlLinktreeProfile saveResultToFile downloadProfileImage].
  unfold bind at 1. fold (profile_link ident).
  destruct (crawlLinktreeProfile env (profile_link ident) w) as [[[r [err|]]|msg] w1];
    try reflexivity.
  unfold bind at 1.
  destruct (saveResultToFile env r _ w1) as [[[err|]|msg] w2]; try reflexivity.
  destruct (nonempty (ProfileImg r)); [|reflexivity].
  unfold bind at 1.
  destruct (downloadProfileImage env _ _ w2) as [[[err|]|msg] w3]; reflexivity.
Qed.

End Effects.

(** * The claims about extraction and validation *)

(** C1.  On a fetched page the validation step of [crawlLinktreeProfile]
    fails exactly when the extracted title or the extracted profile name is
    empty: with both non-empty the record is returned with no error,
    whatever the links, icon links and profile image are; with either one
    empty the validation error is returned. *)
Theorem validation_exact (env : Env) (link : string) (doc : Document) (w : World) :
  colly_fetch env link = VisitFetched doc →
  ∃ r, extract doc = Returns r
    ∧ Title r = last_text (doc sel_title) EmptyString
    ∧ ProfileName r = last_text (doc sel_profile_title) EmptyString
    ∧ (Title r ≠ EmptyString ∧ ProfileName r ≠ EmptyString →
       (crawlLinktreeProfile env link w).1 = Returns (r, None))
    ∧ (Title r = EmptyString ∨ ProfileName r = EmptyString →
       (crawlLinktreeProfile env link w).1
       = Returns (Result_zero, Some validation_error)).
Proof.
  intros Hfetch. eexists. split; [apply extract_spec|].
  split; [reflexivity|]. split; [reflexivity|].
  rewrite crawl_unfold, Hfetch, extract_spec. cbn [fst].
  split.
  - intros [Ht Hp]. by rewrite validated_ok.
  - intros H. by rewrite validated_fail.
Qed.

Lemma validation_exact_witness :
  ∃ r, extract page_jane = Returns r
    ∧ Title r = last_text (page_jane sel_title) EmptyString
    ∧ ProfileName r = last_text (page_jane sel_profile_title) EmptyString
    ∧ (Title r ≠ EmptyString ∧ ProfileName r ≠ EmptyString →
       (crawlLinktreeProfile (env_404 page_jane) (profile_link "jane") world0).1
       = Returns (r, None))
    ∧ (Title r = EmptyString ∨ ProfileName r = EmptyString →
       (crawlLinktreeProfile (env_404 page_jane) (profile_link "jane") world0).1
       = Returns (Result_zero, Some validation_error)).
Proof.
  apply (validation_exact (env_404 page_jane) (profile_link "jane") page_jane world0).
  reflexivity.
Defined.

(** C4.  A link-button node whose label text or whose href is empty adds no
    entry: the link rule returns the record it was given, without a panic,
    so the size of the links mapping is unchanged; and the extraction of a
    page gives the same links with or without such a node. *)
Theorem link_rule_skips_empty (e : HTMLElement) (r : Result) :
  linkLabel e = EmptyString ∨ href e = EmptyString →
  onLinkButton e r = Returns r
  ∧ (∀ r', onLinkButton e r = Returns r' → maplen (Links r') = maplen (Links r))
  ∧ (∀ before after g,
       entries_after linkLabel (before ++ e :: after) g
       = entries_after linkLabel (before ++ after) g).
Proof.
  intros H.
  assert (Hw : writes linkLabel e = false).
  { unfold writes. apply andb_false_iff.
    destruct H as [H|H]; [left|right]; by apply nonempty_false. }
  assert (Hr : onLinkButton e r = Returns r).
  { unfold onLinkButton. unfold writes, linkLabel, href in Hw. by rewrite Hw. }
  split; [done|]. split.
  - intros r' Hr'. rewrite Hr in Hr'. by inversion Hr'.
  - intros before after g. rewrite !entries_after_app.
    unfold entries_after at 1. simpl. by rewrite Hw.
Qed.

Lemma link_rule_skips_empty_witness :
  let e := node EmptyString [("href", "https://b.example")] EmptyString EmptyString in
  onLinkButton e initial_result = Returns initial_result
  ∧ (∀ r', onLinkButton e initial_result = Returns r' →
           maplen (Links r') = maplen (Links initial_result))
  ∧ (∀ before after g,
       entries_after linkLabel (before ++ e :: after) g
       = entries_after linkLabel (before ++ after) g).
Proof.
  intros e. apply (link_rule_skips_empty e initial_result).
  left. reflexivity.
Defined.

(** C5, as stated, fails: of three link buttons with the label Shop and
    non-empty hrefs, the first and the second are two such nodes, and the
    value under Shop in the links of the record the crawl returns is not
    the href of the second, the later of the two, but that of the third. *)
Lemma links_last_write_counterexample :
  let e1 := node EmptyString [("href", "https://a.example")] "Shop" EmptyString in
  let e2 := node EmptyString [("href", "https://b.example")] "Shop" EmptyString in
  let e3 := node EmptyString [("href", "https://c.example")] "Shop" EmptyString in
  page_shops sel_LinkButton = [] ++ e1 :: [] ++ e2 :: [e3]
  ∧ linkLabel e1 = "Shop" ∧ linkLabel e2 = "Shop" ∧ "Shop" ≠ EmptyString
  ∧ href e1 ≠ EmptyString ∧ href e2 ≠ EmptyString
  ∧ ∃ r, extract page_shops = Returns r
      ∧ (crawlLinktreeProfile (env_ok page_shops) (profile_link "jane") world0).1
        = Returns (r, None)
      ∧ mapaccess (Links r) "Shop" = Some (href e3)
      ∧ mapaccess (Links r) "Shop" ≠ Some (href e2).
Proof.
  cbv zeta. split; [reflexivity|]. split; [reflexivity|]. split; [reflexivity|].
  split; [discriminate|]. split; [discriminate|]. split; [discriminate|].
  exists (mkResult (Some {["Shop" := "https://c.example"]}) (Some ∅)
            "Jane | Linktree" "Jane Doe" "https://cdn.example/img.jpg").
  split; [vm_compute; reflexivity|]. split; [vm_compute; reflexivity|].
  split; [reflexivity|]. intros H. vm_compute in H. discriminate H.
Qed.

(** C5, amended.  Of two link-button nodes with the same non-empty label
    and non-empty hrefs, the later in document order overwrites the
    earlier: the value under the label in the links mapping of the
    extracted record is the href of the last node, from the later of the
    two on, that writes under the label, so it is the later node's href
    when no node after it does; the same holds of the record the crawl
    returns. *)
Theorem links_last_write_wins (env : Env) (link : string) (doc : Document) (w : World)
        (l1 l2 l3 : list HTMLElement) (e1 e2 : HTMLElement) (k : string) :
  doc sel_LinkButton = l1 ++ e1 :: l2 ++ e2 :: l3 →
  linkLabel e1 = k → linkLabel e2 = k → k ≠ EmptyString →
  href e1 ≠ EmptyString → href e2 ≠ EmptyString →
  ∃ r, extract doc = Returns r
    ∧ mapaccess (Links r) k = Some (last_write linkLabel k l3 (href e2))
    ∧ (Forall (fun e => ¬ (linkLabel e = k ∧ writes linkLabel e = true)) l3 →
       mapaccess (Links r) k = Some (href e2))
    ∧ (colly_fetch env link = VisitFetched doc →
       ∀ r', (crawlLinktreeProfile env link w).1 = Returns (r', None) → r' = r).
Proof.
  intros Hdoc Hk1 Hk2 Hk Hh1 Hh2.
  assert (Hlookup :
    entries_after linkLabel (doc sel_LinkButton) ∅ !! k
    = Some (last_write linkLabel k l3 (href e2))).
  { rewrite Hdoc.
    change (l1 ++ e1 :: l2 ++ e2 :: l3) with (l1 ++ (e1 :: l2) ++ [e2] ++ l3).
    rewrite !app_assoc, entries_after_app. apply entries_after_last.
    rewrite entries_after_app. unfold entries_after at 1. simpl.
    assert (Hw : writes linkLabel e2 = true).
    { unfold writes. apply andb_true_iff. split; apply nonempty_true; congruence. }
    rewrite Hw, Hk2. apply lookup_insert_eq. }
  eexists. split; [apply extract_spec|]. split; [exact Hlookup|]. split.
  - intros Hl3. cbn [mapaccess Links]. rewrite Hlookup.
    by rewrite last_write_none.
  - intros Hfetch r' Hr'.
    rewrite crawl_unfold, Hfetch, extract_spec in Hr'. cbn [fst] in Hr'.
    unfold validated in Hr'. cbn [Title ProfileName] in Hr'.
    destruct (_ || _) in Hr'; by inversion Hr'.
Qed.

Lemma links_last_write_wins_witness :
  ∃ r, extract page_links = Returns r
    ∧ mapaccess (Links r) "Shop"
      = Some (last_write linkLabel "Shop"
                [node EmptyString [] "Shop" EmptyString] "https://c.example")
    ∧ (Forall (fun e => ¬ (linkLabel e = "Shop" ∧ writes linkLabel e = true))
              [node EmptyString [] "Shop" EmptyString] →
       mapaccess (Links r) "Shop" = Some "https://c.example")
    ∧ (colly_fetch (env_404 page_links) (profile_link "jane")
       = VisitFetched page_links →
       ∀ r', (crawlLinktreeProfile (env_404 page_links) (profile_link "jane")
                world0).1 = Returns (r', None) → r' = r).
Proof.
  apply (links_last_write_wins (env_404 page_links) (profile_link "jane")
           page_links world0
           []
           [node EmptyString [("href", "https://b.example")] EmptyString EmptyString]
           [node EmptyString [] "Shop" EmptyString]
           (node EmptyString [("href", "https://a.example")] "Shop" EmptyString)
           (node EmptyString [("href", "https://c.example")] "Shop" EmptyString)
           "Shop").
  - reflexivity.
  - reflexivity.
  - reflexivity.
  - discriminate.
  - discriminate.
  - discriminate.
Defined.

(** C10.  Whenever [crawlLinktreeProfile] returns an error, for a failed
    visit as for a failed validation, the record returned with it is the
    zero value: empty strings and maps without entries. *)
Theorem crawl_error_zero (env : Env) (link : string) (w w' : World)
        (r : Result) (err : error) :
  crawlLinktreeProfile env link w = (Returns (r, Some err), w') →
  r = Result_zero
  ∧ Title r = EmptyString ∧ ProfileName r = EmptyString
  ∧ ProfileImg r = EmptyString
  ∧ maplen (Links r) = 0%nat ∧ maplen (IconLinks r) = 0%nat.
Proof.
  intros H. rewrite crawl_unfold in H.
  assert (Hz : r = Result_zero).
  { destruct (colly_fetch env link) as [e|e|doc].
    - by inversion H.
    - by inversion H.
    - rewrite extract_spec in H. unfold validated in H.
      destruct (_ || _) in H; by inversion H. }
  subst r. repeat split.
Qed.

Lemma crawl_error_zero_witness :
  Result_zero = Result_zero
  ∧ Title Result_zero = EmptyString ∧ ProfileName Result_zero = EmptyString
  ∧ ProfileImg Result_zero = EmptyString
  ∧ maplen (Links Result_zero) = 0%nat ∧ maplen (IconLinks Result_zero) = 0%nat.
Proof.
  apply (crawl_error_zero (env_404 page_untitled) (profile_link "jane")
           world0 (visited (env_404 page_untitled) (profile_link "jane") world0)
           Result_zero validation_error).
  reflexivity.
Defined.

(** * The claims about [main] *)

Lemma crawl_returns (env : Env) (link : string) (w : World) :
  ∃ r err w1, crawlLinktreeProfile env link w = (Returns (r, err), w1).
Proof.
  rewrite crawl_unfold.
  destruct (colly_fetch env link) as [e|e|doc]; [by eauto..|].
  rewrite extract_spec. destruct (validated _). by eauto.
Qed.

Lemma snoc_ne {A} (l : list A) (x : A) : l ++ [x] ≠ l.
Proof.
  intros H. apply (f_equal length) in H. rewrite length_app in H.
  simpl in H. lia.
Qed.

(** C3.  In a run of [main] that reports nothing on stderr, the crawl has
    returned a record, the first file opened is the one named by the
    extracted profile name followed by .json (placed by [filepath.Join]
    under the working directory), and the image, fetched when the record
    names one, goes to the file named by the identifier given on the
    command line followed by .jpg.  In any run, a file that is opened is
    one of these two. *)
Theorem output_file_names (env : Env) (prog ident : string) (more : list string)
        (w : World) :
  let run := main env (prog :: ident :: more) w in
  let crawled r w1 :=
    crawlLinktreeProfile env (profile_link ident) w = (Returns (r, None), w1) in
  let jsonPath r := filepath_Join env "." (ProfileName r +:+ ".json") in
  let imgPath := ident +:+ ".jpg" in
  (reported (trace run.2) = reported (trace w) →
   ∃ r w1, crawled r w1
     ∧ run.1 = Returns tt
     ∧ opened (trace run.2)
       = opened (trace w)
         ++ jsonPath r :: (if nonempty (ProfileImg r) then [imgPath] else []))
  ∧ (∃ files, opened (trace run.2) = opened (trace w) ++ files
       ∧ ∀ p, In p files →
              p = imgPath ∨ ∃ r w1, crawled r w1 ∧ p = jsonPath r).
Proof.
  intros run crawled jsonPath imgPath. subst run.
  rewrite main_unfold.
  destruct (crawl_returns env (profile_link ident) w) as (r & err & w1 & Hc).
  pose proof (crawl_effects env (profile_link ident) w) as Hce.
  rewrite Hc in Hce |- *. cbn [snd] in Hce.
  destruct Hce as (Hfs1 & Ho1 & Hd1 & Hr1).
  destruct err as [err|].
  { unfold Fprintf_Stderr, emit. cbn [snd trace]. split.
    - intros Hrep. exfalso.
      rewrite reported_app, Hr1 in Hrep. by apply snoc_ne in Hrep.
    - exists []. rewrite opened_app, Ho1. split; [done|]. by intros p []. }
  destruct (save_effects env r (ProfileName r +:+ ".json") w1)
    as (serr & w2 & Hs & Ho2 & Hd2 & Hr2 & _ & _).
  fold (jsonPath r) in Ho2. rewrite Hs.
  assert (Hjson : ∀ p, In p [jsonPath r] →
            p = imgPath ∨ ∃ r' w1', crawled r' w1' ∧ p = jsonPath r').
  { intros p [<-|[]]. right. exists r, w1. split; [exact Hc|reflexivity]. }
  destruct serr as [serr|].
  { unfold Fprintf_Stderr, emit. cbn [snd trace]. split.
    - intros Hrep. exfalso.
      rewrite reported_app, Hr2, Hr1 in Hrep. by apply snoc_ne in Hrep.
    - exists [jsonPath r]. rewrite opened_app, Ho2, Ho1, app_nil_r.
      split; [done|exact Hjson]. }
  destruct (nonempty (ProfileImg r)) eqn:Himg.
  2:{ cbn [snd]. split.
      - intros _. exists r, w1. split; [exact Hc|]. split; [done|].
        by rewrite Himg, Ho2, Ho1.
      - exists [jsonPath r]. rewrite Ho2, Ho1. split; [done|exact Hjson]. }
  destruct (download_effects env (ProfileImg r) imgPath w2)
    as (derr & w3 & Hdl & Hd3 & Hr3 & _ & Ho3 & Hok).
  fold imgPath. rewrite Hdl.
  assert (Hfiles : ∃ files, opened (trace w3) = opened (trace w) ++ files
            ∧ ∀ p, In p files →
                p = imgPath ∨ ∃ r' w1', crawled r' w1' ∧ p = jsonPath r').
  { destruct Ho3 as [Ho3|Ho3]; rewrite Ho3, Ho2, Ho1.
    - exists [jsonPath r]. split; [done|exact Hjson].
    - exists [jsonPath r; imgPath]. rewrite <- app_assoc. split; [done|].
      intros p [<-|[<-|[]]]; [|by left]. right. exists r, w1. split; [exact Hc|reflexivity]. }
  destruct derr as [derr|].
  { unfold Fprintf_Stderr, emit. cbn [snd trace]. split.
    - intros Hrep. exfalso.
      rewrite reported_app, Hr3, Hr2, Hr1 in Hrep. by apply snoc_ne in Hrep.
    - rewrite opened_app, app_nil_r. exact Hfiles. }
  cbn [snd]. split; [|exact Hfiles].
  intros _. exists r, w1. split; [exact Hc|]. split; [done|].
  destruct (Hok eq_refl) as [Ho3' _].
  rewrite Himg, Ho3', Ho2, Ho1, <- app_assoc. reflexivity.
Qed.

Lemma output_file_names_witness :
  let run := main (env_ok page_jane) ["crawler"; "jane"] world0 in
  ∃ r w1,
    crawlLinktreeProfile (env_ok page_jane) (profile_link "jane") world0
    = (Returns (r, None), w1)
    ∧ run.1 = Returns tt
    ∧ opened (trace run.2)
      = opened (trace world0)
        ++ filepath_Join (env_ok page_jane) "." (ProfileName r +:+ ".json")
        :: (if nonempty (ProfileImg r) then ["jane" +:+ ".jpg"] else []).
Proof.
  apply (output_file_names (env_ok page_jane) "crawler" "jane" [] world0).
  vm_compute. reflexivity.
Defined.

(** C7.  After the JSON file has been written, the image is fetched only
    when the record's profile image URL is not empty; a failed download is
    reported on stderr and nothing else happens: [main] returns normally,
    and every file other than the image's own, the JSON file among them,
    is as the JSON write left it. *)
Theorem download_failure_not_fatal (env : Env) (prog ident : string)
        (more : list string) (w w1 w2 : World) (r : Result) :
  crawlLinktreeProfile env (profile_link ident) w = (Returns (r, None), w1) →
  saveResultToFile env r (ProfileName r +:+ ".json") w1 = (Returns None, w2) →
  let run := main env (prog :: ident :: more) w in
  let jsonPath := filepath_Join env "." (ProfileName r +:+ ".json") in
  let imgPath := ident +:+ ".jpg" in
  run.1 = Returns tt
  ∧ fs w2 !! jsonPath = Some (json.serialize r)
  ∧ downloads (trace run.2)
    = downloads (trace w)
      ++ (if nonempty (ProfileImg r) then [ProfileImg r] else [])
  ∧ (ProfileImg r = EmptyString → run.2 = w2)
  ∧ (∀ err w3,
       ProfileImg r ≠ EmptyString →
       downloadProfileImage env (ProfileImg r) imgPath w2 = (Returns (Some err), w3) →
       run.2 = mkWorld (fs w3)
                 (trace w3 ++ [EvStderr ("Failed to download profile image: "
                                         +:+ err +:+ nl)])
       ∧ (∀ p, p ≠ imgPath → fs run.2 !! p = fs w2 !! p)
       ∧ (jsonPath ≠ imgPath → fs run.2 !! jsonPath = Some (json.serialize r))).
Proof.
  intros Hc Hs run jsonPath imgPath. subst run.
  rewrite main_unfold, Hc, Hs.
  pose proof (crawl_effects env (profile_link ident) w) as Hce.
  rewrite Hc in Hce. cbn [snd] in Hce. destruct Hce as (_ & _ & Hd1 & _).
  destruct (save_effects env r (ProfileName r +:+ ".json") w1)
    as (serr & w2' & Hs' & _ & Hd2 & _ & _ & Hjson).
  rewrite Hs in Hs'. inversion Hs'; subst serr w2'. clear Hs'.
  specialize (Hjson eq_refl). fold jsonPath in Hjson.
  destruct (download_effects env (ProfileImg r) imgPath w2)
    as (derr & w3 & Hdl & Hd3 & _ & Hfs3 & _ & _).
  destruct (nonempty (ProfileImg r)) eqn:Himg.
  - apply nonempty_true in Himg. fold imgPath. rewrite Hdl.
    split; [by destruct derr|]. split; [done|]. split.
    { destruct derr as [derr|]; unfold Fprintf_Stderr, emit; cbn [snd trace].
      - rewrite downloads_app. simpl. rewrite app_nil_r.
        by rewrite Hd3, Hd2, Hd1.
      - by rewrite Hd3, Hd2, Hd1. }
    split; [intros Hempty; by rewrite Hempty in Himg|].
    intros err w3' _ Hfail. inversion Hfail; subst derr w3'.
    unfold Fprintf_Stderr, emit. cbn [snd fs].
    split; [reflexivity|]. split; [exact Hfs3|].
    intros Hne. by rewrite Hfs3.
  - apply nonempty_false in Himg.
    repeat split; try done; try (intros; congruence).
    cbn [snd]. by rewrite app_nil_r, Hd2, Hd1.
Qed.

Lemma download_failure_not_fatal_witness :
  let env := env_404 page_jane in
  let w1 := visited env (profile_link "jane") world0 in
  let r := mkResult (Some {["My Site" := "https://example.com"]}) (Some ∅)
             "Jane | Linktree" "Jane Doe" "https://cdn.example/img.jpg" in
  let w2 := (saveResultToFile env r "Jane Doe.json" w1).2 in
  let run := main env ["crawler"; "jane"] world0 in
  run.1 = Returns tt
  ∧ fs w2 !! "Jane Doe.json" = Some (json.serialize r)
  ∧ downloads (trace run.2) = [] ++ ["https://cdn.example/img.jpg"]
  ∧ (ProfileImg r = EmptyString → run.2 = w2)
  ∧ (∀ err w3,
       ProfileImg r ≠ EmptyString →
       downloadProfileImage env (ProfileImg r) "jane.jpg" w2 = (Returns (Some err), w3) →
       run.2 = mkWorld (fs w3)
                 (trace w3 ++ [EvStderr ("Failed to download profile image: "
                                         +:+ err +:+ nl)])
       ∧ (∀ p, p ≠ "jane.jpg" → fs run.2 !! p = fs w2 !! p)
       ∧ ("Jane Doe.json" ≠ "jane.jpg" →
          fs run.2 !! "Jane Doe.json" = Some (json.serialize r))).
Proof.
  intros env w1 r w2 run.
  apply (download_failure_not_fatal env "crawler" "jane" [] world0 w1 w2 r).
  - vm_compute. reflexivity.
  - vm_compute. reflexivity.
Defined.

(** C8.  When the page fetch fails, or the extracted title or profile
    name is empty (as on a page without the profile-title node), [main]
    stops after reporting the error: no file is opened or written and no
    image is fetched. *)
Theorem failure_writes_nothing (env : Env) (prog ident : string)
        (more : list string) (w : World) :
  (∃ err, colly_fetch env (profile_link ident) = VisitRejected err
          ∨ colly_fetch env (profile_link ident) = VisitFailed err)
  ∨ (∃ doc r, colly_fetch env (profile_link ident) = VisitFetched doc
              ∧ extract doc = Returns r
              ∧ (Title r = EmptyString ∨ ProfileName r = EmptyString)) →
  let run := main env (prog :: ident :: more) w in
  run.1 = Returns tt
  ∧ fs run.2 = fs w
  ∧ opened (trace run.2) = opened (trace w)
  ∧ downloads (trace run.2) = downloads (trace w)
  ∧ ∃ err, reported (trace run.2)
           = reported (trace w) ++ ["Error during crawling: " +:+ err +:+ nl].
Proof.
  intros H run. subst run. rewrite main_unfold.
  pose proof (crawl_effects env (profile_link ident) w) as Hce.
  assert (Hc : ∃ r err w1,
    crawlLinktreeProfile env (profile_link ident) w = (Returns (r, Some err), w1)).
  { rewrite crawl_unfold.
    destruct H as [[err [H|H]]|(doc & r & H & Hx & Hv)]; rewrite H.
    - by eauto.
    - by eauto.
    - rewrite Hx, validated_fail by done. by eauto. }
  destruct Hc as (r & err & w1 & Hc). rewrite Hc in Hce |- *.
  cbn [snd] in Hce. destruct Hce as (Hfs & Ho & Hd & Hr).
  unfold Fprintf_Stderr, emit. cbn [fst snd fs trace].
  rewrite opened_app, downloads_app, reported_app, Ho, Hd, Hr. simpl.
  rewrite !app_nil_r. repeat split; try done. by exists err.
Qed.

Lemma failure_writes_nothing_witness :
  let run := main (env_ok page_untitled) ["crawler"; "jane"] world0 in
  run.1 = Returns tt
  ∧ fs run.2 = fs world0
  ∧ opened (trace run.2) = opened (trace world0)
  ∧ downloads (trace run.2) = downloads (trace world0)
  ∧ ∃ err, reported (trace run.2)
           = reported (trace world0) ++ ["Error during crawling: " +:+ err +:+ nl].
Proof.
  apply (failure_writes_nothing (env_ok page_untitled) "crawler" "jane" [] world0).
  right. exists page_untitled.
  exists (mkResult (Some {["My Site" := "https://example.com"]}) (Some ∅)
            "Jane | Linktree" EmptyString "https://cdn.example/img.jpg").
  split; [reflexivity|]. split; [vm_compute; reflexivity|].
  right. reflexivity.
Defined.

(** * The claims about serialization *)

Example serialize_record_jane :
  serialize record_jane = json_text "{
  'links': {
    'My Site': 'https://example.com'
  },
  'icon_links': {},
  'title': 'Jane | Linktree',
  'profile_name': 'Jane Doe',
  'profile_img': 'https://cdn.example/img.jpg'
}".
Proof. vm_compute. reflexivity. Qed.

Example serialize_zero_value :
  serialize Result_zero = json_text "{
  'links': null,
  'icon_links': null,
  'title': '',
  'profile_name': '',
  'profile_img': ''
}".
Proof. vm_compute. reflexivity. Qed.

Example appendString_html :
  appendString "a<b>&c" = json_text "'a\u003cb\u003e\u0026c'".
Proof. vm_compute. reflexivity. Qed.

Example appendString_raw_byte :
  appendString (String (byte_of 0xFF) EmptyString) = json_text "'\ufffd'".
Proof. vm_compute. reflexivity. Qed.

Example deserialize_by_hand :
  deserialize (json_text "{ 'title' : 'J\u0061ne',
    'links': {'a': '1', 'b': null, 'a': '\n'}, 'profile_img': null }")
  = Some (mkResult (Some {["a" := string_of [newline]; "b" := EmptyString]})
                   None "Jane" EmptyString EmptyString).
Proof. vm_compute. reflexivity. Qed.

Example ValidString_examples :
  ValidString "Jane Doe" = true
  ∧ ValidString (string_of (map byte_of [0xC3; 0xA9])) = true
  ∧ ValidString (string_of (map byte_of [0xF0; 0x9F; 0x98; 0x80])) = true
  ∧ ValidString (string_of (map byte_of [0xFF])) = false
  ∧ ValidString (string_of (map byte_of [0xC0; 0x80])) = false
  ∧ ValidString (string_of (map byte_of [0xED; 0xA0; 0x80])) = false
  ∧ ValidString (string_of (map byte_of [0xE2; 0x82])) = false.
Proof. vm_compute. repeat split. Qed.

(** C2, as stated, fails: the encoding of the record of [page_jane], which
    passes validation, is not the object with the keys links, iconLinks,
    title, profileName, profileImageURL. *)
Lemma serialized_keys_counterexample :
  validated record_jane = (record_jane, None)
  ∧ serialize record_jane
    ≠ layoutObject [] (bytes_of "  ") (claimed_fields record_jane).
Proof.
  split; [reflexivity|].
  intros H. vm_compute in H. discriminate H.
Qed.

(** C2, amended.  For every record the serializer produces pretty-printed
    JSON, indented by two spaces per level, whose keys are, in this order,
    links, icon_links, title, profile_name, profile_img: the names of the
    struct's json tags. *)
Theorem serialized_keys_in_order (v : Result) :
  serialize v
  = layoutObject [] (bytes_of "  ")
      [ ("links", MapField (Links v));
        ("icon_links", MapField (IconLinks v));
        ("title", StringField (Title v));
        ("profile_name", StringField (ProfileName v));
        ("profile_img", StringField (ProfileImg v)) ].
Proof.
  unfold serialize, MarshalIndent. cbn [fst].
  change (bytes_of EmptyString) with (@nil ascii).
  rewrite Indent_Marshal. reflexivity.
Qed.

(** C6, as stated, fails: a record with non-empty title and profile name
    whose profile image URL holds a byte that is not UTF-8 does not come
    back; the encoder writes the replacement character for the byte. *)
Lemma roundtrip_counterexample :
  Title record_raw_byte ≠ EmptyString
  ∧ ProfileName record_raw_byte ≠ EmptyString
  ∧ deserialize (serialize record_raw_byte) ≠ Some record_raw_byte
  ∧ deserialize (serialize record_raw_byte)
    = Some (set_ProfileImg (string_of (utf8.EncodeRune utf8.RuneError))
                           record_raw_byte).
Proof.
  split; [discriminate|]. split; [discriminate|]. split.
  - intros H. apply (f_equal (fun o => ProfileImg <$> o)) in H.
    vm_compute in H. discriminate H.
  - vm_compute. reflexivity.
Qed.

(** C6, amended.  For every record with non-empty title and profile name
    whose strings (title, profile name, profile image URL and the keys and
    values of both mappings) are well-formed UTF-8, with arbitrary links
    and icon-links mappings, empty and nil ones included, deserializing
    the serializer's output yields the record. *)
Theorem roundtrip_valid_utf8 (r : Result) :
  Title r ≠ EmptyString → ProfileName r ≠ EmptyString →
  valid_record r = true →
  deserialize (serialize r) = Some r.
Proof.
  intros _ _ Hv. unfold valid_record in Hv.
  repeat (apply andb_true_iff in Hv as [Hv ?]).
  rename Hv into Ht, H into Hicons, H0 into Hlinks, H1 into Himg, H2 into Hname.
  unfold deserialize, Unmarshal, serialize, MarshalIndent. cbn [fst].
  change (bytes_of EmptyString) with (@nil ascii).
  rewrite Indent_Marshal. unfold fields.
  change (bytes_of "  ") with indent2.
  set (data := layoutObject [] indent2 _).
  assert (Hfuel : (5 + maplen (Links r) + maplen (IconLinks r) <= length data)%nat).
  { subst data. unfold layoutObject. cbn [layoutMembers]. unfold layoutMember.
    cbn [fst snd layoutValue]. cbn [length]. rewrite !length_app. cbn [length].
    rewrite !length_app. cbn [length]. rewrite !length_app. cbn [length].
    pose proof (layoutMap_length 1 (Links r)).
    pose proof (layoutMap_length 1 (IconLinks r)). lia. }
  generalize dependent (length data). intros fuel Hfuel.
  do 5 (destruct fuel as [|fuel]; [lia|]).
  subst data. unfold layoutObject.
  rewrite (skipSpace_keep "{"%char) by reflexivity.
  change (eqc "{" "{") with true. cbn iota.
  rewrite skipSpace_newline.
  cbn [layoutMembers].
  norm_app. rewrite skipSpace_member.
  match goal with
  | |- context [layoutMember [] indent2 1 ("links", ?fv) ++ ?X] =>
    destruct (member_head ("links", fv) X) as [Y HY]
  end.
  rewrite HY.
  change (eqc dquote "}") with false. cbn iota. rewrite <- HY. clear Y HY.
  rewrite (decode_member _ _ _ _ _ (set_Links (Links r) Result_zero));
    [|reflexivity|apply decodeField_links; [reflexivity|done|lia]].
  next_member.
  rewrite (decode_member _ _ _ _ _
             (set_IconLinks (IconLinks r) (set_Links (Links r) Result_zero)));
    [|reflexivity|apply decodeField_icon_links; [reflexivity|done|lia]].
  next_member.
  rewrite (decode_member _ _ _ _ _
             (set_Title (Title r)
                (set_IconLinks (IconLinks r) (set_Links (Links r) Result_zero))));
    [|reflexivity|by apply decodeField_title].
  next_member.
  rewrite (decode_member _ _ _ _ _
             (set_ProfileName (ProfileName r)
                (set_Title (Title r)
                   (set_IconLinks (IconLinks r) (set_Links (Links r) Result_zero)))));
    [|reflexivity|by apply decodeField_profile_name].
  next_member.
  rewrite (decode_member _ _ _ _ _
             (set_ProfileImg (ProfileImg r)
                (set_ProfileName (ProfileName r)
                   (set_Title (Title r)
                      (set_IconLinks (IconLinks r) (set_Links (Links r) Result_zero))))));
    [|reflexivity|by apply decodeField_profile_img].
  change (appendNewline [] indent2 0 ++ ["}"%char])
    with (appendNewline [] indent2 0 ++ "}"%char :: []).
  rewrite skipSpace_newline.
  rewrite (skipSpace_keep "}"%char) by reflexivity.
  change (eqc "}" "}") with true. cbn iota.
  destruct r. reflexivity.
Qed.

Lemma roundtrip_valid_utf8_witness :
  deserialize (serialize record_jane) = Some record_jane.
Proof.
  apply (roundtrip_valid_utf8 record_jane).
  - discriminate.
  - discriminate.
  - vm_compute. reflexivity.
Defined.

(** C9.  The record starts with both mappings allocated and empty; every
    extraction rule keeps them allocated and never panics, so they are
    allocated in the record extracted from any page; and for a page with no
    link and no icon matches both are written as the empty object, not as
    null. *)
Theorem maps_always_initialized :
  (Links initial_result = Some ∅ ∧ IconLinks initial_result = Some ∅)
  ∧ (∀ rule, In rule [onTitle; onLinkButton; onSocialIcon; onProfileTitle;
                      onProfileImage] →
       ∀ e r, initialized r → ∃ r', rule e r = Returns r' ∧ initialized r')
  ∧ (∀ doc, ∃ r, extract doc = Returns r ∧ initialized r)
  ∧ (∀ doc r, extract doc = Returns r →
       doc sel_LinkButton = [] → doc sel_SocialIcon = [] →
       Links r = Some ∅ ∧ IconLinks r = Some ∅
       ∧ layoutMap [] (bytes_of "  ") 1 (Links r) = bytes_of "{}"
       ∧ layoutMap [] (bytes_of "  ") 1 (IconLinks r) = bytes_of "{}"
       ∧ serialize r
         = layoutObject [] (bytes_of "  ")
             [ ("links", MapField (Some ∅));
               ("icon_links", MapField (Some ∅));
               ("title", StringField (Title r));
               ("profile_name", StringField (ProfileName r));
               ("profile_img", StringField (ProfileImg r)) ]).
Proof.
  split; [by split|]. split; [|split].
  - intros rule Hin e r [[g Hg] [g' Hg']].
    cbn [In] in Hin.
    destruct Hin as [<-|[<-|[<-|[<-|[<-|[]]]]]].
    + eexists. split; [reflexivity|]. split; cbn; eauto.
    + unfold onLinkButton.
      destruct (nonempty _ && nonempty _).
      * rewrite Hg. cbn. eexists. split; [reflexivity|]. split; cbn; eauto.
      * eexists. split; [reflexivity|]. split; eauto.
    + unfold onSocialIcon.
      destruct (nonempty _ && nonempty _).
      * rewrite Hg'. cbn. eexists. split; [reflexivity|]. split; cbn; eauto.
      * eexists. split; [reflexivity|]. split; eauto.
    + eexists. split; [reflexivity|]. split; cbn; eauto.
    + unfold onProfileImage. destruct (nonempty _);
        eexists; (split; [reflexivity|]); split; cbn; eauto.
  - intros doc. eexists. split; [apply extract_spec|]. split; cbn; eauto.
  - intros doc r Hr Hl Hi. rewrite extract_spec, Hl, Hi in Hr.
    inversion Hr; subst r. cbn [Links IconLinks Title ProfileName ProfileImg].
    repeat split; try reflexivity.
    unfold serialize, MarshalIndent. cbn [fst].
    change (bytes_of EmptyString) with (@nil ascii).
    rewrite Indent_Marshal. reflexivity.
Qed.

Lemma maps_always_initialized_witness :
  ∃ r, extract page_plain = Returns r
       ∧ Links r = Some ∅ ∧ IconLinks r = Some ∅
       ∧ layoutMap [] (bytes_of "  ") 1 (Links r) = bytes_of "{}"
       ∧ layoutMap [] (bytes_of "  ") 1 (IconLinks r) = bytes_of "{}".
Proof.
  destruct maps_always_initialized as (_ & _ & Hall & Hempty).
  destruct (Hall page_plain) as (r & Hr & _).
  exists r. split; [exact Hr|].
  destruct (Hempty page_plain r Hr eq_refl eq_refl) as (H1 & H2 & H3 & H4 & _).
  repeat split; assumption.
Defined.

(** * Further properties of the extraction rules *)

Lemma writes_false label e :
  label e = EmptyString ∨ href e = EmptyString → writes label e = false.
Proof.
  intros H. unfold writes. apply andb_false_iff.
  destruct H as [H|H]; [left|right]; by apply nonempty_false.
Qed.

Lemma writes_true label e :
  writes label e = true ↔ label e ≠ EmptyString ∧ href e ≠ EmptyString.
Proof.
  unfold writes. rewrite andb_true_iff, !nonempty_true. done.
Qed.

(** X1.  A social-icon node whose title or whose href is empty adds no
    entry: the icon rule returns the record it was given, and the extracted
    icon links are the same with or without the node. *)
Theorem icon_rule_skips_empty (e : HTMLElement) (r : Result) :
  iconLabel e = EmptyString ∨ href e = EmptyString →
  onSocialIcon e r = Returns r
  ∧ (∀ before after g,
       entries_after iconLabel (before ++ e :: after) g
       = entries_after iconLabel (before ++ after) g).
Proof.
  intros H. pose proof (writes_false iconLabel e H) as Hw. split.
  - unfold onSocialIcon. unfold writes, iconLabel, href in Hw. by rewrite Hw.
  - intros before after g. rewrite !entries_after_app.
    unfold entries_after at 1. simpl. by rewrite Hw.
Qed.

Lemma icon_rule_skips_empty_witness :
  let e := node EmptyString [("href", "https://x.example")] EmptyString EmptyString in
  onSocialIcon e initial_result = Returns initial_result
  ∧ (∀ before after g,
       entries_after iconLabel (before ++ e :: after) g
       = entries_after iconLabel (before ++ after) g).
Proof.
  intros e. apply (icon_rule_skips_empty e initial_result). left. reflexivity.
Defined.

(** X2.  Of two social-icon nodes with the same non-empty title and
    non-empty hrefs, the later overwrites the earlier: the value under the
    title in the extracted icon links is the href of the last node, from
    the later of the two on, that writes under it. *)
Theorem icons_last_write_wins (doc : Document)
        (l1 l2 l3 : list HTMLElement) (e1 e2 : HTMLElement) (k : string) :
  doc sel_SocialIcon = l1 ++ e1 :: l2 ++ e2 :: l3 →
  iconLabel e1 = k → iconLabel e2 = k → k ≠ EmptyString →
  href e1 ≠ EmptyString → href e2 ≠ EmptyString →
  ∃ r, extract doc = Returns r
    ∧ mapaccess (IconLinks r) k = Some (last_write iconLabel k l3 (href e2))
    ∧ (Forall (fun e => ¬ (iconLabel e = k ∧ writes iconLabel e = true)) l3 →
       mapaccess (IconLinks r) k = Some (href e2)).
Proof.
  intros Hdoc Hk1 Hk2 Hk Hh1 Hh2.
  assert (Hlookup :
    entries_after iconLabel (doc sel_SocialIcon) ∅ !! k
    = Some (last_write iconLabel k l3 (href e2))).
  { rewrite Hdoc.
    change (l1 ++ e1 :: l2 ++ e2 :: l3) with (l1 ++ (e1 :: l2) ++ [e2] ++ l3).
    rewrite !app_assoc, entries_after_app. apply entries_after_last.
    rewrite entries_after_app. unfold entries_after at 1. simpl.
    assert (Hw : writes iconLabel e2 = true) by (apply writes_true; split; congruence).
    rewrite Hw, Hk2. apply lookup_insert_eq. }
  eexists. split; [apply extract_spec|]. split; [exact Hlookup|].
  intros Hl3. cbn [mapaccess IconLinks]. rewrite Hlookup.
  by rewrite last_write_none.
Qed.

Lemma icons_last_write_wins_witness :
  ∃ r, extract page_icons = Returns r
    ∧ mapaccess (IconLinks r) "X" = Some "https://x.example/new".
Proof.
  destruct (icons_last_write_wins page_icons [] [] []
              (node EmptyString [("href", "https://x.example/old")] EmptyString "X")
              (node EmptyString [("href", "https://x.example/new")] EmptyString "X")
              "X" eq_refl eq_refl eq_refl)
    as (r & Hx & _ & H); try discriminate.
  exists r. split; [exact Hx|]. apply H. constructor.
Defined.

Lemma entries_after_origin label ms g k v :
  entries_after label ms g !! k = Some v →
  g !! k = Some v
  ∨ ∃ e, In e ms ∧ label e = k ∧ href e = v ∧ writes label e = true.
Proof.
  revert g. induction ms as [|e ms IH]; intros g H; [by left|].
  unfold entries_after in *. simpl in H. apply IH in H.
  destruct H as [H|(e' & Hin & H)]; [|right; exists e'; split; [by right|done]].
  destruct (writes label e) eqn:Hw; [|by left].
  destruct (decide (label e = k)) as [Heq|Hne].
  - subst k. rewrite lookup_insert_eq in H. inversion H; subst.
    right. exists e. split; [by left|done].
  - rewrite lookup_insert_ne in H by done. by left.
Qed.

Lemma entries_after_size label ms (g : gmap string string) :
  (size (entries_after label ms g) <= size g + length ms)%nat.
Proof.
  revert g. induction ms as [|e ms IH]; intros g; [simpl; lia|].
  unfold entries_after in *. simpl. etransitivity; [apply IH|].
  destruct (writes label e); [|lia].
  destruct (g !! label e) eqn:Hl.
  - rewrite map_size_insert_Some by eauto. lia.
  - rewrite map_size_insert_None by done. lia.
Qed.

(** X3.  Every entry of an extracted mapping comes from a node: its key
    and its value are not empty and are the label and the href of one of
    the matched nodes; the mapping has at most as many entries as there
    are matches. *)
Theorem entries_come_from_nodes (doc : Document) :
  ∃ r, extract doc = Returns r
    ∧ (∀ k v, mapaccess (Links r) k = Some v →
         k ≠ EmptyString ∧ v ≠ EmptyString
         ∧ ∃ e, In e (doc sel_LinkButton) ∧ linkLabel e = k ∧ href e = v)
    ∧ (∀ k v, mapaccess (IconLinks r) k = Some v →
         k ≠ EmptyString ∧ v ≠ EmptyString
         ∧ ∃ e, In e (doc sel_SocialIcon) ∧ iconLabel e = k ∧ href e = v)
    ∧ (maplen (Links r) <= length (doc sel_LinkButton))%nat
    ∧ (maplen (IconLinks r) <= length (doc sel_SocialIcon))%nat.
Proof.
  eexists. split; [apply extract_spec|].
  cbn [mapaccess maplen Links IconLinks].
  assert (Horigin : ∀ label ms k v,
    entries_after label ms ∅ !! k = Some v →
    k ≠ EmptyString ∧ v ≠ EmptyString
    ∧ ∃ e, In e ms ∧ label e = k ∧ href e = v).
  { intros label ms k v H. apply entries_after_origin in H.
    destruct H as [H|(e & Hin & Hk & Hv & Hw)]; [by rewrite lookup_empty in H|].
    apply writes_true in Hw as [Hk' Hv']. subst k v.
    split; [done|]. split; [done|]. by exists e. }
  split; [apply Horigin|]. split; [apply Horigin|].
  split.
  - pose proof (entries_after_size linkLabel (doc sel_LinkButton) ∅) as H.
    by rewrite map_size_empty in H.
  - pose proof (entries_after_size iconLabel (doc sel_SocialIcon) ∅) as H.
    by rewrite map_size_empty in H.
Qed.

Lemma entries_come_from_nodes_witness :
  ∃ r, extract page_links = Returns r
    ∧ (maplen (Links r) <= 4)%nat
    ∧ ∀ k v, mapaccess (Links r) k = Some v → k ≠ EmptyString ∧ v ≠ EmptyString.
Proof.
  destruct (entries_come_from_nodes page_links) as (r & Hx & Hl & _ & Hn & _).
  exists r. split; [exact Hx|]. split; [exact Hn|].
  intros k v H. destruct (Hl k v H) as (Hk & Hv & _). split; assumption.
Defined.

(** X4.  Each rule writes its own field only: whatever the node, the
    record a rule returns agrees with the record it was given on the four
    fields of the other rules. *)
Theorem rules_write_own_field (e : HTMLElement) (r r' : Result) :
  (onTitle e r = Returns r' →
   Links r' = Links r ∧ IconLinks r' = IconLinks r
   ∧ ProfileName r' = ProfileName r ∧ ProfileImg r' = ProfileImg r)
  ∧ (onLinkButton e r = Returns r' →
     IconLinks r' = IconLinks r ∧ Title r' = Title r
     ∧ ProfileName r' = ProfileName r ∧ ProfileImg r' = ProfileImg r)
  ∧ (onSocialIcon e r = Returns r' →
     Links r' = Links r ∧ Title r' = Title r
     ∧ ProfileName r' = ProfileName r ∧ ProfileImg r' = ProfileImg r)
  ∧ (onProfileTitle e r = Returns r' →
     Links r' = Links r ∧ IconLinks r' = IconLinks r
     ∧ Title r' = Title r ∧ ProfileImg r' = ProfileImg r)
  ∧ (onProfileImage e r = Returns r' →
     Links r' = Links r ∧ IconLinks r' = IconLinks r
     ∧ Title r' = Title r ∧ ProfileName r' = ProfileName r).
Proof.
  unfold onTitle, onLinkButton, onSocialIcon, onProfileTitle, onProfileImage,
    mapassign.
  split; [|split; [|split; [|split]]];
    repeat match goal with
           | |- context [if ?b then _ else _] => destruct b
           | |- context [match ?m with Some _ => _ | None => _ end] => destruct m
           end;
    intros Hrun; inversion Hrun; subst; repeat split; reflexivity.
Qed.

Lemma handleOnHTML_app {S} (a b : list (string * (HTMLElement → S → outcome S)))
      (doc : Document) (s : S) :
  handleOnHTML (a ++ b) doc s
  = match handleOnHTML a doc s with
    | Returns s' => handleOnHTML b doc s'
    | Panics msg => Panics msg
    end.
Proof.
  revert s. induction a as [|cb a IH]; intros s; [done|].
  cbn [app handleOnHTML]. destruct (each cb.2 (doc cb.1) s); [apply IH|done].
Qed.

Ltac run_each :=
  repeat first
    [ rewrite each_onTitle
    | rewrite each_onProfileTitle
    | rewrite each_onProfileImage
    | erewrite each_onLinkButton by reflexivity
    | erewrite each_onSocialIcon by reflexivity ].

Lemma registered_cases cb :
  In cb (htmlCallbacks collector) →
  cb = (sel_title, onTitle) ∨ cb = (sel_LinkButton, onLinkButton)
  ∨ cb = (sel_SocialIcon, onSocialIcon)
  ∨ cb = (sel_profile_title, onProfileTitle)
  ∨ cb = (sel_ProfileImage, onProfileImage).
Proof.
  cbn. intros [H|[H|[H|[H|[H|[]]]]]]; subst; tauto.
Qed.

Lemma callback_runs doc cb r :
  In cb (htmlCallbacks collector) → initialized r →
  ∃ r', each cb.2 (doc cb.1) r = Returns r' ∧ initialized r'.
Proof.
  intros Hin [[g Hg] [g' Hg']]. destruct r as [l i t p im]. cbn in Hg, Hg'. subst.
  destruct (registered_cases cb Hin) as [->|[->|[->|[->| ->]]]];
    cbn [fst snd]; run_each; eexists; (split; [reflexivity|]);
    split; cbn; eauto.
Qed.

Lemma callbacks_commute doc a b r :
  In a (htmlCallbacks collector) → In b (htmlCallbacks collector) →
  initialized r →
  handleOnHTML [a; b] doc r = handleOnHTML [b; a] doc r.
Proof.
  intros Ha Hb [[g Hg] [g' Hg']]. destruct r as [l i t p im]. cbn in Hg, Hg'. subst.
  destruct (registered_cases a Ha) as [->|[->|[->|[->| ->]]]];
    destruct (registered_cases b Hb) as [->|[->|[->|[->| ->]]]];
    cbn [handleOnHTML fst snd]; run_each; cbn -[entries_after];
    run_each; reflexivity.
Qed.

Lemma handleOnHTML_permutation doc cbs cbs' :
  cbs ≡ₚ cbs' →
  Forall (fun cb => In cb (htmlCallbacks collector)) cbs →
  ∀ r, initialized r → handleOnHTML cbs doc r = handleOnHTML cbs' doc r.
Proof.
  induction 1 as [|x l l' Hp IH|x y l|l l' l'' Hp1 IH1 Hp2 IH2];
    intros Hall r Hr.
  - reflexivity.
  - inversion Hall as [|? ? Hx Hl]; subst. cbn [handleOnHTML].
    destruct (callback_runs doc x r Hx Hr) as (r' & -> & Hr'). by apply IH.
  - inversion Hall as [|? ? Hy Hl]; subst.
    inversion Hl as [|? ? Hx Hl']; subst.
    change (y :: x :: l) with ([y; x] ++ l).
    change (x :: y :: l) with ([x; y] ++ l).
    rewrite !handleOnHTML_app. by rewrite callbacks_commute.
  - rewrite IH1 by done. apply IH2; [|done]. by rewrite <- Hp1.
Qed.

(** X5.  The record extracted does not depend on the order in which the
    five callbacks are registered: run in any order of the registration
    list, they give the record of [extract]. *)
Theorem extraction_order_independent (doc : Document)
        (cbs : list (string * (HTMLElement → Result → outcome Result))) :
  cbs ≡ₚ htmlCallbacks collector →
  handleOnHTML cbs doc initial_result = extract doc.
Proof.
  intros Hp. unfold extract.
  apply handleOnHTML_permutation; [done| |].
  - rewrite Hp. apply Forall_forall. by intros cb Hin%list_elem_of_In.
  - split; cbn; eauto.
Qed.

Lemma extraction_order_independent_witness :
  handleOnHTML (rev (htmlCallbacks collector)) page_jane initial_result
  = extract page_jane.
Proof.
  apply (extraction_order_independent page_jane (rev (htmlCallbacks collector))).
  symmetry. apply Permutation_rev.
Defined.

(** X6.  The title rule overwrites without looking at the text, the image
    rule only with a non-empty source: the title is the text of the last
    title node even when that text is empty, in which case the crawl fails
    validation whatever the earlier title nodes held, while an image node
    with an empty [src] leaves the URL found before it in place. *)
Theorem title_overwrites_image_keeps (env : Env) (link : string) (doc : Document)
        (w : World) (ts ims : list HTMLElement) (t im : HTMLElement) :
  doc sel_title = ts ++ [t] → doc sel_ProfileImage = ims ++ [im] →
  ∃ r, extract doc = Returns r
    ∧ Title r = Text t
    ∧ (Attr im "src" = EmptyString → ProfileImg r = last_src ims EmptyString)
    ∧ (Attr im "src" ≠ EmptyString → ProfileImg r = Attr im "src")
    ∧ (Text t = EmptyString → colly_fetch env link = VisitFetched doc →
       (crawlLinktreeProfile env link w).1
       = Returns (Result_zero, Some validation_error)).
Proof.
  intros Ht Hi. eexists. split; [apply extract_spec|].
  cbn [Title ProfileImg]. rewrite Ht, Hi.
  unfold last_text, last_src. rewrite !fold_left_app. cbn [fold_left].
  split; [done|]. split; [|split].
  - intros ->%nonempty_false. done.
  - intros ->%nonempty_true. done.
  - intros Hempty Hfetch. rewrite crawl_unfold, Hfetch, extract_spec. cbn [fst].
    rewrite validated_fail; [done|]. left. cbn [Title]. rewrite Ht.
    unfold last_text. by rewrite fold_left_app.
Qed.

Lemma title_overwrites_image_keeps_witness :
  ∃ r, extract page_blank_last = Returns r
    ∧ Title r = EmptyString
    ∧ ProfileImg r = "https://cdn.example/img.jpg"
    ∧ (crawlLinktreeProfile (env_ok page_blank_last) (profile_link "jane")
         world0).1
      = Returns (Result_zero, Some validation_error).
Proof.
  destruct (title_overwrites_image_keeps (env_ok page_blank_last)
              (profile_link "jane") page_blank_last world0
              [node "Jane | Linktree" [] EmptyString EmptyString]
              [node EmptyString [("src", "https://cdn.example/img.jpg")]
                    EmptyString EmptyString]
              (node EmptyString [] EmptyString EmptyString)
              (node EmptyString [("src", EmptyString)] EmptyString EmptyString)
              eq_refl eq_refl) as (r & Hr & Ht & Hi1 & _ & Hv).
  exists r. split; [exact Hr|]. split; [exact Ht|].
  split; [exact (Hi1 eq_refl)|]. apply Hv; reflexivity.
Defined.

(** X7.  A record that the crawl returns without an error has a non-empty
    title and profile name and both mappings allocated; it is the record
    extracted from the page that was fetched, and the crawl has written
    nothing. *)
Theorem crawl_success_record (env : Env) (link : string) (w w1 : World) (r : Result) :
  crawlLinktreeProfile env link w = (Returns (r, None), w1) →
  Title r ≠ EmptyString ∧ ProfileName r ≠ EmptyString ∧ initialized r
  ∧ (∃ doc, colly_fetch env link = VisitFetched doc ∧ extract doc = Returns r)
  ∧ fs w1 = fs w ∧ requested (trace w1) = requested (trace w) ++ [link].
Proof.
  intros H. rewrite crawl_unfold in H.
  destruct (colly_fetch env link) as [e|e|doc] eqn:Hf; try by inversion H.
  pose proof (extract_spec doc) as Hx. rewrite Hx in H.
  unfold validated in H.
  destruct (String.eqb_spec (Title (mkResult
     (Some (entries_after linkLabel (doc sel_LinkButton) ∅))
     (Some (entries_after iconLabel (doc sel_SocialIcon) ∅))
     (last_text (doc sel_title) EmptyString)
     (last_text (doc sel_profile_title) EmptyString)
     (last_src (doc sel_ProfileImage) EmptyString))) EmptyString) as [|Ht];
    [by inversion H|].
  destruct (String.eqb_spec (ProfileName (mkResult
     (Some (entries_after linkLabel (doc sel_LinkButton) ∅))
     (Some (entries_after iconLabel (doc sel_SocialIcon) ∅))
     (last_text (doc sel_title) EmptyString)
     (last_text (doc sel_profile_title) EmptyString)
     (last_src (doc sel_ProfileImage) EmptyString))) EmptyString) as [|Hp];
    [by inversion H|].
  cbn [orb] in H. inversion H; subst r w1.
  split; [exact Ht|]. split; [exact Hp|]. split; [split; cbn; eauto|].
  split; [by exists doc|]. split; [reflexivity|].
  unfold visited. cbn [trace].
  induction (trace w) as [|[] t IH]; cbn; congruence.
Qed.

Lemma crawl_success_record_witness :
  Title record_jane ≠ EmptyString ∧ ProfileName record_jane ≠ EmptyString
  ∧ initialized record_jane.
Proof.
  destruct (crawl_success_record (env_404 page_jane) (profile_link "jane")
              world0 (visited (env_404 page_jane) (profile_link "jane") world0)
              record_jane)
    as (Ht & Hp & Hi & _).
  - vm_compute. reflexivity.
  - split; [exact Ht|]. split; [exact Hp|exact Hi].
Defined.

(** * Further properties of the file and network steps *)

Lemma requested_app t1 t2 : requested (t1 ++ t2) = requested t1 ++ requested t2.
Proof. induction t1 as [|[] t1 IH]; simpl; congruence. Qed.

Lemma printed_app t1 t2 : printed (t1 ++ t2) = printed t1 ++ printed t2.
Proof. induction t1 as [|[] t1 IH]; simpl; congruence. Qed.

Ltac step_io :=
  unfold saveResultToFile, downloadProfileImage, os_WriteFile, io_Copy,
    os_Create, file_Write, http_get, Println, Fprintf_Stderr, bind, ret, emit,
    json.serialize, json.MarshalIndent;
  cbn -[String.append json.Indent json.Marshal pretty].

Create Rewrite HintDb effects.
#[local] Hint Rewrite opened_app downloads_app reported_app requested_app
  printed_app @app_nil_r : effects.

Ltac cut_short n data H :=
  match goal with
  | |- context [if ?b then _ else _] =>
    change b with (n <? length data)%nat;
    destruct (Nat.ltb_spec n (length data)) as [H|H]
  end.

Ltac effects :=
  autorewrite with effects; cbn -[String.append json.Indent json.Marshal pretty];
  autorewrite with effects.

(** X8.  [saveResultToFile] returns nil exactly when the joined path can be
    opened and the write is not cut short.  It then prints its message and
    the file holds the encoding, whatever it held before.  An error is
    always the write error, never a marshalling error, and nothing is
    printed; if the path cannot be opened no file changes, and once it is
    opened the file holds a prefix of the encoding. *)
Theorem save_outcomes (env : Env) (r : Result) (fileName : string) (w : World) :
  let path := filepath_Join env "." fileName in
  ∃ err w',
    saveResultToFile env r fileName w = (Returns err, w')
    ∧ (err = None ↔
       os_open_error env path = None
       ∧ ∀ n e, os_write_limit env path = Some (n, e) →
                (length (serialize r) ≤ n)%nat)
    ∧ (err = None →
       fs w' = <[path := serialize r]> (fs w)
       ∧ printed (trace w')
         = printed (trace w) ++ ["Data successfully saved to " +:+ path +:+ nl])
    ∧ (err ≠ None →
       printed (trace w') = printed (trace w)
       ∧ ∃ e, err = Some ("error writing result to file: " +:+ e))
    ∧ (os_open_error env path ≠ None → fs w' = fs w)
    ∧ (os_open_error env path = None →
       ∃ n, fs w' !! path = Some (firstn n (serialize r))).
Proof.
  intros path. step_io. fold path.
  destruct (os_open_error env path) as [e|] eqn:Ho;
    cbn -[String.append json.Indent json.Marshal].
  { eexists _, _. split; [reflexivity|]. effects.
    split; [split; [done|by intros [? _]]|].
    split; [done|]. split; [by eauto|]. split; done. }
  rewrite lookup_insert_eq. cbn -[String.append json.Indent json.Marshal].
  set (data := Indent [] _ (Marshal r)).
  destruct (os_write_limit env path) as [[n e]|] eqn:Hl.
  - match goal with |- context [if ?b then _ else _] => destruct b eqn:Hb end;
      change ((n <? length data)%nat = true) in Hb ||
      change ((n <? length data)%nat = false) in Hb;
      cbn -[String.append json.Indent json.Marshal];
      eexists _, _; (split; [reflexivity|]); effects;
      rewrite insert_insert_eq.
    + apply Nat.ltb_lt in Hb. split.
      { split; [done|]. intros [_ H]. specialize (H n e eq_refl). lia. }
      split; [done|]. split; [by eauto|]. split; [done|]. intros _. exists n.
      by rewrite lookup_insert_eq.
    + apply Nat.ltb_ge in Hb. split.
      { split; [|done]. intros _. split; [done|].
        intros n' e' [= <- <-]. done. }
      split; [done|]. split; [done|]. split; [done|]. intros _.
      exists (length data). by rewrite lookup_insert_eq, firstn_all.
  - eexists _, _; (split; [reflexivity|]); effects. rewrite insert_insert_eq.
    split; [done|]. split; [done|]. split; [done|]. split; [done|]. intros _.
    exists (length data). by rewrite lookup_insert_eq, firstn_all.
Qed.

Lemma save_outcomes_witness :
  ∃ err w',
    saveResultToFile (env_full page_jane) record_jane "Jane Doe.json" world0
    = (Returns err, w')
    ∧ ∃ n, fs w' !! "Jane Doe.json" = Some (firstn n (serialize record_jane)).
Proof.
  pose proof (save_outcomes (env_full page_jane) record_jane "Jane Doe.json"
                world0) as H.
  cbv zeta in H. destruct H as (err & w' & Hs & _ & _ & _ & _ & Hp).
  exists err, w'. split; [exact Hs|]. apply Hp. reflexivity.
Defined.

(** X9.  [downloadProfileImage] returns nil exactly when the GET succeeds
    with status 200, the file can be created, the copy is not cut short
    and the body ends without an error; the file then holds the body and
    the success line is printed.  Otherwise nothing is printed. *)
Theorem download_outcomes (env : Env) (imgURL fileName : string) (w : World) :
  ∃ err w',
    downloadProfileImage env imgURL fileName w = (Returns err, w')
    ∧ (err = None ↔
       ∃ response, http_Get env imgURL = inr response
         ∧ StatusCode response = 200%Z
         ∧ os_open_error env fileName = None
         ∧ (∀ n e, os_write_limit env fileName = Some (n, e) →
                   (length (Body response) ≤ n)%nat)
         ∧ BodyErr response = None)
    ∧ (err = None →
       ∃ response, http_Get env imgURL = inr response
         ∧ fs w' = <[fileName := Body response]> (fs w)
         ∧ printed (trace w')
           = printed (trace w)
             ++ ["Profile image successfully saved as " +:+ fileName +:+ nl])
    ∧ (err ≠ None → printed (trace w') = printed (trace w)).
Proof.
  step_io.
  destruct (http_Get env imgURL) as [e|response] eqn:Hget;
    cbn -[String.append pretty].
  { eexists _, _; (split; [reflexivity|]); effects.
    split; [split; [done|by intros (? & ? & _)]|]. split; done. }
  destruct (StatusCode response =? 200)%Z eqn:Hst; cbn -[String.append pretty].
  2:{ eexists _, _; (split; [reflexivity|]); effects.
      apply Z.eqb_neq in Hst.
      split; [split; [done|by intros (? & [= <-] & ? & _)]|]. split; done. }
  apply Z.eqb_eq in Hst.
  destruct (os_open_error env fileName) as [e|] eqn:Ho; cbn -[String.append pretty].
  { eexists _, _; (split; [reflexivity|]); effects.
    split; [split; [done|by intros (? & ? & ? & ? & _)]|]. split; done. }
  rewrite lookup_insert_eq. cbn -[String.append pretty].
  destruct (os_write_limit env fileName) as [[n e]|] eqn:Hl.
  - cut_short n (Body response) Hlt; cbn -[String.append pretty].
    + eexists _, _; (split; [reflexivity|]); effects.
      split; [|split; done].
      split; [done|]. intros (? & [= <-] & _ & _ & H & _).
      specialize (H n e eq_refl). lia.
    + destruct (BodyErr response) as [e'|] eqn:Hb;
        eexists _, _; (split; [reflexivity|]); effects.
      * split; [|split; done].
        split; [done|]. intros (? & [= <-] & _ & _ & _ & ?). congruence.
      * rewrite insert_insert_eq. split; [|split; [|done]].
        -- split; [|done]. intros _. exists response.
           repeat (split; [done|]). split; [|done]. by intros ? ? [= <- <-].
        -- intros _. by exists response.
  - destruct (BodyErr response) as [e'|] eqn:Hb;
      cbn -[String.append pretty];
      eexists _, _; (split; [reflexivity|]); effects.
    + split; [|split; done].
      split; [done|]. intros (? & [= <-] & _ & _ & _ & ?). congruence.
    + rewrite insert_insert_eq. split; [|split; [|done]].
      * split; [|done]. intros _. exists response. by repeat (split; [done|]).
      * intros _. by exists response.
Qed.

Lemma download_outcomes_witness :
  ∃ err w',
    downloadProfileImage (env_404 page_jane) "https://cdn.example/img.jpg"
      "jane.jpg" world0 = (Returns err, w')
    ∧ (err = None → False)
    ∧ printed (trace w') = printed (trace world0).
Proof.
  destruct (download_outcomes (env_404 page_jane) "https://cdn.example/img.jpg"
              "jane.jpg" world0) as (err & w' & Hd & Hiff & _ & Hp).
  assert (Hne : err = None → False).
  { intros He. apply Hiff in He as (response & Hget & Hst & _).
    cbn in Hget. injection Hget as <-. discriminate Hst. }
  exists err, w'. split; [exact Hd|]. split; [exact Hne|]. apply Hp. exact Hne.
Defined.

(** X10.  A download that fails before the file is created (the GET fails,
    the status is not 200 or the file cannot be created) changes no file:
    an image saved by an earlier run is kept.  Once the file is created its
    old content is gone, also when the download then fails: the file holds
    what the copy wrote, which is the whole delivered body when the body
    ends in an error and the first [n] bytes when the write stops there. *)
Theorem download_partial_file (env : Env) (imgURL fileName : string) (w : World) :
  let w' := (downloadProfileImage env imgURL fileName w).2 in
  ((∃ e, http_Get env imgURL = inl e)
   ∨ (∃ response, http_Get env imgURL = inr response
                  ∧ StatusCode response ≠ 200%Z)
   ∨ os_open_error env fileName ≠ None →
   fs w' = fs w)
  ∧ (∀ response, http_Get env imgURL = inr response →
       StatusCode response = 200%Z → os_open_error env fileName = None →
       (∀ p, p ≠ fileName → fs w' !! p = fs w !! p)
       ∧ (os_write_limit env fileName = None →
          fs w' !! fileName = Some (Body response))
       ∧ (∀ n e, os_write_limit env fileName = Some (n, e) →
          fs w' !! fileName = Some (firstn n (Body response))
          ∧ ((n < length (Body response))%nat →
             (downloadProfileImage env imgURL fileName w).1
             = Returns (Some ("failed to save image to file: " +:+ e))))).
Proof.
  step_io.
  destruct (http_Get env imgURL) as [e|response] eqn:Hget;
    cbn -[String.append pretty].
  { split; [done|]. by intros ? [=]. }
  destruct (StatusCode response =? 200)%Z eqn:Hst; cbn -[String.append pretty].
  2:{ apply Z.eqb_neq in Hst. split; [done|]. by intros ? [= <-] ?. }
  apply Z.eqb_eq in Hst.
  destruct (os_open_error env fileName) as [e|] eqn:Ho; cbn -[String.append pretty].
  { split; [done|]. by intros ? _ _ [=]. }
  rewrite lookup_insert_eq. cbn -[String.append pretty].
  split.
  { intros [[e [=]]|[(resp & [= <-] & Hne)|Hne]]; done. }
  intros ? [= <-] _ _.
  destruct (os_write_limit env fileName) as [[n e]|] eqn:Hl.
  - cut_short n (Body response) Hlt; cbn -[String.append pretty].
    + split; [by intros p Hp; rewrite !lookup_insert_ne|]. split; [done|].
      intros ? ? [= <- <-]. by rewrite lookup_insert_eq.
    + destruct (BodyErr response) as [e'|] eqn:Hb; cbn -[String.append pretty];
        (split; [by intros p Hp; rewrite !lookup_insert_ne|]); (split; [done|]);
        intros ? ? [= <- <-]; rewrite lookup_insert_eq, firstn_all2 by done;
        split; [done|lia|done|lia].
  - destruct (BodyErr response) as [e'|] eqn:Hb; cbn -[String.append pretty];
      (split; [by intros p Hp; rewrite !lookup_insert_ne|]);
      (split; [by rewrite lookup_insert_eq|done]).
Qed.

Lemma download_partial_file_witness :
  fs (downloadProfileImage (env_full page_jane) "https://cdn.example/img.jpg"
        "jane.jpg" world_old).2 !! "jane.jpg"
  = Some (bytes_of "JFIF").
Proof.
  destruct (download_partial_file (env_full page_jane)
              "https://cdn.example/img.jpg" "jane.jpg" world_old) as [_ H].
  destruct (H (mkResponse 200 (bytes_of "JFIF-data") None) eq_refl eq_refl eq_refl)
    as (_ & _ & H').
  destruct (H' 4%nat "no space left on device" eq_refl) as [H'' _].
  exact H''.
Defined.

(** * Further properties of [main] *)

(** X11.  Run without a profile name on the command line, [main] prints the
    usage line and does nothing else: no request, no download, no file
    opened or changed, nothing on stderr. *)
Theorem main_usage (env : Env) (args : list string) (w : World) :
  (length args < 2)%nat →
  let run := main env args w in
  run.1 = Returns tt
  ∧ printed (trace run.2)
    = printed (trace w) ++ ["Usage: go run main.go [profile_name]" +:+ nl]
  ∧ requested (trace run.2) = requested (trace w)
  ∧ downloads (trace run.2) = downloads (trace w)
  ∧ opened (trace run.2) = opened (trace w)
  ∧ reported (trace run.2) = reported (trace w)
  ∧ fs run.2 = fs w.
Proof.
  intros Hlen. unfold main. apply Nat.ltb_lt in Hlen. rewrite Hlen.
  unfold Println, emit. cbn -[String.append]. effects. done.
Qed.

Lemma main_usage_witness :
  printed (trace (main (env_ok page_jane) ["crawler"] world0).2)
  = printed (trace world0) ++ ["Usage: go run main.go [profile_name]" +:+ nl].
Proof.
  destruct (main_usage (env_ok page_jane) ["crawler"] world0) as (_ & H & _).
  - simpl. lia.
  - exact H.
Defined.

Lemma crawl_requested (env : Env) (link : string) (w : World) :
  let w1 := (crawlLinktreeProfile env link w).2 in
  requested (trace w1) = requested (trace w)
  ∨ requested (trace w1) = requested (trace w) ++ [link].
Proof.
  rewrite crawl_unfold.
  destruct (colly_fetch env link) as [e|e|doc]; [by left| |].
  - right. unfold visited. cbn -[String.append]. by effects.
  - rewrite extract_spec. right. unfold visited. cbn -[String.append].
    by effects.
Qed.

Lemma save_requested (env : Env) (r : Result) (fileName : string) (w : World) :
  requested (trace (saveResultToFile env r fileName w).2) = requested (trace w).
Proof.
  step_io.
  destruct (os_open_error env _); cbn -[String.append json.Indent json.Marshal];
    [by effects|].
  destruct (os_write_limit env _) as [[n e]|];
    [match goal with |- context [if ?b then _ else _] => destruct b end|];
    cbn -[String.append json.Indent json.Marshal]; by effects.
Qed.

Lemma download_requested (env : Env) (imgURL fileName : string) (w : World) :
  requested (trace (downloadProfileImage env imgURL fileName w).2)
  = requested (trace w).
Proof.
  step_io.
  destruct (http_Get env imgURL) as [e|response]; cbn -[String.append pretty];
    [by effects|].
  destruct (StatusCode response =? 200)%Z; cbn -[String.append pretty];
    [|by effects].
  destruct (os_open_error env _); cbn -[String.append pretty]; [by effects|].
  destruct (os_write_limit env _) as [[n e]|];
    [match goal with |- context [if ?b then _ else _] => destruct b end|];
    cbn -[String.append pretty]; try by effects.
  all: destruct (BodyErr response); cbn -[String.append pretty]; by effects.
Qed.

(** X12.  Whatever the page, the network and the file system do, [main]
    returns normally: no extraction rule writes to a nil map.  It reports
    at most one line on stderr, requests at most one page, the profile's,
    and fetches at most one image. *)
Theorem main_returns (env : Env) (prog ident : string) (more : list string)
        (w : World) :
  let run := main env (prog :: ident :: more) w in
  run.1 = Returns tt
  ∧ (reported (trace run.2) = reported (trace w)
     ∨ ∃ line, reported (trace run.2) = reported (trace w) ++ [line])
  ∧ (requested (trace run.2) = requested (trace w)
     ∨ requested (trace run.2) = requested (trace w) ++ [profile_link ident])
  ∧ (downloads (trace run.2) = downloads (trace w)
     ∨ ∃ url, downloads (trace run.2) = downloads (trace w) ++ [url]).
Proof.
  intros run. unfold run. rewrite main_unfold.
  pose proof (crawl_effects env (profile_link ident) w) as (_ & _ & Hd1 & Hr1).
  pose proof (crawl_requested env (profile_link ident) w) as Hq1.
  destruct (crawl_returns env (profile_link ident) w) as (r & err & w1 & Hc).
  rewrite Hc in *. cbn [snd] in *.
  destruct err as [err|].
  { unfold Fprintf_Stderr, emit. cbn -[String.append]. effects.
    rewrite Hd1, Hr1. split; [done|]. split; [by eauto|]. split; [done|by left]. }
  pose proof (save_requested env r (ProfileName r +:+ ".json") w1) as Hq2.
  destruct (save_effects env r (ProfileName r +:+ ".json") w1)
    as (err & w2 & Hs & _ & Hd2 & Hr2 & _).
  rewrite Hs in *. cbn [snd] in *.
  destruct err as [err|].
  { unfold Fprintf_Stderr, emit. cbn -[String.append]. effects.
    rewrite Hd2, Hr2, Hq2, Hd1, Hr1. split; [done|]. split; [by eauto|].
    split; [done|by left]. }
  destruct (nonempty (ProfileImg r)).
  2:{ cbn [fst snd]. rewrite Hd2, Hr2, Hq2, Hd1, Hr1. split; [done|].
      split; [by left|]. split; [done|by left]. }
  pose proof (download_requested env (ProfileImg r) (ident +:+ ".jpg") w2) as Hq3.
  destruct (download_effects env (ProfileImg r) (ident +:+ ".jpg") w2)
    as (err & w3 & Hdl & Hd3 & Hr3 & _).
  rewrite Hdl in *. cbn [snd] in *.
  destruct err as [err|].
  - unfold Fprintf_Stderr, emit. cbn -[String.append]. effects.
    rewrite Hd3, Hr3, Hq3, Hd2, Hr2, Hq2, Hd1, Hr1. split; [done|].
    split; [by eauto|]. split; [done|by eauto].
  - cbn [fst snd]. rewrite Hd3, Hr3, Hq3, Hd2, Hr2, Hq2, Hd1, Hr1.
    split; [done|]. split; [by left|]. split; [done|by eauto].
Qed.

(** A save that returns an error has printed nothing, and has changed no
    file if the path could not be opened. *)
Lemma save_error_effects (env : Env) (r : Result) (fileName : string)
      (w w' : World) (err : error) :
  saveResultToFile env r fileName w = (Returns (Some err), w') →
  printed (trace w') = printed (trace w)
  ∧ (os_open_error env (filepath_Join env "." fileName) ≠ None → fs w' = fs w).
Proof.
  step_io. set (path := filepath_Join env "." fileName).
  destruct (os_open_error env path) as [e|] eqn:Ho;
    cbn -[String.append json.Indent json.Marshal].
  { intros Heq. inversion Heq; subst. effects. done. }
  destruct (os_write_limit env path) as [[n e]|] eqn:Hl;
    [match goal with |- context [if ?b then _ else _] => destruct b end|];
    cbn -[String.append json.Indent json.Marshal];
    intros Heq; inversion Heq; subst; effects; (split; [done|congruence]).
Qed.

(** X13.  When the JSON file cannot be saved, [main] reports the failure
    and stops: the image is not fetched, no further file is opened, and
    the only line printed is the one announcing the visit, with the URL of
    the request as [r.URL.String()] gives it.  If the path cannot be
    opened, no file has changed. *)
Theorem save_failure_stops (env : Env) (prog ident : string) (more : list string)
        (w w1 w2 : World) (r : Result) (err : error) :
  crawlLinktreeProfile env (profile_link ident) w = (Returns (r, None), w1) →
  saveResultToFile env r (ProfileName r +:+ ".json") w1 = (Returns (Some err), w2) →
  let run := main env (prog :: ident :: more) w in
  let jsonPath := filepath_Join env "." (ProfileName r +:+ ".json") in
  run.1 = Returns tt
  ∧ reported (trace run.2)
    = reported (trace w) ++ ["Failed to save result: " +:+ err +:+ nl]
  ∧ downloads (trace run.2) = downloads (trace w)
  ∧ opened (trace run.2) = opened (trace w) ++ [jsonPath]
  ∧ printed (trace run.2)
    = printed (trace w)
      ++ [("Visiting: " +:+ url_String env (profile_link ident)) +:+ nl]
  ∧ (os_open_error env jsonPath ≠ None → fs run.2 = fs w).
Proof.
  intros Hc Hs run jsonPath. unfold run. rewrite main_unfold, Hc, Hs.
  pose proof (crawl_effects env (profile_link ident) w) as (Hf1 & Ho1 & Hd1 & Hr1).
  rewrite Hc in Hf1, Ho1, Hd1, Hr1. cbn [snd] in *.
  destruct (save_effects env r (ProfileName r +:+ ".json") w1)
    as (err' & w2' & Hs' & Ho2 & Hd2 & Hr2 & _).
  rewrite Hs in Hs'. injection Hs' as <- <-.
  destruct (save_error_effects env r (ProfileName r +:+ ".json") w1 w2 err Hs)
    as [Hp Hfs].
  unfold Fprintf_Stderr, emit. cbn -[String.append]. effects.
  rewrite Ho2, Hd2, Hr2, Ho1, Hd1, Hr1, Hp.
  split; [done|]. split; [done|]. split; [done|]. split; [done|]. split.
  - f_equal. rewrite crawl_unfold in Hc.
    destruct (colly_fetch env (profile_link ident)) as [e|e|doc];
      [by inversion Hc..|].
    rewrite extract_spec in Hc. injection Hc as _ <-.
    unfold visited. cbn -[String.append]. effects. reflexivity.
  - intros Hne. rewrite Hfs by done. exact Hf1.
Qed.

Lemma save_failure_stops_witness :
  let run := main (env_readonly page_jane) ["crawler"; "jane"] world0 in
  run.1 = Returns tt
  ∧ reported (trace run.2)
    = ["Failed to save result: error writing result to file: permission denied"
       +:+ nl]
  ∧ downloads (trace run.2) = []
  ∧ fs run.2 = ∅.
Proof.
  destruct (save_failure_stops (env_readonly page_jane) "crawler" "jane" []
              world0 (visited (env_readonly page_jane) (profile_link "jane") world0)
              (mkWorld ∅ (trace (visited (env_readonly page_jane)
                                         (profile_link "jane") world0)
                          ++ [EvOpen "Jane Doe.json"]))
              record_jane "error writing result to file: permission denied")
    as (H1 & H2 & H3 & _ & _ & H4).
  - vm_compute. reflexivity.
  - vm_compute. reflexivity.
  - split; [exact H1|]. split; [exact H2|]. split; [exact H3|].
    apply H4. discriminate.
Defined.

(** X14.  A run in which every step succeeds.  The page is fetched and
    passes validation, and the JSON path can be written: if the record names
    no image, the run ends with the encoding of the record in the JSON file
    and two lines printed; if it names one that is served with status 200
    and can be stored, the run ends with the encoding in the JSON file and
    the body in the image file, after exactly these effects in this
    order. *)
Theorem run_success (env : Env) (prog ident : string) (more : list string)
        (w : World) (doc : Document) (r : Result) :
  colly_fetch env (profile_link ident) = VisitFetched doc →
  extract doc = Returns r →
  Title r ≠ EmptyString → ProfileName r ≠ EmptyString →
  let jsonPath := filepath_Join env "." (ProfileName r +:+ ".json") in
  let imgPath := ident +:+ ".jpg" in
  let saved :=
    [EvStdout (("Visiting: " +:+ url_String env (profile_link ident)) +:+ nl);
     EvRequest (profile_link ident);
     EvOpen jsonPath; EvWrite jsonPath (serialize r);
     EvStdout (("Data successfully saved to " +:+ jsonPath) +:+ nl)] in
  os_open_error env jsonPath = None → os_write_limit env jsonPath = None →
  (ProfileImg r = EmptyString →
   main env (prog :: ident :: more) w
   = (Returns tt, mkWorld (<[jsonPath := serialize r]> (fs w)) (trace w ++ saved)))
  ∧ (∀ response,
       ProfileImg r ≠ EmptyString →
       http_Get env (ProfileImg r) = inr response →
       StatusCode response = 200%Z → BodyErr response = None →
       os_open_error env imgPath = None → os_write_limit env imgPath = None →
       main env (prog :: ident :: more) w
       = (Returns tt,
          mkWorld (<[imgPath := Body response]> (<[jsonPath := serialize r]> (fs w)))
                  (trace w ++ saved
                   ++ [EvHttpGet (ProfileImg r);
                       EvOpen imgPath; EvWrite imgPath (Body response);
                       EvStdout (("Profile image successfully saved as "
                                  +:+ imgPath) +:+ nl)]))).
Proof.
  intros Hfetch Hx Ht Hp jsonPath imgPath saved Ho Hl.
  assert (Hsave : saveResultToFile env r (ProfileName r +:+ ".json")
                    (visited env (profile_link ident) w)
                  = (Returns None,
                     mkWorld (<[jsonPath := serialize r]> (fs w))
                             (trace w ++ saved))).
  { step_io. fold jsonPath. rewrite Ho.
    cbn -[String.append json.Indent json.Marshal]. rewrite Hl.
    cbn -[String.append json.Indent json.Marshal].
    rewrite lookup_insert_eq, insert_insert_eq. unfold saved, serialize.
    cbn -[String.append json.Indent json.Marshal].
    rewrite <- !app_assoc. reflexivity. }
  rewrite main_unfold, crawl_unfold, Hfetch, Hx, validated_ok by done.
  rewrite Hsave. clear Hsave. unfold saved. generalize (serialize r) as data.
  intros data. split.
  - intros ->%nonempty_false. reflexivity.
  - intros response Hi%nonempty_true Hget Hst Hb Ho' Hl'. rewrite Hi.
    step_io. rewrite Hget. cbn -[String.append pretty].
    rewrite Hst. cbn -[String.append pretty]. fold imgPath. rewrite Ho'.
    cbn -[String.append pretty]. rewrite Hl'. cbn -[String.append pretty].
    rewrite Hb. cbn -[String.append pretty].
    rewrite lookup_insert_eq, insert_insert_eq. cbn -[String.append pretty].
    by rewrite <- !app_assoc.
Qed.

Lemma run_success_witness :
  let run := main (env_ok page_jane) ["crawler"; "jane"] world0 in
  run.1 = Returns tt
  ∧ fs run.2 !! "Jane Doe.json" = Some (serialize record_jane)
  ∧ fs run.2 !! "jane.jpg" = Some (bytes_of "JFIF").
Proof.
  destruct (run_success (env_ok page_jane) "crawler" "jane" [] world0
              page_jane record_jane) as [_ H].
  - reflexivity.
  - vm_compute. reflexivity.
  - discriminate.
  - discriminate.
  - reflexivity.
  - reflexivity.
  - specialize (H (mkResponse 200 (bytes_of "JFIF") None)).
    cbv zeta. rewrite H.
    + split; [reflexivity|]. split; vm_compute; reflexivity.
    + discriminate.
    + reflexivity.
    + reflexivity.
    + reflexivity.
    + reflexivity.
    + reflexivity.
Defined.

(** X15.  What [main] reports when the crawl fails.  If the collector
    refuses the URL, no request is made and the line announcing the visit
    is not printed; if the request fails, it has been announced, by the
    URL of the request as [r.URL.String()] gives it, and made.
    Either way stderr receives one line, the error of the visit wrapped
    by [crawlLinktreeProfile] and by [main]; when the page lacks the title
    or the profile name the line is the validation message.  Nothing else
    happens. *)
Theorem crawl_failure_report (env : Env) (prog ident : string)
        (more : list string) (w : World) :
  let run := main env (prog :: ident :: more) w in
  let link := profile_link ident in
  (∀ e, colly_fetch env link = VisitRejected e →
     run = (Returns tt,
            mkWorld (fs w)
              (trace w ++ [EvStderr ("Error during crawling: "
                                     +:+ visit_error link e +:+ nl)])))
  ∧ (∀ e, colly_fetch env link = VisitFailed e →
     run = (Returns tt,
            mkWorld (fs w)
              (trace w ++ [EvStdout (("Visiting: " +:+ url_String env link)
                                     +:+ nl);
                           EvRequest link;
                           EvStderr ("Error during crawling: "
                                     +:+ visit_error link e +:+ nl)])))
  ∧ (∀ doc r, colly_fetch env link = VisitFetched doc →
     extract doc = Returns r →
     Title r = EmptyString ∨ ProfileName r = EmptyString →
     run = (Returns tt,
            mkWorld (fs w)
              (trace w ++ [EvStdout (("Visiting: " +:+ url_String env link)
                                     +:+ nl);
                           EvRequest link;
                           EvStderr ("Error during crawling: "
                                     +:+ validation_error +:+ nl)]))).
Proof.
  intros run link. unfold run. rewrite main_unfold, crawl_unfold. fold link.
  split; [|split].
  - intros e ->. reflexivity.
  - intros e ->. unfold Fprintf_Stderr, emit, visited.
    cbn -[String.append]. rewrite <- !app_assoc. reflexivity.
  - intros doc r -> -> Hv. rewrite validated_fail by done.
    unfold Fprintf_Stderr, emit, visited. cbn -[String.append].
    rewrite <- !app_assoc. reflexivity.
Qed.

Lemma crawl_failure_report_witness :
  main env_rejected ["crawler"; "jane"] world0
  = (Returns tt,
     mkWorld ∅ [EvStderr ("Error during crawling: failed to visit "
                          +:+ "https://linktr.ee/jane: Forbidden domain" +:+ nl)])
  ∧ main env_offline ["crawler"; "jane doe"] world0
    = (Returns tt,
       mkWorld ∅ [EvStdout ("Visiting: https://linktr.ee/jane%20doe" +:+ nl);
                  EvRequest "https://linktr.ee/jane doe";
                  EvStderr ("Error during crawling: failed to visit "
                            +:+ "https://linktr.ee/jane doe: no network" +:+ nl)]).
Proof.
  destruct (crawl_failure_report env_rejected "crawler" "jane" [] world0)
    as [H _].
  destruct (crawl_failure_report env_offline "crawler" "jane doe" [] world0)
    as (_ & H' & _).
  rewrite (H "Forbidden domain" eq_refl), (H' "no network" eq_refl).
  split; reflexivity.
Defined.

(** * Further properties of the encoder *)

(** ** The order of map keys *)

Lemma leb_trans (a b c : string) :
  String.leb a b = true → String.leb b c = true → String.leb a c = true.
Proof.
  unfold String.leb. revert b c.
  induction a as [|x a IH]; intros [|y b] [|z c]; simpl; try done.
  unfold Ascii.compare.
  destruct (N.compare_spec (N_of_ascii x) (N_of_ascii y)),
           (N.compare_spec (N_of_ascii y) (N_of_ascii z)),
           (N.compare_spec (N_of_ascii x) (N_of_ascii z));
    try done; try lia.
  apply IH.
Qed.

Lemma leb_total (a b : string) : String.leb a b = true ∨ String.leb b a = true.
Proof.
  unfold String.leb. rewrite (String.compare_antisym b a).
  destruct (String.compare a b); simpl; auto.
Qed.

Lemma key_le_trans : Transitive key_le.
Proof. intros x y z. apply leb_trans. Qed.

Lemma key_le_total : Total key_le.
Proof. intros x y. apply leb_total. Qed.

Lemma leb_ne_ltb (a b : string) :
  String.leb a b = true → a ≠ b → String.ltb a b = true.
Proof.
  unfold String.leb, String.ltb. intros H Hne.
  destruct (String.compare a b) eqn:E; try done.
  by apply String.compare_eq_iff in E.
Qed.

Lemma strictly_sorted (l : list (string * string)) :
  StronglySorted key_le l → NoDup l.*1 →
  StronglySorted (fun x y => String.ltb x.1 y.1 = true) l.
Proof.
  induction 1 as [|x l Hl IH Hx]; intros Hnd; [constructor|].
  cbn in Hnd. apply NoDup_cons in Hnd as [Hnotin Hnd].
  constructor; [by apply IH|].
  apply Forall_forall. intros y Hy.
  apply leb_ne_ltb.
  - rewrite Forall_forall in Hx. by apply Hx.
  - intros Heq. apply Hnotin. rewrite Heq. apply list_elem_of_fmap.
    by exists y.
Qed.

(** X16.  The entries of a map are written in strictly ascending byte order
    of their keys, whatever the order in which the page supplied them:
    the list the encoder walks holds exactly the entries of the map, each
    key once, and every key is smaller than all the keys after it. *)
Theorem map_keys_ascending (g : gmap string string) :
  encodeMap (Some g) = "{"%char :: encodeEntries 0 (sortedEntries g) ++ ["}"%char]
  ∧ (∀ k v, (k, v) ∈ sortedEntries g ↔ g !! k = Some v)
  ∧ length (sortedEntries g) = size g
  ∧ StronglySorted (fun x y => String.ltb x.1 y.1 = true) (sortedEntries g).
Proof.
  split; [reflexivity|]. split; [|split].
  - intros k v. rewrite sortedEntries_perm. apply elem_of_map_to_list.
  - rewrite sortedEntries_perm. apply length_map_to_list.
  - apply strictly_sorted.
    + apply (@StronglySorted_merge_sort _ key_le _ key_le_trans key_le_total).
    + rewrite sortedEntries_perm. apply NoDup_fst_map_to_list.
Qed.

(** ** The bytes of a string literal *)

Lemma escape_html_safe c : forallb html_safe (escape c) = true.
Proof.
  apply (forall_bytes (fun c => forallb html_safe (escape c))).
  vm_compute. reflexivity.
Qed.

Lemma safe_html_safe c : htmlSafeSet (byte_val c) = true → html_safe c = true.
Proof.
  intros H.
  assert (Hall : forallb (fun c => if htmlSafeSet (byte_val c) then html_safe c
                                   else true) all_bytes = true)
    by (vm_compute; reflexivity).
  pose proof (forall_bytes _ Hall c) as Hc. cbv beta in Hc. by rewrite H in Hc.
Qed.

Lemma high_html_safe c : high c = true → html_safe c = true.
Proof.
  intros H.
  assert (Hall : forallb (fun c => if high c then html_safe c else true)
                         all_bytes = true)
    by (vm_compute; reflexivity).
  pose proof (forall_bytes _ Hall c) as Hc. cbv beta in Hc. by rewrite H in Hc.
Qed.

Lemma hexdigit_html_safe n : html_safe (hexdigit n) = true.
Proof.
  unfold hexdigit.
  destruct (nth_in_or_default (N.to_nat n) hex "0"%char) as [Hin| ->]; [|done].
  revert Hin. generalize (nth (N.to_nat n) hex "0"%char). intros c Hin.
  assert (Hall : forallb html_safe hex = true) by reflexivity.
  eapply forallb_forall in Hall; eauto.
Qed.

Lemma forallb_app_true {A} (P : A → bool) (a b : list A) :
  forallb P a = true → forallb P b = true → forallb P (a ++ b) = true.
Proof. intros Ha Hb. by rewrite forallb_app, Ha, Hb. Qed.

Lemma appendString_from_html_safe skip src :
  forallb html_safe (appendString_from skip src) = true.
Proof.
  revert skip. induction src as [|c rest IH]; intros skip; [done|].
  destruct skip as [|k]; [|apply IH]. cbn [appendString_from].
  destruct (byte_val c <? RuneSelf) eqn:Hascii.
  { apply forallb_app_true; [|apply IH].
    destruct (htmlSafeSet (byte_val c)) eqn:Hsafe.
    - cbn. by rewrite safe_html_safe.
    - apply escape_html_safe. }
  change (firstn UTFMax (c :: rest)) with (c :: firstn 3 rest).
  destruct (DecodeRune_cases c (firstn 3 rest))
    as [[Ha Hd]|[[Ha Hd]|(chunk & r & t & Hs & Hc & Hd)]]; rewrite Hd.
  - unfold RuneSelf in Hascii. congruence.
  - rewrite N.eqb_refl. cbn [andb Nat.eqb].
    apply forallb_app_true; [reflexivity|apply IH].
  - pose proof (chunk_length _ _ Hc) as Hlen.
    assert ((length chunk =? 1)%nat = false) as -> by (apply Nat.eqb_neq; lia).
    rewrite andb_false_r.
    destruct ((r =? 8232) || (r =? 8233)).
    + apply forallb_app_true; [reflexivity|]. cbn [forallb].
      by rewrite hexdigit_html_safe, IH.
    + apply forallb_app_true; [|apply IH].
      change (c :: firstn 3 rest) with (firstn UTFMax (c :: rest)) in Hs.
      rewrite (take_chunk _ _ _ Hs).
      destruct (chunk_ok _ _ Hc) as [_ Hhigh].
      apply forallb_forall. intros x Hx%list_elem_of_In.
      rewrite Forall_forall in Hhigh. by apply high_html_safe, Hhigh.
Qed.

Lemma appendString_html_safe s : forallb html_safe (appendString s) = true.
Proof.
  unfold appendString. cbn [forallb].
  rewrite forallb_app, appendString_from_html_safe. reflexivity.
Qed.

Lemma appendNewline_html_safe d :
  forallb html_safe (appendNewline [] indent2 d) = true.
Proof.
  unfold appendNewline. cbn [app forallb].
  induction d as [|d IHd]; [done|]. cbn. exact IHd.
Qed.

Lemma layoutEntries_html_safe d kvs :
  forallb html_safe (layoutEntries [] indent2 d kvs) = true.
Proof.
  induction kvs as [|kv rest IH]; [done|]. cbn [layoutEntries].
  apply forallb_app_true.
  - unfold layoutEntry. apply forallb_app_true; [apply appendString_html_safe|].
    cbn [forallb]. by rewrite appendString_html_safe.
  - destruct rest as [|kv' rest']; [done|]. cbn [forallb].
    by rewrite forallb_app, IH, appendNewline_html_safe.
Qed.

Lemma layoutValue_html_safe d fv :
  forallb html_safe (layoutValue [] indent2 d fv) = true.
Proof.
  destruct fv as [[g|]|s]; cbn [layoutValue layoutMap];
    [|done|apply appendString_html_safe].
  destruct (sortedEntries g) as [|kv kvs] eqn:E; [done|]. cbn [forallb].
  rewrite !forallb_app, !appendNewline_html_safe, layoutEntries_html_safe.
  reflexivity.
Qed.

Lemma layoutMember_html_safe d f :
  forallb html_safe (bytes_of f.1) = true →
  forallb html_safe (layoutMember [] indent2 d f) = true.
Proof.
  intros H. unfold layoutMember. cbn [forallb].
  rewrite forallb_app, H. cbn [forallb]. by rewrite layoutValue_html_safe.
Qed.

(** X17.  The JSON text is safe to embed in HTML and holds no control
    character, whatever strings the page supplied: it has no <, > or &
    byte, and no byte below 0x20 apart from the line feeds of the
    layout. *)
Theorem serialize_html_safe (r : Result) :
  forallb html_safe (serialize r) = true.
Proof.
  unfold serialize, MarshalIndent. cbn [fst]. rewrite Indent_Marshal.
  unfold fields, layoutObject.
  cbn [layoutMembers forallb].
  change (bytes_of "  ") with indent2.
  repeat first
    [ rewrite forallb_app
    | rewrite appendNewline_html_safe
    | rewrite layoutMember_html_safe by reflexivity
    | progress cbn [forallb app] ].
  reflexivity.
Qed.

(** ** The encoding is well-formed UTF-8 *)

Lemma valid_bytes_app a b : valid_bytes a → valid_bytes b → valid_bytes (a ++ b).
Proof.
  induction 1 as [|c t Hc Ht IH|chunk r t Hc Ht IH]; intros Hb; [done| |].
  - cbn [app]. apply valid_ascii; [done|by apply IH].
  - rewrite <- app_assoc. apply valid_chunk with r; [done|by apply IH].
Qed.

Lemma valid_bytes_ascii l :
  forallb (fun c => byte_val c <? 0x80) l = true → valid_bytes l.
Proof.
  induction l as [|c l IH]; [constructor|]. cbn [forallb].
  intros [Hc Hl]%andb_true_iff. apply valid_ascii; [done|by apply IH].
Qed.

Lemma hexdigit_ascii n : (byte_val (hexdigit n) <? 0x80) = true.
Proof.
  unfold hexdigit.
  destruct (nth_in_or_default (N.to_nat n) hex "0"%char) as [Hin| ->]; [|done].
  revert Hin. generalize (nth (N.to_nat n) hex "0"%char). intros x Hin.
  assert (Hall : forallb (fun c => byte_val c <? 0x80) hex = true) by reflexivity.
  eapply forallb_forall in Hall; eauto.
Qed.

Lemma escape_ascii c : forallb (fun c => byte_val c <? 0x80) (escape c) = true.
Proof.
  destruct (byte_val c <? 0x80) eqn:Hc.
  - assert (Hall : forallb (fun c => if byte_val c <? 0x80
                                     then forallb (fun c => byte_val c <? 0x80) (escape c)
                                     else true) all_bytes = true)
      by (vm_compute; reflexivity).
    pose proof (forall_bytes _ Hall c) as H. cbv beta in H. by rewrite Hc in H.
  - unfold escape.
    apply N.ltb_ge in Hc.
    repeat match goal with
           | |- context [if ?b then _ else _] =>
             let E := fresh in destruct b eqn:E;
             [repeat (apply orb_true_iff in E as [E|E]);
              apply N.eqb_eq in E; lia|]
           end.
    cbn [forallb]. by rewrite !hexdigit_ascii.
Qed.

Lemma appendString_from_valid skip src :
  valid_bytes (appendString_from skip src).
Proof.
  revert skip. induction src as [|c rest IH]; intros skip; [constructor|].
  destruct skip as [|k]; [|apply IH]. cbn [appendString_from].
  destruct (byte_val c <? RuneSelf) eqn:Hascii.
  { apply valid_bytes_app; [|apply IH].
    destruct (htmlSafeSet (byte_val c)) eqn:Hsafe.
    - apply valid_ascii; [exact Hascii|constructor].
    - apply valid_bytes_ascii, escape_ascii. }
  change (firstn UTFMax (c :: rest)) with (c :: firstn 3 rest).
  destruct (DecodeRune_cases c (firstn 3 rest))
    as [[Ha Hd]|[[Ha Hd]|(chunk & r & t & Hs & Hc & Hd)]]; rewrite Hd.
  - unfold RuneSelf in Hascii. congruence.
  - rewrite N.eqb_refl. cbn [andb Nat.eqb].
    apply valid_bytes_app; [by apply valid_bytes_ascii|apply IH].
  - pose proof (chunk_length _ _ Hc) as Hlen.
    assert ((length chunk =? 1)%nat = false) as -> by (apply Nat.eqb_neq; lia).
    rewrite andb_false_r.
    destruct ((r =? 8232) || (r =? 8233)).
    + apply valid_bytes_app; [by apply valid_bytes_ascii|].
      apply valid_ascii; [apply hexdigit_ascii|apply IH].
    + change (c :: firstn 3 rest) with (firstn UTFMax (c :: rest)) in Hs.
      rewrite (take_chunk _ _ _ Hs). apply valid_chunk with r; [done|apply IH].
Qed.

Lemma appendString_valid s : valid_bytes (appendString s).
Proof.
  unfold appendString. apply valid_ascii; [done|].
  apply valid_bytes_app; [apply appendString_from_valid|].
  by apply valid_bytes_ascii.
Qed.

Lemma appendNewline_valid d : valid_bytes (appendNewline [] indent2 d).
Proof.
  apply valid_bytes_ascii. unfold appendNewline. cbn [app forallb].
  induction d as [|d IHd]; [done|]. cbn. exact IHd.
Qed.

Lemma layoutEntries_valid d kvs : valid_bytes (layoutEntries [] indent2 d kvs).
Proof.
  induction kvs as [|kv rest IH]; [constructor|]. cbn [layoutEntries].
  apply valid_bytes_app.
  - unfold layoutEntry. apply valid_bytes_app; [apply appendString_valid|].
    do 2 (apply valid_ascii; [done|]). apply appendString_valid.
  - destruct rest as [|kv' rest']; [constructor|].
    apply valid_ascii; [done|].
    apply valid_bytes_app; [apply appendNewline_valid|exact IH].
Qed.

Lemma layoutValue_valid d fv : valid_bytes (layoutValue [] indent2 d fv).
Proof.
  destruct fv as [[g|]|s]; cbn [layoutValue layoutMap];
    [|by apply valid_bytes_ascii|apply appendString_valid].
  destruct (sortedEntries g) as [|kv kvs] eqn:E; [by apply valid_bytes_ascii|].
  apply valid_ascii; [done|].
  apply valid_bytes_app; [apply appendNewline_valid|].
  apply valid_bytes_app; [apply layoutEntries_valid|].
  apply valid_bytes_app; [apply appendNewline_valid|by apply valid_bytes_ascii].
Qed.

Lemma layoutMember_valid d f :
  forallb (fun c => byte_val c <? 0x80) (bytes_of f.1) = true →
  valid_bytes (layoutMember [] indent2 d f).
Proof.
  intros H. unfold layoutMember. apply valid_ascii; [done|].
  apply valid_bytes_app; [by apply valid_bytes_ascii|].
  do 3 (apply valid_ascii; [done|]). apply layoutValue_valid.
Qed.

Lemma layoutMembers_valid d fs :
  Forall (fun f => forallb (fun c => byte_val c <? 0x80) (bytes_of f.1) = true) fs →
  valid_bytes (layoutMembers [] indent2 d fs).
Proof.
  induction 1 as [|f rest Hf Hrest IH]; [constructor|]. cbn [layoutMembers].
  apply valid_bytes_app; [by apply layoutMember_valid|].
  destruct rest as [|f' rest']; [constructor|].
  apply valid_ascii; [done|].
  apply valid_bytes_app; [apply appendNewline_valid|exact IH].
Qed.

Lemma chunk_head c t chunk r t' :
  c :: t = chunk ++ t' → rune_chunk chunk r → high c = true.
Proof.
  intros Hs Hc. destruct (chunk_ok _ _ Hc) as [_ Hhigh].
  pose proof (chunk_length _ _ Hc) as Hlen.
  destruct chunk as [|c' chunk']; [simpl in Hlen; lia|].
  inversion Hs; subst. by inversion Hhigh.
Qed.

Lemma valid_Valid_from s : valid_bytes s → Valid_from 0 s = true.
Proof.
  induction 1 as [|c t Hc Ht IH|chunk r t Hc Ht IH]; [done| |].
  - cbn [Valid_from].
    destruct (DecodeRune_cases c t)
      as [[Ha Hd]|[[Ha Hd]|(chunk & r & t' & Hs & Hch & Hd)]]; rewrite Hd.
    + assert ((byte_val c =? RuneError) = false) as ->.
      { apply N.eqb_neq. apply N.ltb_lt in Hc. unfold RuneError. lia. }
      exact IH.
    + congruence.
    + pose proof (chunk_head _ _ _ _ _ Hs Hch) as Hh.
      apply high_not_ascii in Hh. congruence.
  - pose proof (chunk_length _ _ Hc) as Hlen.
    destruct chunk as [|c chunk'] eqn:E; [simpl in Hlen; lia|].
    rewrite <- E in *. 
    assert (Hd := chunk_decode chunk r t Hc).
    rewrite E in Hd |- *. cbn [app] in Hd |- *. cbn [Valid_from].
    rewrite Hd.
    assert ((length (c :: chunk') =? 1)%nat = false) as ->.
    { apply Nat.eqb_neq. rewrite E in Hlen. lia. }
    rewrite andb_false_r. cbn [length].
    replace (S (length chunk') - 1)%nat with (length chunk') by lia.
    by rewrite Valid_from_skip.
Qed.

Lemma bytes_of_string_of b : bytes_of (string_of b) = b.
Proof. apply list_ascii_of_string_of_list_ascii. Qed.

(** X18.  The JSON text is well-formed UTF-8 for every record, also one
    whose strings are not: the encoder replaces what does not decode. *)
Theorem serialize_valid_utf8 (r : Result) :
  ValidString (string_of (serialize r)) = true.
Proof.
  unfold ValidString. rewrite bytes_of_string_of. apply valid_Valid_from.
  unfold serialize, MarshalIndent. cbn [fst]. rewrite Indent_Marshal.
  change (bytes_of "  ") with indent2. change (bytes_of EmptyString) with (@nil ascii).
  unfold layoutObject, fields.
  apply valid_ascii; [done|].
  apply valid_bytes_app; [apply appendNewline_valid|].
  apply valid_bytes_app; [|apply valid_bytes_app;
                            [apply appendNewline_valid|by apply valid_bytes_ascii]].
  apply layoutMembers_valid. by repeat constructor.
Qed.

(** ** Strings written as they are *)

Lemma appendString_from_verbatim (a rest : bytes) :
  forallb (fun c => htmlSafeSet (byte_val c)) a = true →
  appendString_from 0 (a ++ rest) = a ++ appendString_from 0 rest.
Proof.
  induction a as [|c a IH]; [done|]. cbn [forallb app appendString_from].
  intros [Hc Ha]%andb_true_iff. rewrite Hc.
  assert ((byte_val c <? RuneSelf) = true) as ->.
  { unfold htmlSafeSet in Hc. unfold RuneSelf.
    repeat (apply andb_true_iff in Hc as [Hc ?]). done. }
  cbn [app]. by rewrite IH.
Qed.

(** X19.  A string of bytes from 0x20 to 0x7f without the double quote, the
    backslash, <, > and & is written between quotes as it is; the first
    ASCII byte outside this set is written as its escape, after which the
    encoding goes on with the rest of the string. *)
Theorem plain_strings_verbatim (s : string) :
  verbatim s = true →
  appendString s = dquote :: bytes_of s ++ [dquote]
  ∧ ∀ c rest, (byte_val c <? RuneSelf) = true →
      htmlSafeSet (byte_val c) = false →
      appendString_from 0 (bytes_of s ++ c :: rest)
      = bytes_of s ++ escape c ++ appendString_from 0 rest.
Proof.
  intros Hs. split.
  - unfold appendString.
    pose proof (appendString_from_verbatim (bytes_of s) [] Hs) as H.
    rewrite app_nil_r in H. rewrite H. cbn [appendString_from].
    by rewrite app_nil_r.
  - intros c rest Hc Hsafe. rewrite appendString_from_verbatim by exact Hs.
    cbn [appendString_from]. by rewrite Hc, Hsafe.
Qed.

Lemma plain_strings_verbatim_witness :
  appendString "https://example.com/a?b=1"
  = dquote :: bytes_of "https://example.com/a?b=1" ++ [dquote]
  ∧ appendString_from 0 (bytes_of "https://example.com/a?b=1" ++ "&"%char :: bytes_of "c=2")
    = bytes_of "https://example.com/a?b=1" ++ escape "&"
      ++ appendString_from 0 (bytes_of "c=2").
Proof.
  destruct (plain_strings_verbatim "https://example.com/a?b=1" eq_refl)
    as [H1 H2].
  split; [exact H1|]. apply H2; reflexivity.
Defined.

(** * Files that [main] leaves alone, and running it again *)

(** X20.  [main] changes no file but the JSON file of the extracted record
    and the image file of the identifier: every other path holds after the
    run what it held before. *)
Theorem main_touches_two_files (env : Env) (prog ident : string)
        (more : list string) (w : World) (p : string) :
  p ≠ ident +:+ ".jpg" →
  (∀ doc r, colly_fetch env (profile_link ident) = VisitFetched doc →
            extract doc = Returns r →
            p ≠ filepath_Join env "." (ProfileName r +:+ ".json")) →
  fs (main env (prog :: ident :: more) w).2 !! p = fs w !! p.
Proof.
  intros Himg Hjson. rewrite main_unfold.
  pose proof (crawl_effects env (profile_link ident) w) as (Hf1 & _).
  pose proof (crawl_unfold env (profile_link ident) w) as Hcu.
  destruct (crawlLinktreeProfile env (profile_link ident) w)
    as [[[r [err|]]|msg] w1] eqn:Hc; cbn [snd] in Hf1;
    [by rewrite <- Hf1| |by rewrite <- Hf1].
  assert (Hp : p ≠ filepath_Join env "." (ProfileName r +:+ ".json")).
  { destruct (colly_fetch env (profile_link ident)) as [e|e|doc] eqn:Hfetch;
      [by inversion Hcu..|].
    pose proof (extract_spec doc) as Hx. rewrite Hx in Hcu.
    unfold validated in Hcu.
    match type of Hcu with context [if ?b then _ else _] => destruct b end;
      inversion Hcu; subst. by apply (Hjson doc). }
  destruct (save_effects env r (ProfileName r +:+ ".json") w1)
    as (err & w2 & Hs & _ & _ & _ & Hf2 & _).
  rewrite Hs. specialize (Hf2 p Hp).
  destruct err as [err|]; [cbn [snd Fprintf_Stderr emit fs]; congruence|].
  destruct (nonempty (ProfileImg r)); [|cbn [snd]; congruence].
  destruct (download_effects env (ProfileImg r) (ident +:+ ".jpg") w2)
    as (err & w3 & Hd & _ & _ & Hf3 & _).
  rewrite Hd. specialize (Hf3 p Himg).
  destruct err as [err|]; cbn [snd Fprintf_Stderr emit fs]; congruence.
Qed.

Lemma main_touches_two_files_witness :
  fs (main (env_ok page_jane) ["crawler"; "jane"] world_old).2 !! "notes.txt"
  = fs world_old !! "notes.txt".
Proof.
  apply (main_touches_two_files (env_ok page_jane) "crawler" "jane" [] world_old
           "notes.txt").
  - discriminate.
  - intros doc r [= <-] Hx. vm_compute in Hx. injection Hx as <-. discriminate.
Defined.

(** ** Running the program twice *)

Lemma lookup_put (m : gmap string bytes) (x : string * bytes) (j : string) :
  put m x !! j = if decide (j = x.1) then Some x.2 else m !! j.
Proof.
  unfold put. destruct (decide (j = x.1)) as [->|Hne].
  - apply lookup_insert_eq.
  - by apply lookup_insert_ne.
Qed.

Lemma put_agree (k : string) (m1 m2 : gmap string bytes) (L : list (string * bytes)) :
  (∀ j, j ≠ k → m1 !! j = m2 !! j) →
  ∀ j, j ≠ k → fold_left put L m1 !! j = fold_left put L m2 !! j.
Proof.
  revert m1 m2. induction L as [|x L IH]; intros m1 m2 H; [exact H|].
  cbn [fold_left]. apply IH. intros j Hj. rewrite !lookup_put.
  destruct (decide (j = x.1)); [done|by apply H].
Qed.

Lemma put_twice (L : list (string * bytes)) (m : gmap string bytes) :
  fold_left put L (fold_left put L m) = fold_left put L m.
Proof.
  revert m. induction L as [|x L IH] using rev_ind; intros m; [done|].
  rewrite !fold_left_app. cbn [fold_left].
  apply map_eq. intros j. rewrite !lookup_put.
  destruct (decide (j = x.1)) as [->|Hne]; [done|].
  rewrite <- (IH m) at 2. apply (put_agree x.1); [|done].
  intros i Hi. rewrite lookup_put. by destruct (decide (i = x.1)).
Qed.

Lemma crawl_pure (env : Env) (link : string) :
  ∃ res, ∀ w, (crawlLinktreeProfile env link w).1 = Returns res
              ∧ fs (crawlLinktreeProfile env link w).2 = fs w.
Proof.
  destruct (colly_fetch env link) as [e|e|doc] eqn:Hf.
  - eexists. intros w. rewrite crawl_unfold, Hf. split; reflexivity.
  - eexists. intros w. rewrite crawl_unfold, Hf. split; reflexivity.
  - exists (match extract doc with
            | Returns r => validated r
            | Panics _ => (Result_zero, None)
            end).
    intros w. rewrite crawl_unfold, Hf, extract_spec. split; reflexivity.
Qed.

Ltac test_is t :=
  match goal with |- context [if ?b then _ else _] => change b with t end.

Lemma save_pure (env : Env) (r : Result) (fileName : string) :
  ∃ err L, ∀ w,
    (saveResultToFile env r fileName w).1 = Returns err
    ∧ fs (saveResultToFile env r fileName w).2 = fold_left put L (fs w).
Proof.
  set (path := filepath_Join env "." fileName).
  set (data := Indent [] (bytes_of "  ") (Marshal r)).
  destruct (os_open_error env path) as [e|] eqn:Ho.
  { exists (Some ("error writing result to file: " +:+ e)), [].
    intros w. step_io. fold path. by rewrite Ho. }
  destruct (os_write_limit env path) as [[n e]|] eqn:Hl.
  - destruct (n <? length data)%nat eqn:Hn.
    + exists (Some ("error writing result to file: " +:+ e)),
             [(path, []); (path, firstn n data)].
      intros w. step_io. fold path. rewrite Ho.
      cbn -[String.append json.Indent json.Marshal].
      rewrite lookup_insert_eq, Hl.
      cbn -[String.append json.Indent json.Marshal].
      test_is (n <? length data)%nat. rewrite Hn. split; reflexivity.
    + exists None, [(path, []); (path, data)].
      intros w. step_io. fold path. rewrite Ho.
      cbn -[String.append json.Indent json.Marshal].
      rewrite lookup_insert_eq, Hl.
      cbn -[String.append json.Indent json.Marshal].
      test_is (n <? length data)%nat. rewrite Hn. split; reflexivity.
  - exists None, [(path, []); (path, data)].
    intros w. step_io. fold path. rewrite Ho.
    cbn -[String.append json.Indent json.Marshal].
    rewrite lookup_insert_eq, Hl. split; reflexivity.
Qed.

Lemma download_pure (env : Env) (imgURL fileName : string) :
  ∃ err L, ∀ w,
    (downloadProfileImage env imgURL fileName w).1 = Returns err
    ∧ fs (downloadProfileImage env imgURL fileName w).2 = fold_left put L (fs w).
Proof.
  destruct (http_Get env imgURL) as [e|response] eqn:Hget.
  { eexists _, []. intros w. step_io. rewrite Hget. split; reflexivity. }
  destruct (StatusCode response =? 200)%Z eqn:Hst.
  2:{ eexists _, []. intros w. step_io. rewrite Hget.
      cbn -[String.append pretty]. rewrite Hst. split; reflexivity. }
  destruct (os_open_error env fileName) as [e|] eqn:Ho.
  { eexists _, []. intros w. step_io. rewrite Hget.
    cbn -[String.append pretty]. rewrite Hst. cbn -[String.append pretty].
    rewrite Ho. split; reflexivity. }
  destruct (os_write_limit env fileName) as [[n e]|] eqn:Hl.
  - destruct (n <? length (Body response))%nat eqn:Hn.
    + eexists _, [(fileName, []); (fileName, firstn n (Body response))].
      intros w. step_io. rewrite Hget.
      cbn -[String.append pretty]. rewrite Hst. cbn -[String.append pretty].
      rewrite Ho. cbn -[String.append pretty]. rewrite lookup_insert_eq, Hl.
      cbn -[String.append pretty].
      test_is (n <? length (Body response))%nat. rewrite Hn. split; reflexivity.
    + exists (BodyErr response ≫= fun e => Some ("failed to save image to file: " +:+ e)),
             [(fileName, []); (fileName, Body response)].
      intros w. step_io. rewrite Hget.
      cbn -[String.append pretty]. rewrite Hst. cbn -[String.append pretty].
      rewrite Ho. cbn -[String.append pretty]. rewrite lookup_insert_eq, Hl.
      cbn -[String.append pretty].
      test_is (n <? length (Body response))%nat. rewrite Hn. destruct (BodyErr response); split; reflexivity.
  - exists (BodyErr response ≫= fun e => Some ("failed to save image to file: " +:+ e)),
           [(fileName, []); (fileName, Body response)].
    intros w. step_io. rewrite Hget.
    cbn -[String.append pretty]. rewrite Hst. cbn -[String.append pretty].
    rewrite Ho. cbn -[String.append pretty]. rewrite lookup_insert_eq, Hl.
    cbn -[String.append pretty].
    destruct (BodyErr response); split; reflexivity.
Qed.

Lemma main_pure (env : Env) (args : list string) :
  ∃ L, ∀ w, fs (main env args w).2 = fold_left put L (fs w).
Proof.
  destruct args as [|prog [|ident more]];
    [exists []; intros w; reflexivity..|].
  destruct (crawl_pure env (profile_link ident)) as ([r [err|]] & Hc).
  { exists []. intros w. rewrite main_unfold.
    destruct (Hc w) as [H1 H2].
    destruct (crawlLinktreeProfile env (profile_link ident) w) as [o w1].
    cbn [fst snd] in *. subst o. by rewrite <- H2. }
  destruct (save_pure env r (ProfileName r +:+ ".json")) as (serr & L1 & Hs).
  destruct (download_pure env (ProfileImg r) (ident +:+ ".jpg")) as (derr & L2 & Hd).
  exists (match serr with
          | Some _ => L1
          | None => if nonempty (ProfileImg r) then L1 ++ L2 else L1
          end).
  intros w. rewrite main_unfold.
  destruct (Hc w) as [H1 H2].
  destruct (crawlLinktreeProfile env (profile_link ident) w) as [o w1].
  cbn [fst snd] in *. subst o.
  destruct (Hs w1) as [H3 H4].
  destruct (saveResultToFile env r (ProfileName r +:+ ".json") w1) as [o w2].
  cbn [fst snd] in *. subst o. rewrite H2 in H4.
  destruct serr as [serr|]; [exact H4|].
  destruct (nonempty (ProfileImg r)); [|exact H4].
  destruct (Hd w2) as [H5 H6].
  destruct (downloadProfileImage env (ProfileImg r) (ident +:+ ".jpg") w2) as [o w3].
  cbn [fst snd] in *. subst o. rewrite H4 in H6.
  rewrite fold_left_app. destruct derr; exact H6.
Qed.

(** X21.  Running [main] a second time with the same arguments, against
    the same page, responses and file-system behaviour, leaves every file
    as the first run left it: files are created or truncated before they
    are written, never appended to. *)
Theorem rerun_same_files (env : Env) (args : list string) (w : World) :
  fs (main env args (main env args w).2).2 = fs (main env args w).2.
Proof.
  destruct (main_pure env args) as (L & HL).
  rewrite (HL (main env args w).2), (HL w). apply put_twice.
Qed.

(** * The round trip of an arbitrary record *)

Lemma unquote_replacement Y :
  unquote_from 0 (bytes_of "\ufffd" ++ Y)
  = emitted (EncodeRune RuneError) (unquote_from 0 Y).
Proof. reflexivity. Qed.

Lemma unquote_any src : ∀ skip X,
  unquote_from 0 (appendString_from skip src ++ dquote :: X)
  = Some (coerce_from skip src, X).
Proof.
  induction src as [|c rest IH]; intros skip X; [reflexivity|].
  destruct skip as [|k]; [|apply IH]. cbn [appendString_from coerce_from].
  destruct (byte_val c <? RuneSelf) eqn:Hascii.
  { rewrite <- app_assoc. destruct (htmlSafeSet (byte_val c)) eqn:Hsafe.
    - cbn [app]. rewrite unquote_safe by done. by rewrite IH.
    - rewrite unquote_escape by done. by rewrite IH. }
  change (firstn UTFMax (c :: rest)) with (c :: firstn 3 rest).
  destruct (DecodeRune_cases c (firstn 3 rest))
    as [[Ha Hd]|[[Ha Hd]|(chunk & r & t & Hs & Hc & Hd)]]; rewrite Hd.
  - unfold RuneSelf in Hascii. congruence.
  - rewrite N.eqb_refl. cbn [andb Nat.eqb].
    rewrite <- app_assoc, unquote_replacement. by rewrite IH.
  - pose proof (chunk_length _ _ Hc) as Hlen.
    assert ((length chunk =? 1)%nat = false) as -> by (apply Nat.eqb_neq; lia).
    rewrite andb_false_r.
    change (c :: firstn 3 rest) with (firstn UTFMax (c :: rest)) in Hs.
    rewrite (take_chunk _ _ _ Hs).
    assert (Henc : (if (r =? 8232) || (r =? 8233)
                    then bytes_of "\u202" ++ hexdigit (N.land r 15)
                           :: appendString_from (length chunk - 1) rest
                    else chunk ++ appendString_from (length chunk - 1) rest)
                   = encoded_chunk chunk r
                     ++ appendString_from (length chunk - 1) rest).
    { unfold encoded_chunk. destruct ((r =? 8232) || (r =? 8233)); [|done].
      by rewrite <- app_assoc. }
    rewrite Henc, <- app_assoc, (unquote_chunk _ _ _ Hc). by rewrite IH.
Qed.

Lemma decodeString_any s old X :
  decodeString old (appendString s ++ X) = Some (coerce s, X).
Proof.
  unfold appendString, decodeString. cbn [app].
  change (eqc dquote dquote) with true. cbn iota.
  rewrite <- app_assoc. cbn [app]. by rewrite unquote_any.
Qed.

Lemma decode_entry_any fuel g kv Z :
  decodeMapMembers (S fuel) g (layoutEntry kv ++ Z)
  = match skipSpace Z with
    | [] => None
    | c2 :: s4 =>
      if eqc c2 "}" then Some (store g (coerce_entry kv), s4)
      else if eqc c2 "," then
        decodeMapMembers fuel (store g (coerce_entry kv)) (skipSpace s4)
      else None
    end.
Proof.
  unfold layoutEntry. rewrite <- app_assoc. unfold appendString at 1.
  cbn [app decodeMapMembers]. change (eqc dquote dquote) with true. cbn iota.
  rewrite <- app_assoc. cbn [app]. rewrite unquote_any.
  rewrite (skipSpace_keep ":"%char) by reflexivity.
  change (eqc ":" ":") with true. cbn iota.
  rewrite (skipSpace_drop " "%char) by reflexivity.
  rewrite skipSpace_quoted, decodeString_any. reflexivity.
Qed.

Lemma decodeMapMembers_any kvs : ∀ fuel g d d' X,
  kvs ≠ [] → (length kvs <= fuel)%nat →
  decodeMapMembers fuel g
    (layoutEntries [] indent2 d kvs ++ appendNewline [] indent2 d' ++ "}"%char :: X)
  = Some (fold_left store (map coerce_entry kvs) g, X).
Proof.
  induction kvs as [|kv rest IH]; intros fuel g d d' X Hne Hlen; [done|].
  destruct fuel as [|fuel]; [simpl in Hlen; lia|].
  cbn [layoutEntries]. rewrite <- app_assoc. rewrite decode_entry_any.
  destruct rest as [|kv' rest'].
  - cbn [app]. rewrite skipSpace_newline.
    rewrite (skipSpace_keep "}"%char) by reflexivity. reflexivity.
  - cbn [app]. rewrite (skipSpace_keep ","%char) by reflexivity.
    change (eqc "," "}") with false. change (eqc "," ",") with true. cbn iota.
    rewrite <- app_assoc. rewrite skipSpace_newline, layoutEntries_head.
    rewrite IH; [reflexivity|done|simpl in *; lia].
Qed.

Lemma decodeMap_any fuel d m Z :
  (maplen m <= fuel)%nat →
  decodeMap fuel None (layoutMap [] indent2 d m ++ Z) = Some (coerce_map m, Z).
Proof.
  intros Hlen. destruct m as [g|]; [|reflexivity].
  assert (Hsize : length (sortedEntries g) = size g).
  { rewrite sortedEntries_perm. apply length_map_to_list. }
  cbn [maplen] in Hlen. rewrite <- Hsize in Hlen.
  unfold layoutMap, coerce_map. destruct (sortedEntries g) as [|kv rest] eqn:Hs.
  - reflexivity.
  - cbn [app decodeMap]. change (eqc "{" "{") with true. cbn iota.
    rewrite <- !app_assoc. rewrite skipSpace_newline, layoutEntries_head.
    cbn [layoutEntries]. unfold layoutEntry at 1. unfold appendString at 1.
    cbn [app]. change (eqc dquote "}") with false. cbn iota.
    change (dquote :: (appendString_from 0 (bytes_of kv.1) ++ [dquote]) ++
            ":"%char :: " "%char :: appendString kv.2)
      with (layoutEntry kv).
    pose proof (decodeMapMembers_any (kv :: rest) fuel ∅ (S d) d Z) as Hd.
    cbn [layoutEntries] in Hd. cbn [app] in Hd.
    unfold layoutEntry at 1 in Hd. unfold appendString at 1 in Hd.
    cbn [app] in Hd. rewrite <- !app_assoc in Hd. cbn [app] in Hd.
    cbn [default]. rewrite <- !app_assoc. cbn [app].
    by rewrite Hd.
Qed.

(** ** Coercion keeps well-formed strings and makes the others
    well-formed *)

Lemma coerce_from_skip p t : coerce_from (length p) (p ++ t) = coerce_from 0 t.
Proof. induction p as [|c p IH]; [done|]. simpl. exact IH. Qed.

Lemma coerce_from_id bs : valid_bytes bs → coerce_from 0 bs = bs.
Proof.
  induction 1 as [|c t Ha Ht IH|chunk r t Hc Ht IH]; [done| |].
  - cbn [coerce_from]. unfold RuneSelf. by rewrite Ha, IH.
  - destruct (chunk_ok _ _ Hc) as [_ Hh].
    pose proof (chunk_length _ _ Hc) as Hlen.
    assert (Hd : DecodeRune (firstn UTFMax (chunk ++ t)) = (r, length chunk)).
    { rewrite firstn_app. rewrite firstn_all2 by (unfold UTFMax; lia).
      by apply chunk_decode. }
    destruct chunk as [|c0 chunk']; [simpl in Hlen; lia|].
    inversion Hh as [|? ? Hc0 _]; subst.
    destruct (high_tests c0 Hc0) as (_ & _ & _ & Ha).
    cbn [app coerce_from]. rewrite Ha.
    change (c0 :: chunk' ++ t) with ((c0 :: chunk') ++ t). rewrite Hd.
    assert ((length (c0 :: chunk') =? 1)%nat = false) as ->
        by (apply Nat.eqb_neq; lia).
    rewrite andb_false_r. rewrite take_app_length. cbn [length].
    replace (S (length chunk') - 1)%nat with (length chunk') by lia.
    by rewrite coerce_from_skip, IH.
Qed.

Lemma coerce_id s : ValidString s = true → coerce s = s.
Proof.
  intros H%Valid_from_valid. unfold coerce.
  by rewrite coerce_from_id, string_of_bytes_of.
Qed.

Lemma coerce_entries_id kvs :
  forallb valid_entry kvs = true → map coerce_entry kvs = kvs.
Proof.
  induction kvs as [|[k v] kvs IH]; [done|]. cbn [forallb map].
  intros [[Hk Hv]%andb_true_iff Hrest]%andb_true_iff. cbn [fst snd] in *.
  rewrite IH by done. unfold coerce_entry. cbn [fst snd]. by rewrite !coerce_id.
Qed.

Lemma coerce_map_id m : valid_map m = true → coerce_map m = m.
Proof.
  destruct m as [g|]; [|done]. cbn [valid_map coerce_map]. intros Hv.
  rewrite coerce_entries_id by by apply sortedEntries_valid.
  by rewrite fold_store_map.
Qed.

Lemma replacement_chunk : rune_chunk (EncodeRune RuneError) RuneError.
Proof.
  change (EncodeRune RuneError) with [byte_of 0xEF; byte_of 0xBF; byte_of 0xBD].
  change RuneError with (rune3 (byte_of 0xEF) (byte_of 0xBF) (byte_of 0xBD)).
  by apply chunk3.
Qed.

Lemma coerce_from_valid skip src : valid_bytes (coerce_from skip src).
Proof.
  revert skip. induction src as [|c rest IH]; intros skip; [constructor|].
  destruct skip as [|k]; [|apply IH]. cbn [coerce_from].
  destruct (byte_val c <? RuneSelf) eqn:Hascii.
  { apply valid_ascii; [exact Hascii|apply IH]. }
  change (firstn UTFMax (c :: rest)) with (c :: firstn 3 rest).
  destruct (DecodeRune_cases c (firstn 3 rest))
    as [[Ha Hd]|[[Ha Hd]|(chunk & r & t & Hs & Hc & Hd)]]; rewrite Hd.
  - unfold RuneSelf in Hascii. congruence.
  - rewrite N.eqb_refl. cbn [andb Nat.eqb].
    apply valid_chunk with RuneError; [apply replacement_chunk|apply IH].
  - pose proof (chunk_length _ _ Hc) as Hlen.
    assert ((length chunk =? 1)%nat = false) as -> by (apply Nat.eqb_neq; lia).
    rewrite andb_false_r.
    change (c :: firstn 3 rest) with (firstn UTFMax (c :: rest)) in Hs.
    rewrite (take_chunk _ _ _ Hs). apply valid_chunk with r; [done|apply IH].
Qed.

Lemma coerce_valid s : ValidString (coerce s) = true.
Proof.
  unfold ValidString, coerce. rewrite bytes_of_string_of.
  apply valid_Valid_from, coerce_from_valid.
Qed.

Lemma coerce_map_valid m : valid_map (coerce_map m) = true.
Proof.
  destruct m as [g|]; [|done]. cbn [coerce_map valid_map].
  assert (Hinv : ∀ kvs (g0 : gmap string string),
    map_Forall (fun k v => Is_true (valid_entry (k, v))) g0 →
    map_Forall (fun k v => Is_true (valid_entry (k, v)))
               (fold_left store (map coerce_entry kvs) g0)).
  { induction kvs as [|kv kvs IH]; intros g0 Hg0; [done|].
    cbn [map fold_left]. apply IH. unfold store.
    apply map_Forall_insert_2; [|done].
    apply Is_true_true. unfold valid_entry, coerce_entry. cbn [fst snd].
    by rewrite !coerce_valid. }
  apply Is_true_true, forallb_True, Forall_forall.
  intros [k v] Hin%elem_of_map_to_list.
  exact (Hinv (sortedEntries g) ∅ (map_Forall_empty _) k v Hin).
Qed.

(** X22.  Decoding the JSON text of any record succeeds, and gives the
    record with every byte that is not UTF-8 replaced by U+FFFD in its
    strings, keys and values (of two keys that become equal the one later
    in the encoder's order stays).  The record read back is well-formed
    UTF-8, and it is the record written whenever that one was. *)
Theorem roundtrip_coerces (r : Result) :
  deserialize (serialize r) = Some (coerce_record r)
  ∧ valid_record (coerce_record r) = true
  ∧ (valid_record r = true → coerce_record r = r).
Proof.
  split; [|split].
  2:{ unfold valid_record, coerce_record. cbn [Title ProfileName ProfileImg Links IconLinks].
      by rewrite !coerce_valid, !coerce_map_valid. }
  2:{ intros Hv. unfold valid_record in Hv.
      repeat (apply andb_true_iff in Hv as [Hv ?]).
      unfold coerce_record. rewrite !coerce_id, !coerce_map_id by done.
      by destruct r. }
  unfold deserialize, Unmarshal, serialize, MarshalIndent. cbn [fst].
  change (bytes_of EmptyString) with (@nil ascii).
  rewrite Indent_Marshal. unfold fields.
  change (bytes_of "  ") with indent2.
  set (data := layoutObject [] indent2 _).
  assert (Hfuel : (5 + maplen (Links r) + maplen (IconLinks r) <= length data)%nat).
  { subst data. unfold layoutObject. cbn [layoutMembers]. unfold layoutMember.
    cbn [fst snd layoutValue]. cbn [length]. rewrite !length_app. cbn [length].
    rewrite !length_app. cbn [length]. rewrite !length_app. cbn [length].
    pose proof (layoutMap_length 1 (Links r)).
    pose proof (layoutMap_length 1 (IconLinks r)). lia. }
  generalize dependent (length data). intros fuel Hfuel.
  do 5 (destruct fuel as [|fuel]; [lia|]).
  subst data. unfold layoutObject.
  rewrite (skipSpace_keep "{"%char) by reflexivity.
  change (eqc "{" "{") with true. cbn iota.
  rewrite skipSpace_newline.
  cbn [layoutMembers].
  norm_app. rewrite skipSpace_member.
  match goal with
  | |- context [layoutMember [] indent2 1 ("links", ?fv) ++ ?X] =>
    destruct (member_head ("links", fv) X) as [Y HY]
  end.
  rewrite HY.
  change (eqc dquote "}") with false. cbn iota. rewrite <- HY. clear Y HY.
  rewrite (decode_member _ _ _ _ _ (set_Links (coerce_map (Links r)) Result_zero)).
  2: reflexivity.
  2:{ unfold decodeField. cbn [String.eqb Ascii.eqb Bool.eqb layoutValue].
      change (Links Result_zero) with (@None (gmap string string)).
      rewrite decodeMap_any by lia. reflexivity. }
  next_member.
  rewrite (decode_member _ _ _ _ _
             (set_IconLinks (coerce_map (IconLinks r))
                (set_Links (coerce_map (Links r)) Result_zero))).
  2: reflexivity.
  2:{ unfold decodeField. cbn [String.eqb Ascii.eqb Bool.eqb layoutValue IconLinks set_Links].
      rewrite decodeMap_any by lia. reflexivity. }
  next_member.
  rewrite (decode_member _ _ _ _ _
             (set_Title (coerce (Title r))
                (set_IconLinks (coerce_map (IconLinks r))
                   (set_Links (coerce_map (Links r)) Result_zero)))).
  2: reflexivity.
  2:{ unfold decodeField. cbn [String.eqb Ascii.eqb Bool.eqb layoutValue].
      by rewrite decodeString_any. }
  next_member.
  rewrite (decode_member _ _ _ _ _
             (set_ProfileName (coerce (ProfileName r))
                (set_Title (coerce (Title r))
                   (set_IconLinks (coerce_map (IconLinks r))
                      (set_Links (coerce_map (Links r)) Result_zero))))).
  2: reflexivity.
  2:{ unfold decodeField. cbn [String.eqb Ascii.eqb Bool.eqb layoutValue].
      by rewrite decodeString_any. }
  next_member.
  rewrite (decode_member _ _ _ _ _
             (set_ProfileImg (coerce (ProfileImg r))
                (set_ProfileName (coerce (ProfileName r))
                   (set_Title (coerce (Title r))
                      (set_IconLinks (coerce_map (IconLinks r))
                         (set_Links (coerce_map (Links r)) Result_zero)))))).
  2: reflexivity.
  2:{ unfold decodeField. cbn [String.eqb Ascii.eqb Bool.eqb layoutValue].
      by rewrite decodeString_any. }
  change (appendNewline [] indent2 0 ++ ["}"%char])
    with (appendNewline [] indent2 0 ++ "}"%char :: []).
  rewrite skipSpace_newline.
  rewrite (skipSpace_keep "}"%char) by reflexivity.
  change (eqc "}" "}") with true. cbn iota.
  reflexivity.
Qed.
